(** * GDG certificate generator: a shallow embedding of
      [certificate_generator.py] and the properties of its rendering,
      hashing, QR payload and batch pipeline.

    Python text ([str]) is a sequence of Unicode code points and is modelled
    as [list N]; bytes are [list N] with every element below 256.  Python
    integers are [Z].  Library code the program calls but does not own
    (FreeType rasterisation, the QR symbol encoder, the PNG and PDF
    encoders, the image decoder, the Unicode database outside Latin-1) is
    gathered in the [Platform] class; SHA-256, UTF-8, the JSON text codec,
    [datetime] formatting and the POSIX path and directory operations are
    written out. *)

From Stdlib Require Import NArith ZArith Lia List Ascii String.
From stdpp Require Import base option list gmap strings.

Local Open Scope N_scope.

(** ** Text *)

(** A literal of the source, written as an ASCII string. *)
Definition lit (s : string) : list N :=
  map N_of_ascii (list_ascii_of_string s).

(** [str.isalnum] on the Latin-1 range, where the Unicode character
    database is fixed: the ASCII digits and letters, the ordinal
    indicators, MICRO SIGN, the superscript digits, the vulgar fractions
    and the accented letters (all of U+00C0..U+00FF but the multiplication
    and division signs). *)
Definition latin1_isalnum (c : N) : bool :=
  ((48 <=? c) && (c <=? 57)) || ((65 <=? c) && (c <=? 90))
  || ((97 <=? c) && (c <=? 122))
  || (c =? 170) || (c =? 178) || (c =? 179) || (c =? 181)
  || (c =? 185) || (c =? 186) || ((188 <=? c) && (c <=? 190))
  || ((192 <=? c) && (c <=? 214)) || ((216 <=? c) && (c <=? 246))
  || ((248 <=? c) && (c <=? 255)).

(** [c.isalnum()]: Unicode aware.  [ucd] is the answer of the interpreter's
    character database for code points from U+0100 on. *)
Definition isalnum (ucd : N -> bool) (c : N) : bool :=
  if c <? 256 then latin1_isalnum c else ucd c.

(** [c if c.isalnum() or c in (' ', '-', '_') else '_'] *)
Definition safe_char (ucd : N -> bool) (c : N) : N :=
  if isalnum ucd c || (c =? 32) || (c =? 45) || (c =? 95) then c else 95.

(** ["".join(... for c in attendee)] *)
Definition safe_name (ucd : N -> bool) (attendee : list N) : list N :=
  map (safe_char ucd) attendee.

(** [str.upper] on the characters a hexadecimal digest is made of. *)
Definition upper_char (c : N) : N :=
  if (97 <=? c) && (c <=? 122) then c - 32 else c.

Definition upper (s : list N) : list N := map upper_char s.

(** ** POSIX paths *)

Definition sep : N := 47.

Definition startswith_sep (s : list N) : bool :=
  match s with c :: _ => c =? sep | [] => false end.

Definition endswith_sep (s : list N) : bool :=
  match last s with Some c => c =? sep | None => false end.

(** [os.path.join(a, b)] of [posixpath]. *)
Definition path_join (a b : list N) : list N :=
  if startswith_sep b then b
  else if (match a with [] => true | _ => false end) || endswith_sep a
       then a ++ b
       else a ++ sep :: b.

(** ** Hexadecimal and decimal digits *)

Definition hexdigit (d : N) : N := if d <? 10 then 48 + d else 87 + d.

(** [k] hexadecimal digits of [n], most significant first (["%0kx"]). *)
Fixpoint hexfix (k : nat) (n : N) : list N :=
  match k with
  | O => []
  | S k' => hexdigit ((n / 16 ^ N.of_nat k') mod 16) :: hexfix k' n
  end.

(** [k] decimal digits of [n], most significant first (["%0kd"], for a
    value that fits the width). *)
Fixpoint decfix (k : nat) (n : N) : list N :=
  match k with
  | O => []
  | S k' => (48 + (n / 10 ^ N.of_nat k') mod 10) :: decfix k' n
  end.

Definition is_lower_hex (c : N) : bool :=
  ((48 <=? c) && (c <=? 57)) || ((97 <=? c) && (c <=? 102)).

(** ** UTF-8 ([str.encode()]) *)

Definition is_surrogate (c : N) : bool := (55296 <=? c) && (c <=? 57343).

(** A code point UTF-8 can encode: a Unicode scalar value. *)
Definition is_scalar (c : N) : bool := (c <? 1114112) && negb (is_surrogate c).

Definition utf8_char (c : N) : list N :=
  if c <? 128 then [c]
  else if c <? 2048 then [192 + c / 64; 128 + c mod 64]
  else if c <? 65536 then [224 + c / 4096; 128 + (c / 64) mod 64; 128 + c mod 64]
  else [240 + c / 262144; 128 + (c / 4096) mod 64; 128 + (c / 64) mod 64;
        128 + c mod 64].

(** [s.encode()]; [None] stands for [UnicodeEncodeError] (a lone
    surrogate in the text). *)
Definition encode (s : list N) : option (list N) :=
  if forallb is_scalar s then Some (flat_map utf8_char s) else None.

(** ** SHA-256 ([hashlib.sha256], FIPS 180-4) on 32-bit words held in [N] *)

Module SHA256.

Definition w32 (x : N) : N := x mod 4294967296.
Definition add32 (x y : N) : N := w32 (x + y).
Definition rotr (n x : N) : N :=
  N.lor (N.shiftr x n) (w32 (N.shiftl x (32 - n))).
Definition shr (n x : N) : N := N.shiftr x n.
Definition not32 (x : N) : N := 4294967295 - x.

Definition Ch (x y z : N) : N := N.lxor (N.land x y) (N.land (not32 x) z).
Definition Maj (x y z : N) : N :=
  N.lxor (N.lxor (N.land x y) (N.land x z)) (N.land y z).
Definition Sigma0 (x : N) : N := N.lxor (N.lxor (rotr 2 x) (rotr 13 x)) (rotr 22 x).
Definition Sigma1 (x : N) : N := N.lxor (N.lxor (rotr 6 x) (rotr 11 x)) (rotr 25 x).
Definition sigma0 (x : N) : N := N.lxor (N.lxor (rotr 7 x) (rotr 18 x)) (shr 3 x).
Definition sigma1 (x : N) : N := N.lxor (N.lxor (rotr 17 x) (rotr 19 x)) (shr 10 x).

(** The first 64 primes. *)
Definition primes : list N :=
  [ 2; 3; 5; 7; 11; 13; 17; 19; 23; 29; 31; 37; 41; 43; 47; 53; 59; 61; 67; 71;
    73; 79; 83; 89; 97; 101; 103; 107; 109; 113; 127; 131; 137; 139; 149; 151;
    157; 163; 167; 173; 179; 181; 191; 193; 197; 199; 211; 223; 227; 229; 233;
    239; 241; 251; 257; 263; 269; 271; 277; 281; 283; 293; 307; 311 ].

(** The integer cube root, one bit at a time from bit [b - 1] down. *)
Fixpoint cbrt_bits (b : nat) (n r : N) : N :=
  match b with
  | O => r
  | S b' =>
      let c := r + 2 ^ N.of_nat b' in
      cbrt_bits b' n (if c * c * c <=? n then c else r)
  end.

(** The first 32 bits of the fractional part of a cube root, of a square
    root. *)
Definition frac_cbrt (p : N) : N := w32 (cbrt_bits 36 (p * 2 ^ 96) 0).
Definition frac_sqrt (p : N) : N := w32 (N.sqrt (p * 2 ^ 64)).

(** The round constants: from the cube roots of the first 64 primes. *)
Definition K : list N := map frac_cbrt primes.

(** The eight working variables / the intermediate hash value. *)
Record state := State8 { ha : N; hb : N; hc : N; hd : N;
                         he : N; hf : N; hg : N; hh : N }.

(** The initial hash value: from the square roots of the first 8 primes. *)
Definition H0 : state :=
  State8 (frac_sqrt 2) (frac_sqrt 3) (frac_sqrt 5) (frac_sqrt 7)
         (frac_sqrt 11) (frac_sqrt 13) (frac_sqrt 17) (frac_sqrt 19).

(** Padding: the bit 1, zeros up to 56 mod 64, the bit length on 8 bytes. *)
Definition be_bytes (k : nat) (n : N) : list N :=
  map (fun i => (n / 256 ^ N.of_nat i) mod 256) (rev (seq 0 k)).

Definition pad (msg : list N) : list N :=
  let len := N.of_nat (length msg) in
  let zeros := N.to_nat ((119 - len mod 64) mod 64) in
  msg ++ 128 :: repeat 0 zeros ++ be_bytes 8 (8 * len).

Fixpoint be_words (bs : list N) : list N :=
  match bs with
  | a :: b :: c :: d :: rest =>
      (a * 16777216 + b * 65536 + c * 256 + d) :: be_words rest
  | _ => []
  end.

(** The message schedule, newest word first: [W_t] is built from
    [W_(t-2)], [W_(t-7)], [W_(t-15)] and [W_(t-16)]. *)
Fixpoint schedule (n : nat) (rev_w : list N) : list N :=
  match n with
  | O => rev_w
  | S n' =>
      let w := add32 (add32 (sigma1 (nth 1 rev_w 0)) (nth 6 rev_w 0))
                     (add32 (sigma0 (nth 14 rev_w 0)) (nth 15 rev_w 0)) in
      schedule n' (w :: rev_w)
  end.

Definition round (s : state) (kw : N * N) : state :=
  let t1 := add32 (add32 (add32 (hh s) (Sigma1 (he s)))
                         (add32 (Ch (he s) (hf s) (hg s)) (fst kw))) (snd kw) in
  let t2 := add32 (Sigma0 (ha s)) (Maj (ha s) (hb s) (hc s)) in
  State8 (add32 t1 t2) (ha s) (hb s) (hc s) (add32 (hd s) t1) (he s) (hf s) (hg s).

Definition compress (h : state) (block : list N) : state :=
  let w := rev (schedule 48 (rev (be_words block))) in
  let s := fold_left round (combine K w) h in
  State8 (add32 (ha h) (ha s)) (add32 (hb h) (hb s)) (add32 (hc h) (hc s))
         (add32 (hd h) (hd s)) (add32 (he h) (he s)) (add32 (hf h) (hf s))
         (add32 (hg h) (hg s)) (add32 (hh h) (hh s)).

Fixpoint blocks (fuel : nat) (bs : list N) (h : state) : state :=
  match fuel, bs with
  | S fuel', _ :: _ => blocks fuel' (drop 64 bs) (compress h (take 64 bs))
  | _, _ => h
  end.

Definition digest (msg : list N) : state :=
  let p := pad msg in blocks (length p) p H0.

(** [hashlib.sha256(msg).hexdigest()] *)
Definition hexdigest (msg : list N) : list N :=
  let s := digest msg in
  flat_map (hexfix 8) [ha s; hb s; hc s; hd s; he s; hf s; hg s; hh s].

End SHA256.

(** ** [datetime] *)

Record datetime := DateTime {
  year : N; month : N; day : N;
  hour : N; minute : N; second : N; microsecond : N }.

(** What [datetime.now()] can return. *)
Definition valid_datetime (t : datetime) : bool :=
  (1 <=? year t) && (year t <=? 9999) && (1 <=? month t) && (month t <=? 12)
  && (1 <=? day t) && (day t <=? 31) && (hour t <? 24) && (minute t <? 60)
  && (second t <? 60) && (microsecond t <? 1000000).

(** [t.isoformat()]: the microseconds are printed unless they are zero. *)
Definition isoformat (t : datetime) : list N :=
  decfix 4 (year t) ++ 45 :: decfix 2 (month t) ++ 45 :: decfix 2 (day t)
  ++ 84 :: decfix 2 (hour t) ++ 58 :: decfix 2 (minute t)
  ++ 58 :: decfix 2 (second t)
  ++ (if microsecond t =? 0 then [] else 46 :: decfix 6 (microsecond t)).

(** [t.strftime("%Y-%m-%d %H:%M:%S")] *)
Definition strftime (t : datetime) : list N :=
  decfix 4 (year t) ++ 45 :: decfix 2 (month t) ++ 45 :: decfix 2 (day t)
  ++ 32 :: decfix 2 (hour t) ++ 58 :: decfix 2 (minute t)
  ++ 58 :: decfix 2 (second t).

(** ** JSON text ([json.dumps] with its defaults, [json.loads]) *)

Module Json.

(** One character of a string under [ensure_ascii=True]: the quote and the
    backslash are escaped, the five short escapes are used, everything
    outside [' '..'~'] becomes [\uXXXX], a code point above U+FFFF a
    surrogate pair. *)
Definition escape_char (c : N) : list N :=
  if c =? 34 then [92; 34]
  else if c =? 92 then [92; 92]
  else if c =? 8 then [92; 98]
  else if c =? 12 then [92; 102]
  else if c =? 10 then [92; 110]
  else if c =? 13 then [92; 114]
  else if c =? 9 then [92; 116]
  else if (32 <=? c) && (c <=? 126) then [c]
  else if c <? 65536 then 92 :: 117 :: hexfix 4 c
  else
    let n := c - 65536 in
    92 :: 117 :: hexfix 4 (55296 + (n / 1024) mod 1024)
    ++ 92 :: 117 :: hexfix 4 (56320 + n mod 1024).

Definition dumps_str (s : list N) : list N :=
  34 :: flat_map escape_char s ++ [34].

(** [key: value] members joined by [", "]. *)
Fixpoint dumps_members (d : list (list N * list N)) : list N :=
  match d with
  | [] => []
  | (k, v) :: rest =>
      dumps_str k ++ 58 :: 32 :: dumps_str v
      ++ (match rest with [] => [] | _ => 44 :: 32 :: dumps_members rest end)
  end.

(** [json.dumps(d)] for a dict of strings, in insertion order. *)
Definition dumps (d : list (list N * list N)) : list N :=
  123 :: dumps_members d ++ [125].

Definition hexval (c : N) : option N :=
  if (48 <=? c) && (c <=? 57) then Some (c - 48)
  else if (97 <=? c) && (c <=? 102) then Some (c - 87)
  else if (65 <=? c) && (c <=? 70) then Some (c - 55)
  else None.

Definition hex4 (a b c d : N) : option N :=
  match hexval a, hexval b, hexval c, hexval d with
  | Some x, Some y, Some z, Some t => Some (((x * 16 + y) * 16 + z) * 16 + t)
  | _, _, _, _ => None
  end.

Definition is_high (u : N) : bool := (55296 <=? u) && (u <=? 56319).
Definition is_low (u : N) : bool := (56320 <=? u) && (u <=? 57343).

Definition short_escape (e : N) : option N :=
  if e =? 34 then Some 34 else if e =? 92 then Some 92
  else if e =? 47 then Some 47 else if e =? 98 then Some 8
  else if e =? 102 then Some 12 else if e =? 110 then Some 10
  else if e =? 114 then Some 13 else if e =? 116 then Some 9
  else None.

Definition cons_fst (c : N) (r : option (list N * list N)) :
  option (list N * list N) :=
  match r with Some (s, rest) => Some (c :: s, rest) | None => None end.

(** The decoder's string scanner, entered after the opening quote: the
    decoded string and the text after the closing quote.  Strict mode: a
    raw control character is refused. *)
Fixpoint scanstring (s : list N) : option (list N * list N) :=
  match s with
  | [] => None
  | c :: rest =>
    if c =? 34 then Some ([], rest)
    else if c =? 92 then
      match rest with
      | [] => None
      | e :: rest1 =>
        if e =? 117 then
          match rest1 with
          | h1 :: h2 :: h3 :: h4 :: rest5 =>
            match hex4 h1 h2 h3 h4 with
            | None => None
            | Some u =>
              if is_high u then
                match rest5 with
                | b :: v :: l1 :: l2 :: l3 :: l4 :: rest11 =>
                  if (b =? 92) && (v =? 117) then
                    match hex4 l1 l2 l3 l4 with
                    | None => None
                    | Some u2 =>
                      if is_low u2
                      then cons_fst (65536 + ((u - 55296) * 1024 + (u2 - 56320)))
                                    (scanstring rest11)
                      else cons_fst u (scanstring rest5)
                    end
                  else cons_fst u (scanstring rest5)
                | _ => cons_fst u (scanstring rest5)
                end
              else cons_fst u (scanstring rest5)
            end
          | _ => None
          end
        else
          match short_escape e with
          | Some d => cons_fst d (scanstring rest1)
          | None => None
          end
      end
    else if c <? 32 then None
    else cons_fst c (scanstring rest)
  end.

Fixpoint skip_ws (s : list N) : list N :=
  match s with
  | c :: rest =>
      if (c =? 32) || (c =? 9) || (c =? 10) || (c =? 13) then skip_ws rest else s
  | [] => []
  end.

Definition parse_string (s : list N) : option (list N * list N) :=
  match s with
  | c :: rest => if c =? 34 then scanstring rest else None
  | [] => None
  end.

(** The members of an object whose values are strings, up to the closing
    brace. *)
Fixpoint parse_members (fuel : nat) (s : list N) :
  option (list (list N * list N) * list N) :=
  match fuel with
  | O => None
  | S fuel' =>
    match parse_string (skip_ws s) with
    | None => None
    | Some (k, s1) =>
      match skip_ws s1 with
      | c :: s2 =>
        if c =? 58 then
          match parse_string (skip_ws s2) with
          | None => None
          | Some (v, s3) =>
            match skip_ws s3 with
            | d :: s4 =>
              if d =? 44 then
                match parse_members fuel' s4 with
                | Some (m, s5) => Some ((k, v) :: m, s5)
                | None => None
                end
              else if d =? 125 then Some ([(k, v)], s4)
              else None
            | [] => None
            end
          end
        else None
      | [] => None
      end
    end
  end.

(** [json.loads(text, object_pairs_hook=list)] on an object of strings. *)
Definition loads (text : list N) : option (list (list N * list N)) :=
  match skip_ws text with
  | c :: s1 =>
    if c =? 123 then
      match skip_ws s1 with
      | d :: s2 =>
        if d =? 125 then (match skip_ws s2 with [] => Some [] | _ => None end)
        else
          match parse_members (length text) s1 with
          | Some (m, s3) => match skip_ws s3 with [] => Some m | _ => None end
          | None => None
          end
      | [] => None
      end
    else None
  | [] => None
  end.

End Json.

(** ** Images ([PIL.Image]) *)

Local Open Scope Z_scope.

(** A pixel, as the RGB triple it shows.  The model is exact for images of
    mode RGB; for a template of another mode (grey levels, a palette) it
    keeps the colours a pixel shows, not the values Pillow stores, and
    drawing on such a template with an RGB colour is outside it.  The
    properties that depend on pixel values or on a render returning
    assume an RGB template. *)
Definition Pixel : Type := Z * Z * Z.

Definition black : Pixel := (0, 0, 0).
Definition white : Pixel := (255, 255, 255).

(** An image: its mode, its size and its pixel buffer, row by row. *)
Record Image := mkImage {
  im_mode : list N;
  im_width : Z;
  im_height : Z;
  im_data : list Pixel }.

Definition im_size (im : Image) : Z * Z := (im_width im, im_height im).

Definition in_bounds (im : Image) (x y : Z) : bool :=
  (0 <=? x) && (x <? im_width im) && (0 <=? y) && (y <? im_height im).

Definition offset (im : Image) (x y : Z) : nat := Z.to_nat (y * im_width im + x).

Definition getpixel (im : Image) (x y : Z) : Pixel :=
  if in_bounds im x y then default black (im_data im !! offset im x y) else black.

(** A write outside the image is clipped. *)
Definition putpixel (im : Image) (x y : Z) (p : Pixel) : Image :=
  if in_bounds im x y
  then mkImage (im_mode im) (im_width im) (im_height im)
               (<[offset im x y := p]> (im_data im))
  else im.

(** The coordinates of a [w] by [h] raster, row by row. *)
Definition coords (w h : Z) : list (Z * Z) :=
  flat_map (fun y => map (fun x => (x, y)) (seqZ 0 w)) (seqZ 0 h).

Definition new_image (mode : list N) (w h : Z) (f : Z -> Z -> Pixel) : Image :=
  mkImage mode w h (map (fun xy => f xy.1 xy.2) (coords w h)).

(** [Image.copy]: a new image with a buffer of its own. *)
Definition copy (im : Image) : Image :=
  mkImage (im_mode im) (im_width im) (im_height im) (im_data im).

(** [Image.convert('RGB')] *)
Definition convert_rgb (im : Image) : Image :=
  mkImage (lit "RGB") (im_width im) (im_height im) (im_data im).

(** [Image.paste(src, (x0, y0))]: the source is written over the
    destination, clipped to it. *)
Definition paste (dst src : Image) (pos : Z * Z) : Image :=
  fold_left (fun im xy => putpixel im (pos.1 + xy.1) (pos.2 + xy.2)
                                   (getpixel src xy.1 xy.2))
            (coords (im_width src) (im_height src)) dst.

(** [Image.resize((w, h))] with nearest-neighbour sampling (the filter
    used for a bilevel image); [None] is the [ValueError] raised for an
    empty target.  A target pixel takes the source pixel under its
    centre; where the centre falls exactly between two source pixels
    Pillow's floating-point scale may choose the other one. *)
Definition resize (src : Image) (w h : Z) : option Image :=
  if (w <? 1) || (h <? 1) then None
  else Some (new_image (im_mode src) w h (fun x y =>
         getpixel src ((2 * x + 1) * im_width src / (2 * w))
                      ((2 * y + 1) * im_height src / (2 * h)))).

(** ** Fonts ([PIL.ImageFont]) *)

Inductive Font :=
| FreeTypeFont (path : list N) (size : Z)
| DefaultFont.

(** ** Exceptions *)

Inductive exn :=
| AttributeError | ValueError | OSError | UnicodeEncodeError
| DataOverflowError | FileNotFoundError | FileExistsError
| IsADirectoryError | UnidentifiedImageError | ImageOpenError.

(** [str(e)] as the font fallback prints it; the wording is the
    library's and changes with its release (a later Pillow adds the size
    it was given to the [ValueError]). *)
Definition exn_str (e : exn) : list N :=
  match e with
  | AttributeError => lit "'NoneType' object has no attribute 'read'"
  | ValueError => lit "font size must be greater than 0"
  | OSError => lit "cannot open resource"
  | _ => []
  end.

(** ** The libraries behind the program *)

Class Platform := {
  (** [str.isalnum] from U+0100 on (the Unicode character database) *)
  ucd_isalnum : N -> bool;
  (** FreeType can open the font file at this path *)
  font_file_ok : list N -> bool;
  (** the pixels a text covers in a font, relative to the anchor *)
  rasterize : Font -> list N -> list (Z * Z);
  (** the modules of the smallest QR symbol at error correction level L
      that holds the text; [None] when no version does *)
  qr_modules : list N -> option (list (list bool));
  (** the PNG encoder, the PDF wrapper of [img2pdf], the image decoder *)
  png_encode : Image -> list N;
  img2pdf_convert : list N -> option (list N);
  decode_image : list N -> option Image;
}.

(** ** The world: object store, clock, file system, standard output *)

Record Generator := mkGenerator {
  template : positive;
  event_name : list N;
  template_width : Z;
  template_height : Z }.

Inductive Node := Dir | File (content : list N).

Record World := mkWorld {
  images : gmap positive Image;           (* PIL image objects *)
  generators : gmap positive Generator;   (* CertificateGenerator objects *)
  clock : nat -> datetime;                (* successive readings of the clock *)
  ticks : nat;                            (* readings taken so far *)
  fs : gmap (list (list N)) Node;         (* the directory tree *)
  stdout : list (list N) }.

Definition set_images (f : gmap positive Image -> gmap positive Image)
  (w : World) : World :=
  mkWorld (f (images w)) (generators w) (clock w) (ticks w) (fs w) (stdout w).

Definition set_generators (f : gmap positive Generator -> gmap positive Generator)
  (w : World) : World :=
  mkWorld (images w) (f (generators w)) (clock w) (ticks w) (fs w) (stdout w).

Definition set_fs (f : gmap (list (list N)) Node -> gmap (list (list N)) Node)
  (w : World) : World :=
  mkWorld (images w) (generators w) (clock w) (ticks w) (f (fs w)) (stdout w).

(** ** Computations: state and exceptions *)

Definition M (A : Type) : Type := World -> World * (exn + A).

Definition raise {A} (e : exn) : M A := fun w => (w, inl e).

#[global] Instance M_ret : MRet M := fun A a w => (w, inr a).

#[global] Instance M_bind : MBind M := fun A B k m w =>
  match m w with
  | (w1, inl e) => (w1, inl e)
  | (w1, inr a) => k a w1
  end.

(** [try: m  except Exception as e: h e] *)
Definition try_except {A} (m : M A) (h : exn -> M A) : M A :=
  fun w => match m w with
           | (w1, inl e) => h e w1
           | (w1, inr a) => (w1, inr a)
           end.

Definition of_option {A} (e : exn) (o : option A) : M A :=
  match o with Some a => mret a | None => raise e end.

(** One more reading of the clock has been taken. *)
Definition tick (w : World) : World :=
  mkWorld (images w) (generators w) (clock w) (S (ticks w)) (fs w) (stdout w).

(** [datetime.now()] *)
Definition now : M datetime :=
  fun w => (tick w, inr (clock w (ticks w))).

(** Lines have been written to the standard output. *)
Definition warn (lines : list (list N)) (w : World) : World :=
  mkWorld (images w) (generators w) (clock w) (ticks w) (fs w) (stdout w ++ lines).

Definition print (line : list N) : M unit :=
  fun w => (warn [line] w, inr tt).

(** Attribute access on [self]. *)
Definition get_self (self : positive) : M Generator :=
  fun w => of_option AttributeError (generators w !! self) w.

Definition get_image (l : positive) : M Image :=
  fun w => of_option AttributeError (images w !! l) w.

(** A new image object. *)
Definition alloc_image (im : Image) : M positive :=
  fun w => let l := fresh (dom (images w)) in
           (set_images (insert l im) w, inr l).

(** An image object changed in place. *)
Definition update_image (l : positive) (f : Image -> Image) : M unit :=
  im ← get_image l;
  (fun w => (set_images (insert l (f im)) w, inr tt)) : M unit.

(** ** The file system ([os], [open])

    A path names the list of its components under the working directory;
    there are no symbolic links.  [resolve] normalises a path by its text,
    as [os.path.normpath] does: [.] and empty components are dropped and
    [..] cancels the component before it.  The operating system walks the
    tree instead, so the two differ where [..] follows a component that
    is missing or a regular file, on a trailing separator after a file
    name, and for a path from the root; and a walk through a regular file
    fails with [NotADirectoryError], which the model does not tell from
    [FileNotFoundError] and [FileExistsError].  On a relative path of
    plain names below directories the model and the operating system
    agree; the properties that say how a file operation ends, or where
    it writes, are stated for such paths. *)

Fixpoint split_sep (s cur : list N) : list (list N) :=
  match s with
  | [] => [cur]
  | c :: rest => if (c =? sep)%N then cur :: split_sep rest []
                 else split_sep rest (cur ++ [c])
  end.

Definition is_dot (c : list N) : bool := bool_decide (c = [46%N]).
Definition is_dotdot (c : list N) : bool := bool_decide (c = [46%N; 46%N]).

Definition resolve (p : list N) : list (list N) :=
  fold_left (fun acc c =>
               if bool_decide (c = []) || is_dot c then acc
               else if is_dotdot c then removelast acc
               else acc ++ [c])
            (split_sep p []) [].

(** The non-empty prefixes of a component list, shortest first. *)
Fixpoint ancestors (pre l : list (list N)) : list (list (list N)) :=
  match l with
  | [] => []
  | c :: rest => (pre ++ [c]) :: ancestors (pre ++ [c]) rest
  end.

Definition is_dir (t : gmap (list (list N)) Node) (p : list (list N)) : bool :=
  match p with
  | [] => true
  | _ => match t !! p with Some Dir => true | _ => false end
  end.

Fixpoint mkdirs (ps : list (list (list N))) : M unit :=
  match ps with
  | [] => mret tt
  | p :: rest =>
      fun w =>
        match fs w !! p with
        | Some Dir => mkdirs rest w
        | Some (File _) => (w, inl FileExistsError)
        | None => mkdirs rest (set_fs (insert p Dir) w)
        end
  end.

(** [os.makedirs(path, exist_ok=True)] *)
Definition makedirs (path : list N) : M unit :=
  match path with
  | [] => raise FileNotFoundError
  | _ => mkdirs (ancestors [] (resolve path))
  end.

(** [open(path, 'wb')] followed by one [write] and the close: the file is
    created, or replaced, in an existing directory. *)
Definition write_file (path content : list N) : M unit :=
  fun w =>
    let p := resolve path in
    match p with
    | [] => (w, inl IsADirectoryError)
    | _ =>
      if negb (is_dir (fs w) (removelast p)) then (w, inl FileNotFoundError)
      else match fs w !! p with
           | Some Dir => (w, inl IsADirectoryError)
           | _ => (set_fs (insert p (File content)) w, inr tt)
           end
    end.

Definition read_file (path : list N) : M (list N) :=
  fun w =>
    match resolve path with
    | [] => (w, inl IsADirectoryError)
    | p => match fs w !! p with
           | Some (File c) => (w, inr c)
           | Some Dir => (w, inl IsADirectoryError)
           | None => (w, inl FileNotFoundError)
           end
    end.

(** ** Drawing and QR symbols *)

Section Program.
Context `{Platform}.

(** [ImageFont.truetype(font_path, size)]; [font_path] is [None] when the
    font could not be fetched. *)
Definition truetype (font_path : option (list N)) (size : Z) : M Font :=
  match font_path with
  | None => raise AttributeError
  | Some p =>
      if size <=? 0 then raise ValueError
      else if font_file_ok p then mret (FreeTypeFont p size)
      else raise OSError
  end.

(** [ImageFont.load_default()] *)
Definition load_default : M Font := mret DefaultFont.

(** [ImageDraw.text(xy, text, font=font, fill=fill)] on an image value:
    the pixels the text touches are those [rasterize] lists, and they are
    written with the fill colour.  FreeType blends the edge of a glyph
    with what is under it; the model writes the full colour there, so it
    says where a text is, not the shade of each of its pixels. *)
Definition text (im : Image) (xy : Z * Z) (s : list N) (font : Font)
  (fill : Pixel) : Image :=
  fold_left (fun im d => putpixel im (xy.1 + d.1) (xy.2 + d.2) fill)
            (rasterize font s) im.

(** [draw.text(...)] where [draw = ImageDraw.Draw(cert)]: the drawing
    context writes into the image object it was made for. *)
Definition draw_text (cert : positive) (xy : Z * Z) (s : list N) (font : Font)
  (fill : Pixel) : M unit :=
  update_image cert (fun im => text im xy s font fill).

Definition module_at (mods : list (list bool)) (row col : Z) : bool :=
  if (0 <=? row) && (0 <=? col)
  then default false (default [] (mods !! Z.to_nat row) !! Z.to_nat col)
  else false.

(** [qr.make_image(fill_color="black", back_color="white")] with
    [box_size=10] and [border=2]. *)
Definition make_image (mods : list (list bool)) : Image :=
  let n := (Z.of_nat (length mods) + 2 * 2) * 10 in
  new_image (lit "1") n n (fun x y =>
    if module_at mods (y / 10 - 2) (x / 10 - 2) then black else white).

(** ** [CertificateGenerator] *)

(** [Image.open(template_path)].  [decode_image] is the image the decoder
    yields once its data are read; Pillow reads them at the first use of
    the image, so for a file that is cut short the constructor of the
    source still returns and the first render raises. *)
Definition image_open (path : list N) : M positive :=
  bytes ← read_file path;
  im ← of_option UnidentifiedImageError (decode_image bytes);
  alloc_image im.

(** [CertificateGenerator(template_path, event_name)] *)
Definition init (template_path event : list N) : M positive :=
  t ← image_open template_path;
  im ← get_image t;
  (fun w =>
     let self := fresh (dom (generators w)) in
     (set_generators (insert self (mkGenerator t event (im_width im) (im_height im))) w,
      inr self)) : M positive.

Definition generate_hash (self : positive) (attendee_name : list N) : M (list N) :=
  t ← now;
  let timestamp := isoformat t in
  g ← get_self self;
  let data := attendee_name ++ event_name g ++ timestamp in
  bytes ← of_option UnicodeEncodeError (encode data);
  mret (SHA256.hexdigest bytes).

(** The dictionary [verification_data], in insertion order. *)
Definition verification_data (cert_hash attendee_name event date : list N) :
  list (list N * list N) :=
  [ (lit "hash", cert_hash); (lit "name", attendee_name);
    (lit "event", event); (lit "date", date) ].

(** [generate_qr_code].  A payload beyond the largest symbol makes
    [qr.make] raise; the exception is named [DataOverflowError] here, and
    is a [ValueError] in some releases of the library. *)
Definition generate_qr_code (self : positive) (attendee_name cert_hash : list N) :
  M Image :=
  g ← get_self self;
  t ← now;
  let date := strftime t in
  let data := verification_data cert_hash attendee_name (event_name g) date in
  mods ← of_option DataOverflowError (qr_modules (Json.dumps data));
  mret (make_image mods).

Definition generate_certificate (self : positive) (attendee_name : list N)
  (name_position : Z * Z) (font_path : option (list N)) (font_size : Z)
  (text_color : Pixel) (hash_position qr_position : option (Z * Z))
  (qr_size : Z) : M (positive * list N) :=
  g ← get_self self;
  tpl ← get_image (template g);
  cert ← alloc_image (copy tpl);
  fonts ← try_except
    (font ← truetype font_path font_size;
     hash_font ← truetype font_path (Z.max 12 (font_size / 3));
     mret (font, hash_font))
    (fun e =>
     print (lit "Error loading font: " ++ exn_str e);;
     font ← load_default;
     hash_font ← load_default;
     mret (font, hash_font));
  draw_text cert name_position attendee_name fonts.1 text_color;;
  cert_hash ← generate_hash self attendee_name;
  let hash_display := lit "ID: " ++ upper (take 12 cert_hash) in
  match hash_position with
  | Some p => draw_text cert p hash_display fonts.2 text_color
  | None =>
      g ← get_self self;
      draw_text cert (50, template_height g - 100) hash_display fonts.2 text_color
  end;;
  qr_img ← generate_qr_code self attendee_name cert_hash;
  qr_img ← of_option ValueError (resize qr_img qr_size qr_size);
  match qr_position with
  | Some p => update_image cert (fun im => paste im qr_img p)
  | None =>
      g ← get_self self;
      update_image cert (fun im =>
        paste im qr_img (template_width g - qr_size - 50,
                         template_height g - qr_size - 50))
  end;;
  mret (cert, cert_hash).

(** [Image.save(output_path)] for a [.png] path that has a file name
    before the extension and an image of a mode PNG holds; Pillow raises
    for the path [.png] alone and for a CMYK image, which the model does
    not. *)
Definition image_save (image : positive) (output_path : list N) : M unit :=
  im ← get_image image;
  write_file output_path (png_encode im).

Definition save_as_pdf (self : positive) (image : positive)
  (output_path : list N) : M unit :=
  im ← get_image image;
  let im := if bool_decide (im_mode im ≠ lit "RGB") then convert_rgb im else im in
  let img_byte_arr := png_encode im in
  write_file output_path [];;
  pdf ← of_option ImageOpenError (img2pdf_convert img_byte_arr);
  write_file output_path pdf.

(** One entry of the list [batch_generate] returns. *)
Record CertInfo := mkCertInfo {
  info_name : list N;
  info_hash : list N;
  info_path : list N }.

(** The body of the [for] loop, [results] being the list built so far. *)
Fixpoint batch_loop (self : positive) (attendees : list (list N))
  (output_dir : list N) (name_position : Z * Z) (font_path : option (list N))
  (font_size : Z) (text_color : Pixel) (hash_position qr_position : option (Z * Z))
  (qr_size : Z) (as_pdf : bool) (results : list CertInfo) : M (list CertInfo) :=
  match attendees with
  | [] => mret results
  | attendee :: rest =>
      r ← generate_certificate self attendee name_position font_path font_size
            text_color hash_position qr_position qr_size;
      let safe := safe_name ucd_isalnum attendee in
      output_path ←
        (if as_pdf then
           let output_path := path_join output_dir (safe ++ lit ".pdf") in
           save_as_pdf self r.1 output_path;; mret output_path
         else
           let output_path := path_join output_dir (safe ++ lit ".png") in
           image_save r.1 output_path;; mret output_path);
      batch_loop self rest output_dir name_position font_path font_size
        text_color hash_position qr_position qr_size as_pdf
        (results ++ [mkCertInfo attendee r.2 output_path])
  end.

Definition batch_generate (self : positive) (attendees : list (list N))
  (output_dir : list N) (name_position : Z * Z) (font_path : option (list N))
  (font_size : Z) (text_color : Pixel) (hash_position qr_position : option (Z * Z))
  (qr_size : Z) (as_pdf : bool) : M (list CertInfo) :=
  makedirs output_dir;;
  batch_loop self attendees output_dir name_position font_path font_size
    text_color hash_position qr_position qr_size as_pdf [].

End Program.

(** ** Fetching a font ([download_google_font]) *)

(** The network and the C library behind [download_google_font]. *)
Class Network := {
  (** [requests.get(url)] followed by [raise_for_status()]: the body of
      the response, or the text of the exception raised *)
  http_get : list N -> list N + list N;
  (** [str(e)] for an exception of the operating system *)
  strerror : exn -> list N;
}.

(** [os.path.exists(path)] *)
Definition path_exists (path : list N) : M bool :=
  fun w =>
    (w, inr match path with
            | [] => false
            | _ => match resolve path with
                   | [] => true
                   | p => bool_decide (is_Some (fs w !! p))
                   end
            end).

(** The dictionary [font_urls]. *)
Definition font_urls : gmap (list N) (list N) :=
  list_to_map
    [ (lit "Amiri", lit "https://github.com/google/fonts/raw/main/ofl/amiri/Amiri-Regular.ttf");
      (lit "Cairo", lit "https://github.com/google/fonts/raw/main/ofl/cairo/Cairo%5Bwght%5D.ttf");
      (lit "Roboto", lit "https://github.com/google/fonts/raw/main/apache/roboto/static/Roboto-Regular.ttf");
      (lit "OpenSans", lit "https://github.com/google/fonts/raw/main/apache/opensans/OpenSans%5Bwdth%2Cwght%5D.ttf");
      (lit "Montserrat", lit "https://github.com/google/fonts/raw/main/ofl/montserrat/Montserrat%5Bwght%5D.ttf");
      (lit "Tajawal", lit "https://github.com/google/fonts/raw/main/ofl/tajawal/Tajawal-Regular.ttf");
      (lit "Almarai", lit "https://github.com/google/fonts/raw/main/ofl/almarai/Almarai-Regular.ttf") ].

Section Download.
Context `{Network}.

(** [download_google_font(font_name, font_dir)]: the path of the font
    file, or [None].  An exception of [requests] carries its text; the
    one handler of the source is written once for the request and once
    for the write. *)
Definition download_google_font (self : positive) (font_name font_dir : list N) :
  M (option (list N)) :=
  makedirs font_dir;;
  let font_path := path_join font_dir (font_name ++ lit ".ttf") in
  cached ← path_exists font_path;
  if cached : bool then mret (Some font_path)
  else
    match font_urls !! font_name with
    | Some url =>
        match http_get url with
        | inl text =>
            print (lit "Error downloading font " ++ font_name ++ lit ": " ++ text);;
            mret None
        | inr content =>
            try_except
              (write_file font_path content;; mret (Some font_path))
              (fun e =>
                 print (lit "Error downloading font " ++ font_name ++ lit ": "
                        ++ strerror e);;
                 mret None)
        end
    | None => mret None
    end.

End Download.

(** ** The attendee names typed into the form ([app.py]) *)

(** [str.isspace] on the Latin-1 range; [ucd] answers from U+0100 on. *)
Definition isspace (ucd : N -> bool) (c : N) : bool :=
  if (c <? 256)%N
  then ((9 <=? c) && (c <=? 13))%N || ((28 <=? c) && (c <=? 32))%N
       || (c =? 133)%N || (c =? 160)%N
  else ucd c.

Fixpoint lstrip (ucd : N -> bool) (s : list N) : list N :=
  match s with
  | c :: rest => if isspace ucd c then lstrip ucd rest else s
  | [] => []
  end.

Definition rstrip (ucd : N -> bool) (s : list N) : list N :=
  rev (lstrip ucd (rev s)).

(** [s.strip()] *)
Definition strip (ucd : N -> bool) (s : list N) : list N :=
  rstrip ucd (lstrip ucd s).

(** [s.split('\n')], [cur] being the piece read so far. *)
Fixpoint split_lines (s cur : list N) : list (list N) :=
  match s with
  | [] => [cur]
  | c :: rest => if (c =? 10)%N then cur :: split_lines rest []
                 else split_lines rest (cur ++ [c])
  end.

(** The "Load Attendees" button on manual entry: the new attendee list,
    or [None] when the form shows "Please enter at least one name" and
    keeps the list it had. *)
Definition load_attendees (ucd : N -> bool) (manual_input : list N) :
  option (list (list N)) :=
  match strip ucd manual_input with
  | [] => None
  | _ =>
      Some (map (strip ucd)
              (filter (fun name => strip ucd name <> []) (split_lines manual_input [])))
  end.

(** ** Vocabulary of the properties *)

(** The strings of an object are text UTF-8 can carry. *)
Definition scalar_members (d : list (list N * list N)) : bool :=
  forallb (fun kv => forallb is_scalar kv.1 && forallb is_scalar kv.2) d.

(** The text of the hash stamp. *)
Definition hash_display (cert_hash : list N) : list N :=
  lit "ID: " ++ upper (take 12 cert_hash).

(** Where the QR symbol goes. *)
Definition qr_place (g : Generator) (qr_position : option (Z * Z)) (qr_size : Z) :
  Z * Z :=
  default (template_width g - qr_size - 50, template_height g - qr_size - 50)
          qr_position.

(** Same mode, same size, same buffer length. *)
Definition same_shape (a b : Image) : Prop :=
  im_mode a = im_mode b /\ im_width a = im_width b /\
  im_height a = im_height b /\ length (im_data a) = length (im_data b).

(** The text a hash is made of, and the hash. *)
Definition hash_text (g : Generator) (attendee_name : list N) (t : datetime) : list N :=
  attendee_name ++ event_name g ++ isoformat t.

Definition minted (g : Generator) (attendee_name : list N) (t : datetime) : list N :=
  SHA256.hexdigest (flat_map utf8_char (hash_text g attendee_name t)).

Definition is_upper_hex (c : N) : bool :=
  ((48 <=? c) && (c <=? 57))%N || ((65 <=? c) && (c <=? 70))%N.

(** The path names a regular file. *)
Definition is_file (w : World) (path : list N) : Prop :=
  exists content, fs w !! resolve path = Some (File content).

(** What a step may do to the file system: files stay files, directories
    stay directories. *)
Definition fs_grows (w w' : World) : Prop :=
  (forall p c, fs w !! p = Some (File c) -> exists c', fs w' !! p = Some (File c')) /\
  (forall p, fs w !! p = Some Dir -> fs w' !! p = Some Dir).

Definition extension (as_pdf : bool) : list N :=
  if as_pdf then lit ".pdf" else lit ".png".

Section Vocabulary.
Context `{Platform}.

(** The font file opens at the requested size. *)
Definition font_loads (font_path : option (list N)) (font_size : Z) : bool :=
  match font_path with
  | Some p => (0 <? font_size) && font_file_ok p
  | None => false
  end.

(** The fonts of the name and of the hash stamp. *)
Definition fonts_of (font_path : option (list N)) (font_size : Z) : Font * Font :=
  match font_path with
  | Some p =>
      if font_loads font_path font_size
      then (FreeTypeFont p font_size, FreeTypeFont p (Z.max 12 (font_size / 3)))
      else (DefaultFont, DefaultFont)
  | None => (DefaultFont, DefaultFont)
  end.

(** What the fallback prints. *)
Definition font_warning (font_path : option (list N)) (font_size : Z) :
  list (list N) :=
  match font_path with
  | None => [lit "Error loading font: " ++ exn_str AttributeError]
  | Some p =>
      if font_size <=? 0 then [lit "Error loading font: " ++ exn_str ValueError]
      else if font_file_ok p then []
      else [lit "Error loading font: " ++ exn_str OSError]
  end.

(** The template copy with the name and the hash stamp drawn on it. *)
Definition stamped (tpl : Image) (g : Generator) (attendee_name : list N)
  (name_position : Z * Z) (font_path : option (list N)) (font_size : Z)
  (text_color : Pixel) (hash_position : option (Z * Z)) (cert_hash : list N) : Image :=
  text (text (copy tpl) name_position attendee_name
             (fonts_of font_path font_size).1 text_color)
       (default (50, template_height g - 100) hash_position)
       (hash_display cert_hash) (fonts_of font_path font_size).2 text_color.

(** The world a render leaves: the certificate object [cert] holds [im],
    [n] clock readings were taken, the font warning was printed. *)
Definition rendered (w : World) (cert : positive) (im : Image) (n : nat)
  (font_path : option (list N)) (font_size : Z) : World :=
  mkWorld (<[cert := im]> (images w)) (generators w) (clock w) (n + ticks w)
          (fs w) (stdout w ++ font_warning font_path font_size).

(** [generate_certificate], outcome by outcome. *)
Definition render (self : positive) (attendee_name : list N)
  (name_position : Z * Z) (font_path : option (list N)) (font_size : Z)
  (text_color : Pixel) (hash_position qr_position : option (Z * Z))
  (qr_size : Z) (w : World) : World * (exn + positive * list N) :=
  match generators w !! self with
  | None => (w, inl AttributeError)
  | Some g =>
    match images w !! template g with
    | None => (w, inl AttributeError)
    | Some tpl =>
      let cert := fresh (dom (images w)) in
      let named := text (copy tpl) name_position attendee_name
                        (fonts_of font_path font_size).1 text_color in
      match encode (attendee_name ++ event_name g ++ isoformat (clock w (ticks w))) with
      | None => (rendered w cert named 1 font_path font_size, inl UnicodeEncodeError)
      | Some bytes =>
        let h := SHA256.hexdigest bytes in
        let st := stamped tpl g attendee_name name_position font_path font_size
                          text_color hash_position h in
        match qr_modules (Json.dumps (verification_data h attendee_name (event_name g)
                                        (strftime (clock w (S (ticks w)))))) with
        | None => (rendered w cert st 2 font_path font_size, inl DataOverflowError)
        | Some mods =>
          match resize (make_image mods) qr_size qr_size with
          | None => (rendered w cert st 2 font_path font_size, inl ValueError)
          | Some qr =>
              (rendered w cert (paste st qr (qr_place g qr_position qr_size)) 2
                        font_path font_size,
               inr (cert, h))
          end
        end
      end
    end
  end.

(** The path a certificate is written to. *)
Definition output_path_of (output_dir : list N) (as_pdf : bool) (attendee : list N) :
  list N :=
  path_join output_dir (safe_name ucd_isalnum attendee ++ extension as_pdf).

(** The records of a batch that starts when [t] readings of the clock
    [clk] have been taken: each render takes two. *)
Fixpoint batch_records (g : Generator) (clk : nat -> datetime) (t : nat)
  (output_dir : list N) (as_pdf : bool) (attendees : list (list N)) : list CertInfo :=
  match attendees with
  | [] => []
  | attendee :: rest =>
      mkCertInfo attendee (minted g attendee (clk t))
                 (output_path_of output_dir as_pdf attendee)
      :: batch_records g clk (S (S t)) output_dir as_pdf rest
  end.

(** The saving step of the loop body. *)
Definition save_step (self cert : positive) (output_dir : list N) (as_pdf : bool)
  (attendee : list N) : M (list N) :=
  if as_pdf then
    save_as_pdf self cert
      (path_join output_dir (safe_name ucd_isalnum attendee ++ lit ".pdf"));;
    mret (path_join output_dir (safe_name ucd_isalnum attendee ++ lit ".pdf"))
  else
    image_save cert
      (path_join output_dir (safe_name ucd_isalnum attendee ++ lit ".png"));;
    mret (path_join output_dir (safe_name ucd_isalnum attendee ++ lit ".png")).

End Vocabulary.

(** ** A small concrete platform and world, to run the program on *)

Module Demo.

Definition platform : Platform := {|
  ucd_isalnum := fun c => ((1569 <=? c) && (c <=? 1610))%N;
  font_file_ok := fun p => bool_decide (p = lit "fonts/Roboto.ttf");
  rasterize := fun f s =>
    imap (fun i _ => (Z.of_nat i, match f with FreeTypeFont _ _ => 0 | DefaultFont => 1 end)) s;
  qr_modules := fun s =>
    if (length s <=? 2953)%nat then Some [[true; false]; [false; true]] else None;
  png_encode := fun im => lit "PNG" ++ flat_map (fun p => [Z.to_N p.1.1; Z.to_N p.1.2; Z.to_N p.2]) (im_data im);
  img2pdf_convert := fun b => Some (lit "%PDF" ++ b);
  decode_image := fun b =>
    match b with
    | w :: h :: _ => Some (new_image (lit "RGB") (Z.of_N w) (Z.of_N h) (fun _ _ => (200, 200, 200)))
    | _ => None
    end |}.

Definition clock0 (n : nat) : datetime :=
  DateTime 2024 5 17 10 30 0 (N.of_nat n).

Definition boot : World :=
  mkWorld ∅ ∅ clock0 0 {[ [lit "template.png"] := File [12; 8]%N ]} [].

(** The world after [CertificateGenerator("template.png", "GDG Basra Event")]
    and the generator it made. *)
Definition started : World * (exn + positive) :=
  @init platform (lit "template.png") (lit "GDG Basra Event") boot.

Definition world : World := started.1.

Definition self : positive :=
  match started.2 with inr s => s | inl _ => 1%positive end.

Definition roboto : option (list N) := Some (lit "fonts/Roboto.ttf").
Definition missing : option (list N) := Some (lit "fonts/Missing.ttf").

(** One render with the font, one with a font file that is not there. *)
Definition render_of (font_path : option (list N)) (w : World) :
  World * (exn + positive * list N) :=
  @generate_certificate platform self (lit "Alice") (1, 1) font_path 60
    (0, 0, 0) (Some (0, 5)) (Some (9, 1)) 2 w.

Definition cert_of (r : World * (exn + positive * list N)) : positive :=
  match r.2 with inr (c, _) => c | inl _ => 1%positive end.

Definition hash_of (r : World * (exn + positive * list N)) : list N :=
  match r.2 with inr (_, h) => h | inl _ => [] end.

Definition good : World * (exn + positive * list N) := render_of roboto world.
Definition bad : World * (exn + positive * list N) := render_of missing world.

(** The certificate of [bad] as it would be with [hash_font] for the stamp. *)
Definition bad_with (hash_font : Font) : Image :=
  paste
    (@text platform
       (@text platform (copy (new_image (lit "RGB") 12 8 (fun _ _ => (200, 200, 200))))
              (1, 1) (lit "Alice") DefaultFont (0, 0, 0))
       (0, 5) (lit "ID: " ++ upper (take 12 (hash_of bad))) hash_font (0, 0, 0))
    (default (new_image [] 0 0 (fun _ _ => black))
             (resize (@make_image [[true; false]; [false; true]]) 2 2))
    (9, 1).

(** A clock that gives the same reading twice. *)
Definition frozen : World :=
  mkWorld (images world) (generators world)
          (fun _ => DateTime 2024 5 17 10 30 0 0) 0 (fs world) (stdout world).

(** A batch of three, two of them of the same name. *)
Definition batch (as_pdf : bool) : World * (exn + list CertInfo) :=
  @batch_generate platform self [lit "Alice"; lit "Bob"; lit "Alice"]
    (lit "temp/generated") (1, 1) roboto 60 (0, 0, 0) None None 2 as_pdf world.

Definition results_of (r : World * (exn + list CertInfo)) : list CertInfo :=
  match r.2 with inr l => l | inl _ => [] end.

(** The attendee name "J(U+00F6)hn/Doe*1" (o with diaeresis) and the stem
    the specification expects for it, "J_hn_Doe_1". *)
Definition john : list N := [74; 246; 104; 110; 47; 68; 111; 101; 42; 49]%N.
Definition john_expected : list N := lit "J_hn_Doe_1".

End Demo.


(** ** Vocabulary of the pixel-level properties *)

(** The buffer of an image has one pixel per position. *)
Definition wf_image (im : Image) : Prop :=
  0 <= im_width im /\ 0 <= im_height im /\
  length (im_data im) = Z.to_nat (im_width im * im_height im).

(** The mask [mask], anchored at [xy], covers the pixel [(x, y)]. *)
Definition covers (xy : Z * Z) (mask : list (Z * Z)) (x y : Z) : Prop :=
  exists d, d ∈ mask /\ (xy.1 + d.1, xy.2 + d.2) = (x, y).

(** The pixel [(x, y)] lies in the square of side [size] at [pos]. *)
Definition in_box (pos : Z * Z) (size : Z) (x y : Z) : Prop :=
  pos.1 <= x < pos.1 + size /\ pos.2 <= y < pos.2 + size.

(** From [w] to [w']: the generator objects and the clock are the same,
    the image objects of [w] are unchanged, files are still files and
    directories still directories. *)
Definition evolves (w w' : World) : Prop :=
  generators w' = generators w /\ clock w' = clock w /\
  (forall l im, images w !! l = Some im -> images w' !! l = Some im) /\
  fs_grows w w'.

(** A path component that names an entry of its directory: no separator,
    and none of the empty name, [.] and [..]. *)
Definition plain (b : list N) : Prop :=
  (sep ∉ b) /\ b <> [] /\ b <> [46%N] /\ b <> [46%N; 46%N].

(** A name the operating system takes for a directory entry: not empty,
    not [.] or [..], without NUL, every character encodable, at most 255
    bytes long. *)
Definition name_ok (c : list N) : bool :=
  negb (bool_decide (c = [])) && negb (is_dot c) && negb (is_dotdot c)
  && forallb (fun ch => negb (ch =? 0)%N && is_scalar ch) c
  && (length (flat_map utf8_char c) <=? 255)%nat.

(** A relative path made of such names only, shorter than [PATH_MAX].
    [resolve] normalises a path by its text alone; on these paths that is
    what the operating system does too: there is no [..] to cancel a
    component that may not exist or may be a file, no trailing or doubled
    separator, and no root. *)
Definition plain_path (p : list N) : bool :=
  forallb name_ok (split_sep p []) && (length (flat_map utf8_char p) <? 4096)%nat.

(** The proper prefixes of a path hold no regular file: the walk down to
    the directory of the path is not stopped by one. *)
Definition no_file_above (w : World) (path : list N) : Prop :=
  Forall (fun p => forall c, fs w !! p <> Some (File c))
         (ancestors [] (removelast (resolve path))).

(** A coordinate the imaging library takes as a C integer, and the
    positions and the QR size of a render it can carry out: every
    coordinate in reach, the QR square between 1 and 4096 pixels wide. *)
Definition in_reach (z : Z) : bool := (- 2 ^ 30 <=? z)%Z && (z <=? 2 ^ 30)%Z.

Definition geometry_ok (name_position : Z * Z)
  (hash_position qr_position : option (Z * Z)) (qr_size : Z) : bool :=
  in_reach name_position.1 && in_reach name_position.2
  && match hash_position with
     | Some p => in_reach p.1 && in_reach p.2
     | None => true
     end
  && match qr_position with
     | Some p => in_reach p.1 && in_reach p.2
     | None => true
     end
  && (1 <=? qr_size)%Z && (qr_size <=? 4096)%Z.

(** A colour of three bytes. *)
Definition colour_ok (c : Pixel) : bool :=
  (0 <=? c.1.1)%Z && (c.1.1 <=? 255)%Z && (0 <=? c.1.2)%Z && (c.1.2 <=? 255)%Z
  && (0 <=? c.2)%Z && (c.2 <=? 255)%Z.

(** The file systems of [w] and [w'] agree on every path outside [S]. *)
Definition same_outside (S : list (list N) -> Prop) (w w' : World) : Prop :=
  forall q, ~ S q -> fs w' !! q = fs w !! q.

(** A name as the form keeps it: not empty, on one line, no white space
    at either end. *)
Definition clean_name (ucd : N -> bool) (name : list N) : Prop :=
  name <> [] /\ (10%N ∉ name) /\
  (forall c, head name = Some c -> isspace ucd c = false) /\
  (forall c, last name = Some c -> isspace ucd c = false).

(** The names typed one per line. *)
Definition join_lines (names : list (list N)) : list N :=
  match names with
  | [] => []
  | first :: rest => first ++ flat_map (fun name => 10%N :: name) rest
  end.

Section Encoded.
Context `{Platform}.

(** The bytes a certificate image is saved as: [None] when [img2pdf]
    refuses the image. *)
Definition file_bytes (as_pdf : bool) (im : Image) : option (list N) :=
  if as_pdf
  then img2pdf_convert
         (png_encode (if bool_decide (im_mode im ≠ lit "RGB") then convert_rgb im else im))
  else Some (png_encode im).

End Encoded.

(** A network that serves every URL, and one that is down. *)
Module Mirror.

Definition online : Network := {|
  http_get := fun url => inr (lit "ttf:" ++ url);
  strerror := fun _ => lit "Permission denied" |}.

Definition offline : Network := {|
  http_get := fun _ => inl (lit "Connection refused");
  strerror := fun _ => lit "Permission denied" |}.

End Mirror.

(** * Properties *)

(** ** Digits, hexadecimal digests and UTF-8 *)

Section TextFacts.
Local Open Scope N_scope.

Lemma hexfix_length k n : length (hexfix k n) = k.
Proof. induction k as [|k IH]; simpl; [done | by rewrite IH]. Qed.

Lemma decfix_length k n : length (decfix k n) = k.
Proof. induction k as [|k IH]; simpl; [done | by rewrite IH]. Qed.

Lemma hexdigit_lower d : d < 16 -> is_lower_hex (hexdigit d) = true.
Proof.
  intros Hd. unfold is_lower_hex, hexdigit.
  destruct (N.ltb_spec d 10).
  - apply orb_true_iff. left. apply andb_true_iff. split; apply N.leb_le; lia.
  - apply orb_true_iff. right. apply andb_true_iff. split; apply N.leb_le; lia.
Qed.

Lemma hexfix_lower k n : forallb is_lower_hex (hexfix k n) = true.
Proof.
  induction k as [|k IH]; cbn [hexfix forallb]; [done |].
  rewrite IH, andb_true_r. apply hexdigit_lower. apply N.mod_lt. lia.
Qed.

Lemma hexdigest_length msg : length (SHA256.hexdigest msg) = 64%nat.
Proof.
  unfold SHA256.hexdigest. cbv zeta. cbn [flat_map].
  rewrite !length_app, !hexfix_length. reflexivity.
Qed.

Lemma hexdigest_lower msg : forallb is_lower_hex (SHA256.hexdigest msg) = true.
Proof.
  unfold SHA256.hexdigest. cbv zeta. cbn [flat_map].
  rewrite !forallb_app, !hexfix_lower. reflexivity.
Qed.

(** The constants and the digests of the standard's examples. *)
Example sha256_constants :
  take 4 SHA256.K = [0x428a2f98; 0x71374491; 0xb5c0fbcf; 0xe9b5dba5] /\
  last SHA256.K = Some 0xc67178f2 /\
  SHA256.ha SHA256.H0 = 0x6a09e667 /\ SHA256.hh SHA256.H0 = 0x5be0cd19.
Proof. vm_compute. done. Qed.

Example sha256_abc :
  SHA256.hexdigest (lit "abc")
  = lit "ba7816bf8f01cfea414140de5dae2223b00361a396177a9cb410ff61f20015ad".
Proof. vm_compute. reflexivity. Qed.

Example sha256_empty :
  SHA256.hexdigest []
  = lit "e3b0c44298fc1c149afbf4c8996fb92427ae41e4649b934ca495991b7852b855".
Proof. vm_compute. reflexivity. Qed.

Example sha256_two_blocks :
  SHA256.hexdigest (lit "abcdbcdecdefdefgefghfghighijhijkijkljklmklmnlmnomnopnopq")
  = lit "248d6a61d20638b8e5c026930c3e6039a33ce45964ff2167f6ecedd419db06c1".
Proof. vm_compute. reflexivity. Qed.

Lemma decfix_digit k n c : c ∈ decfix k n -> 48 <= c <= 57.
Proof.
  induction k as [|k IH]; cbn [decfix]; intros Hc.
  - by apply elem_of_nil in Hc.
  - apply elem_of_cons in Hc as [Hc | Hc]; [| by apply IH].
    assert ((n / 10 ^ N.of_nat k) mod 10 < 10) as Hlt by (apply N.mod_lt; lia).
    revert Hc Hlt. generalize ((n / 10 ^ N.of_nat k) mod 10). lia.
Qed.

End TextFacts.

(** ** The JSON text codec: decoding what [dumps] wrote *)

Ltac divlia := zify; Z.to_euclidean_division_equations; lia.

(** Boolean comparisons on [N] turned into facts for [lia]. *)
Ltac nbool :=
  repeat match goal with
  | H : (_ && _) = true |- _ => apply andb_true_iff in H as [? ?]
  | H : (_ || _) = false |- _ => apply orb_false_iff in H as [? ?]
  | H : negb _ = true |- _ => apply negb_true_iff in H
  | H : (_ <=? _)%N = true |- _ => apply N.leb_le in H
  | H : (_ <=? _)%N = false |- _ => apply N.leb_gt in H
  | H : (_ <? _)%N = true |- _ => apply N.ltb_lt in H
  | H : (_ <? _)%N = false |- _ => apply N.ltb_ge in H
  | H : (_ =? _)%N = true |- _ => apply N.eqb_eq in H
  | H : (_ =? _)%N = false |- _ => apply N.eqb_neq in H
  end.

Section JsonFacts.
Local Open Scope N_scope.
Import Json.

Lemma hexfix4 n :
  hexfix 4 n = [hexdigit ((n / 4096) mod 16); hexdigit ((n / 256) mod 16);
                hexdigit ((n / 16) mod 16); hexdigit (n mod 16)].
Proof.
  cbn [hexfix]. change (16 ^ N.of_nat 3) with 4096. change (16 ^ N.of_nat 2) with 256.
  change (16 ^ N.of_nat 1) with 16. change (16 ^ N.of_nat 0) with 1.
  by rewrite N.div_1_r.
Qed.

Lemma hexval_hexdigit d : d < 16 -> hexval (hexdigit d) = Some d.
Proof.
  intros Hd. unfold hexval, hexdigit.
  destruct (d <? 10) eqn:E; nbool.
  - replace ((48 <=? 48 + d) && (48 + d <=? 57)) with true
      by (symmetry; apply andb_true_iff; split; apply N.leb_le; lia).
    f_equal. lia.
  - replace ((48 <=? 87 + d) && (87 + d <=? 57)) with false
      by (symmetry; apply andb_false_iff; right; apply N.leb_gt; lia).
    replace ((97 <=? 87 + d) && (87 + d <=? 102)) with true
      by (symmetry; apply andb_true_iff; split; apply N.leb_le; lia).
    f_equal. lia.
Qed.

Lemma hex4_hexfix n tail :
  n < 65536 ->
  exists h1 h2 h3 h4,
    hexfix 4 n ++ tail = h1 :: h2 :: h3 :: h4 :: tail /\ hex4 h1 h2 h3 h4 = Some n.
Proof.
  intros Hn. rewrite hexfix4. do 4 eexists. split; [reflexivity |].
  unfold hex4. rewrite !hexval_hexdigit by (apply N.mod_lt; lia).
  f_equal. divlia.
Qed.

Lemma scan_u h1 h2 h3 h4 rest u :
  hex4 h1 h2 h3 h4 = Some u -> is_high u = false ->
  scanstring (92 :: 117 :: h1 :: h2 :: h3 :: h4 :: rest) = cons_fst u (scanstring rest).
Proof. intros Hh Hu. cbn [scanstring]. cbn. rewrite Hh, Hu. reflexivity. Qed.

Lemma scan_pair h1 h2 h3 h4 l1 l2 l3 l4 rest u u2 :
  hex4 h1 h2 h3 h4 = Some u -> is_high u = true ->
  hex4 l1 l2 l3 l4 = Some u2 -> is_low u2 = true ->
  scanstring (92 :: 117 :: h1 :: h2 :: h3 :: h4 :: 92 :: 117 :: l1 :: l2 :: l3 :: l4 :: rest)
  = cons_fst (65536 + ((u - 55296) * 1024 + (u2 - 56320))) (scanstring rest).
Proof. intros Hh Hu Hl Hu2. cbn [scanstring]. cbn. rewrite Hh, Hu, Hl, Hu2. reflexivity. Qed.

Lemma scan_plain c rest :
  c <> 34 -> c <> 92 -> 32 <= c ->
  scanstring (c :: rest) = cons_fst c (scanstring rest).
Proof.
  intros H1 H2 H3. cbn [scanstring].
  apply N.eqb_neq in H1, H2. apply N.ltb_ge in H3. by rewrite H1, H2, H3.
Qed.

(** One escaped character is read back as the character. *)
Lemma scan_char c rest :
  is_scalar c = true ->
  scanstring (escape_char c ++ rest) = cons_fst c (scanstring rest).
Proof.
  intros Hc. unfold is_scalar, is_surrogate in Hc. unfold escape_char.
  repeat match goal with
  | |- context [if ?c =? ?k then _ else _] =>
      destruct (N.eqb_spec c k) as [-> | ?]; [reflexivity |]
  end.
  destruct ((32 <=? c) && (c <=? 126)) eqn:Hp.
  { nbool. apply scan_plain; lia. }
  destruct (c <? 65536) eqn:Hb.
  - nbool.
    destruct (hex4_hexfix c rest) as (h1 & h2 & h3 & h4 & Heq & Hh); [done |].
    cbn [app]. rewrite Heq. apply scan_u; [done |].
    unfold is_high. apply andb_false_iff.
    destruct (N.leb_spec 55296 c); [right | by left].
    apply N.leb_gt.
    match goal with H : _ = false |- _ => apply andb_false_iff in H as [H | H]; nbool; lia end.
  - nbool. cbv zeta.
    set (u := 55296 + ((c - 65536) / 1024) mod 1024).
    set (u2 := 56320 + (c - 65536) mod 1024).
    assert (u < 65536 /\ 55296 <= u <= 56319) as [Hu Hur] by (subst u; divlia).
    assert (u2 < 65536 /\ 56320 <= u2 <= 57343) as [Hu2 Hu2r] by (subst u2; divlia).
    destruct (hex4_hexfix u2 rest) as (l1 & l2 & l3 & l4 & Heq2 & Hl); [done |].
    destruct (hex4_hexfix u (92 :: 117 :: l1 :: l2 :: l3 :: l4 :: rest))
      as (h1 & h2 & h3 & h4 & Heq & Hh); [done |].
    cbn [app]. rewrite <- !app_assoc. cbn [app]. rewrite Heq2, Heq.
    rewrite (scan_pair _ _ _ _ _ _ _ _ _ u u2); try done.
    + f_equal. subst u u2. divlia.
    + unfold is_high. apply andb_true_iff. split; apply N.leb_le; lia.
    + unfold is_low. apply andb_true_iff. split; apply N.leb_le; lia.
Qed.

Lemma scan_escaped s tail :
  forallb is_scalar s = true ->
  scanstring (flat_map escape_char s ++ 34 :: tail) = Some (s, tail).
Proof.
  induction s as [|c s IH]; cbn [flat_map forallb app]; intros Hs.
  - reflexivity.
  - apply andb_true_iff in Hs as [Hc Hs].
    rewrite <- app_assoc, scan_char, IH by done. reflexivity.
Qed.

Lemma parse_string_dumps s tail :
  forallb is_scalar s = true ->
  parse_string (dumps_str s ++ tail) = Some (s, tail).
Proof.
  intros Hs. unfold dumps_str. cbn [app parse_string].
  rewrite <- app_assoc. cbn [app]. change (34 =? 34) with true. cbv iota.
  by apply scan_escaped.
Qed.

Lemma skip_ws_str s r : skip_ws (dumps_str s ++ r) = dumps_str s ++ r.
Proof. reflexivity. Qed.

Lemma skip_ws_space r : skip_ws (32 :: r) = skip_ws r.
Proof. reflexivity. Qed.

Lemma parse_member k v r fuel :
  forallb is_scalar k = true -> forallb is_scalar v = true ->
  parse_members (S fuel) (dumps_str k ++ 58 :: 32 :: dumps_str v ++ r) =
  match skip_ws r with
  | d :: s4 =>
      if d =? 44 then
        match parse_members fuel s4 with
        | Some (m, s5) => Some ((k, v) :: m, s5)
        | None => None
        end
      else if d =? 125 then Some ([(k, v)], s4)
      else None
  | [] => None
  end.
Proof.
  intros Hk Hv. cbn [parse_members].
  rewrite skip_ws_str, parse_string_dumps by done.
  change (skip_ws (58 :: 32 :: dumps_str v ++ r)) with (58 :: 32 :: dumps_str v ++ r).
  cbv iota beta. change (58 =? 58) with true. cbv iota.
  rewrite skip_ws_space, skip_ws_str, parse_string_dumps by done.
  reflexivity.
Qed.

Lemma parse_members_dumps d tail fuel :
  d <> [] -> scalar_members d = true -> (length d <= fuel)%nat ->
  parse_members fuel (dumps_members d ++ 125 :: tail) = Some (d, tail).
Proof.
  revert fuel. induction d as [|[k v] d IH]; intros fuel Hne Hs Hf; [done |].
  destruct fuel as [|fuel]; [cbn in Hf; lia |].
  cbn [scalar_members forallb fst snd] in Hs.
  apply andb_true_iff in Hs as [Hkv Hs]. apply andb_true_iff in Hkv as [Hk Hv].
  cbn [dumps_members].
  rewrite <- app_assoc. cbn [app]. rewrite <- app_assoc.
  rewrite parse_member by done.
  destruct d as [|kv' d'].
  - reflexivity.
  - cbn [app].
    change (skip_ws (44 :: ?r)) with (44 :: r). cbv iota beta.
    change (44 =? 44) with true. cbv iota.
    destruct fuel as [|fuel]; [cbn in Hf; lia |].
    assert (forall r, parse_members (S fuel) (32 :: r) = parse_members (S fuel) r)
      as Hsp by reflexivity.
    rewrite Hsp, IH; [reflexivity | done | done | cbn in Hf |- *; lia].
Qed.

Lemma dumps_members_length d : (length d <= length (dumps_members d))%nat.
Proof.
  induction d as [|[k v] d IH]; [done |].
  cbn [dumps_members]. destruct d as [|kv d].
  - rewrite !length_app. cbn. lia.
  - rewrite !length_app. cbn [length] in *. rewrite !length_app. cbn [length]. lia.
Qed.

(** Decoding the text [dumps] wrote gives the members back. *)
Lemma loads_dumps d :
  scalar_members d = true -> loads (dumps d) = Some d.
Proof.
  intros Hs. unfold loads, dumps.
  change (skip_ws (123 :: ?r)) with (123 :: r). cbv iota beta.
  change (123 =? 123) with true. cbv iota.
  destruct d as [|[k v] d].
  - reflexivity.
  - assert (exists r, skip_ws (dumps_members ((k, v) :: d) ++ [125]) = 34 :: r)
      as [r ->] by (eexists; reflexivity).
    cbv iota beta. change (34 =? 125) with false. cbv iota.
    rewrite parse_members_dumps; [reflexivity | done | done |].
    pose proof (dumps_members_length ((k, v) :: d)).
    cbn [length] in *. rewrite length_app. lia.
Qed.

End JsonFacts.

(** ** Reasoning about computations *)

Lemma run_bind_inv {A B} (m : M A) (k : A -> M B) w w' b :
  (m ≫= k) w = (w', inr b) ->
  exists a w1, m w = (w1, inr a) /\ k a w1 = (w', inr b).
Proof.
  unfold mbind, M_bind. destruct (m w) as [w1 [e | a]]; [done |]. eauto.
Qed.

Lemma run_bind_ok {A B} (m : M A) (k : A -> M B) w w1 a :
  m w = (w1, inr a) -> (m ≫= k) w = k a w1.
Proof. unfold mbind, M_bind. by intros ->. Qed.

Lemma run_bind_err {A B} (m : M A) (k : A -> M B) w w1 e :
  m w = (w1, inl e) -> (m ≫= k) w = (w1, inl e).
Proof. unfold mbind, M_bind. by intros ->. Qed.

(** ** Minting the hash and building the QR symbol *)

Section ProgramFacts.
Context `{Platform}.

Lemma generate_hash_run self name w :
  generate_hash self name w =
  (tick w,
   match generators w !! self with
   | None => inl AttributeError
   | Some g =>
       match encode (name ++ event_name g ++ isoformat (clock w (ticks w))) with
       | Some bytes => inr (SHA256.hexdigest bytes)
       | None => inl UnicodeEncodeError
       end
   end).
Proof.
  unfold generate_hash.
  rewrite (run_bind_ok now _ w (tick w) (clock w (ticks w))) by reflexivity.
  unfold get_self. unfold mbind at 1, M_bind at 1.
  change (generators (tick w)) with (generators w).
  destruct (generators w !! self) as [g|]; [| reflexivity].
  cbn [of_option]. unfold mret at 1, M_ret at 1. cbv iota beta zeta.
  unfold mbind, M_bind.
  destruct (encode _); reflexivity.
Qed.

Lemma generate_qr_code_run self name cert_hash w :
  generate_qr_code self name cert_hash w =
  match generators w !! self with
  | None => (w, inl AttributeError)
  | Some g =>
      (tick w,
       match qr_modules (Json.dumps (verification_data cert_hash name (event_name g)
                                       (strftime (clock w (ticks w))))) with
       | Some mods => inr (make_image mods)
       | None => inl DataOverflowError
       end)
  end.
Proof.
  unfold generate_qr_code, get_self. unfold mbind at 1, M_bind at 1.
  destruct (generators w !! self) as [g|]; [| reflexivity].
  cbn [of_option]. unfold mret at 1, M_ret at 1. cbv iota beta.
  rewrite (run_bind_ok now _ w (tick w) (clock w (ticks w))) by reflexivity.
  cbv zeta. unfold mbind, M_bind.
  destruct (qr_modules _); reflexivity.
Qed.

End ProgramFacts.

Ltac wsimpl :=
  unfold tick, warn, set_images, set_fs;
  cbn [images generators clock ticks fs stdout].

Section RenderFacts.
Context `{Platform}.

Lemma load_fonts_run font_path font_size w :
  try_except
    (font ← truetype font_path font_size;
     hash_font ← truetype font_path (Z.max 12 (font_size / 3));
     mret (font, hash_font))
    (fun e =>
     print (lit "Error loading font: " ++ exn_str e);;
     font ← load_default;
     hash_font ← load_default;
     mret (font, hash_font)) w
  = (warn (font_warning font_path font_size) w, inr (fonts_of font_path font_size)).
Proof.
  assert (forall w0, warn [] w0 = w0) as Hw0.
  { intros [? ? ? ? ? ?]. unfold warn. cbn. by rewrite app_nil_r. }
  unfold try_except, truetype, fonts_of, font_warning, font_loads.
  destruct font_path as [p|]; [| reflexivity].
  destruct (Z.leb_spec font_size 0) as [Hle | Hgt].
  - replace (0 <? font_size) with false by (symmetry; apply Z.ltb_ge; lia).
    reflexivity.
  - replace (0 <? font_size) with true by (symmetry; apply Z.ltb_lt; lia).
    destruct (font_file_ok p) eqn:Hok; [| reflexivity].
    cbn [andb]. unfold mbind, M_bind, mret, M_ret.
    replace (Z.max 12 (font_size / 3) <=? 0) with false
      by (symmetry; apply Z.leb_gt; lia).
    by rewrite Hw0.
Qed.

Lemma get_self_run self w :
  get_self self w =
  (w, match generators w !! self with Some g => inr g | None => inl AttributeError end).
Proof. unfold get_self. by destruct (generators w !! self). Qed.

Lemma get_image_run l w :
  get_image l w =
  (w, match images w !! l with Some im => inr im | None => inl AttributeError end).
Proof. unfold get_image. by destruct (images w !! l). Qed.

Lemma update_image_run l f w im :
  images w !! l = Some im ->
  update_image l f w = (set_images (insert l (f im)) w, inr tt).
Proof.
  intros Him. unfold update_image.
  erewrite run_bind_ok; [reflexivity |]. by rewrite get_image_run, Him.
Qed.


Lemma generate_certificate_run self name name_position font_path font_size
  text_color hash_position qr_position qr_size w :
  generate_certificate self name name_position font_path font_size text_color
    hash_position qr_position qr_size w
  = render self name name_position font_path font_size text_color
      hash_position qr_position qr_size w.
Proof.
  unfold generate_certificate, render.
  destruct (generators w !! self) as [g|] eqn:Hg.
  2: { erewrite run_bind_err; [reflexivity |]. by rewrite get_self_run, Hg. }
  erewrite run_bind_ok by (by rewrite get_self_run, Hg).
  destruct (images w !! template g) as [tpl|] eqn:Ht.
  2: { erewrite run_bind_err; [reflexivity |]. by rewrite get_image_run, Ht. }
  erewrite run_bind_ok by (by rewrite get_image_run, Ht).
  erewrite run_bind_ok by reflexivity.
  erewrite run_bind_ok by apply load_fonts_run.
  set (cert := fresh (dom (images w))).
  set (fonts := fonts_of font_path font_size).
  erewrite run_bind_ok.
  2: { unfold draw_text. apply update_image_run. wsimpl. apply lookup_insert_eq. }
  destruct (encode _) as [bytes|] eqn:He.
  2: { erewrite run_bind_err.
       2: { rewrite generate_hash_run. wsimpl. rewrite Hg, He. reflexivity. }
       unfold rendered. wsimpl. by rewrite insert_insert_eq. }
  erewrite run_bind_ok.
  2: { rewrite generate_hash_run. wsimpl. rewrite Hg, He. reflexivity. }
  set (h := SHA256.hexdigest bytes).
  assert (
    (match hash_position with
     | Some p => draw_text cert p (lit "ID: " ++ upper (take 12 h)) fonts.2 text_color
     | None =>
         g0 ← get_self self;
         draw_text cert (50, template_height g0 - 100)
           (lit "ID: " ++ upper (take 12 h)) fonts.2 text_color
     end) (tick (set_images
       <[cert:=text (copy tpl) name_position name fonts.1 text_color]>
       (warn (font_warning font_path font_size) (set_images <[cert:=copy tpl]> w))))
    = (rendered w cert (stamped tpl g name name_position font_path font_size
                          text_color hash_position h) 1 font_path font_size, inr tt))
    as Hstamp.
  { destruct hash_position as [p|].
    - unfold draw_text. erewrite update_image_run by (wsimpl; apply lookup_insert_eq).
      unfold rendered, stamped. wsimpl. by rewrite !insert_insert_eq.
    - erewrite run_bind_ok by (rewrite get_self_run; wsimpl; by rewrite Hg).
      unfold draw_text. erewrite update_image_run by (wsimpl; apply lookup_insert_eq).
      unfold rendered, stamped. wsimpl. by rewrite !insert_insert_eq. }
  erewrite run_bind_ok by apply Hstamp. clear Hstamp.
  set (st := stamped _ _ _ _ _ _ _ _ _).
  destruct (qr_modules _) as [mods|] eqn:Hq.
  2: { erewrite run_bind_err.
       2: { rewrite generate_qr_code_run. unfold rendered. wsimpl. rewrite Hg.
            cbn [Nat.add]. rewrite Hq. reflexivity. }
       reflexivity. }
  erewrite run_bind_ok.
  2: { rewrite generate_qr_code_run. unfold rendered. wsimpl. rewrite Hg.
       cbn [Nat.add]. rewrite Hq. reflexivity. }
  destruct (resize _ _ _) as [qr|] eqn:Hr.
  2: { erewrite run_bind_err by reflexivity. reflexivity. }
  erewrite run_bind_ok by reflexivity.
  assert (
    (match qr_position with
     | Some p => update_image cert (fun im => paste im qr p)
     | None =>
         g0 ← get_self self;
         update_image cert (fun im =>
           paste im qr (template_width g0 - qr_size - 50,
                        template_height g0 - qr_size - 50))
     end) (tick (rendered w cert st 1 font_path font_size))
    = (rendered w cert (paste st qr (qr_place g qr_position qr_size)) 2
         font_path font_size, inr tt)) as Hpaste.
  { destruct qr_position as [p|].
    - erewrite update_image_run by (unfold rendered; wsimpl; apply lookup_insert_eq).
      unfold rendered, qr_place. wsimpl. by rewrite !insert_insert_eq.
    - erewrite run_bind_ok by (rewrite get_self_run; unfold rendered; wsimpl; by rewrite Hg).
      erewrite update_image_run by (unfold rendered; wsimpl; apply lookup_insert_eq).
      unfold rendered, qr_place. wsimpl. by rewrite !insert_insert_eq. }
  erewrite run_bind_ok by apply Hpaste.
  reflexivity.
Qed.

(** *** The generator [__init__] makes *)

(** A generator made by the constructor points to its template image and
    has recorded the size of that image and the event name. *)
Lemma init_generator template_path event w w' self :
  init template_path event w = (w', inr self) ->
  exists g tpl,
    generators w' !! self = Some g /\
    images w' !! template g = Some tpl /\
    template_width g = im_width tpl /\ template_height g = im_height tpl /\
    event_name g = event.
Proof.
  unfold init. intros Hrun.
  apply run_bind_inv in Hrun as (t & w1 & _ & Hrun).
  apply run_bind_inv in Hrun as (im & w2 & Hget & Hrun).
  rewrite get_image_run in Hget.
  destruct (images w1 !! t) as [im'|] eqn:Ht; [| done].
  injection Hget as <- <-. injection Hrun as <- <-.
  exists (mkGenerator t event (im_width im') (im_height im')), im'.
  cbn [generators images set_generators template template_width template_height
       event_name].
  by rewrite lookup_insert_eq.
Qed.

(** *** Drawing keeps the raster *)

Lemma same_shape_refl a : same_shape a a.
Proof. done. Qed.

Lemma same_shape_trans a b c : same_shape a b -> same_shape b c -> same_shape a c.
Proof. unfold same_shape. intros (-> & -> & -> & ->) (-> & -> & -> & ->). done. Qed.

Lemma putpixel_shape im x y p : same_shape (putpixel im x y p) im.
Proof.
  unfold putpixel, same_shape. destruct (in_bounds im x y); [| done].
  cbn. by rewrite length_insert.
Qed.

Lemma fold_putpixel_shape {A} (f : A -> Z * Z * Pixel) (l : list A) im :
  same_shape
    (fold_left (fun im a => putpixel im (f a).1.1 (f a).1.2 (f a).2) l im) im.
Proof.
  revert im. induction l as [|a l IH]; intros im; cbn [fold_left].
  - apply same_shape_refl.
  - eapply same_shape_trans; [apply IH | apply putpixel_shape].
Qed.

Lemma text_shape im xy s font fill : same_shape (text im xy s font fill) im.
Proof.
  unfold text.
  apply (fold_putpixel_shape (fun d => (xy.1 + d.1, xy.2 + d.2, fill))).
Qed.

Lemma paste_shape dst src pos : same_shape (paste dst src pos) dst.
Proof.
  unfold paste.
  apply (fold_putpixel_shape
           (fun xy => (pos.1 + xy.1, pos.2 + xy.2, getpixel src xy.1 xy.2))).
Qed.

Lemma copy_shape im : same_shape (copy im) im.
Proof. done. Qed.

Lemma stamped_shape tpl g name name_position font_path font_size text_color
  hash_position h :
  same_shape (stamped tpl g name name_position font_path font_size text_color
                hash_position h) tpl.
Proof.
  unfold stamped.
  eapply same_shape_trans; [apply text_shape |].
  eapply same_shape_trans; [apply text_shape | apply copy_shape].
Qed.

(** *** A render that returns *)

(** What a returning render has done, read off [render]. *)
Lemma generate_certificate_inv self name name_position font_path font_size
  text_color hash_position qr_position qr_size w w' cert h :
  generate_certificate self name name_position font_path font_size text_color
    hash_position qr_position qr_size w = (w', inr (cert, h)) ->
  exists g tpl bytes mods qr,
    generators w !! self = Some g /\
    images w !! template g = Some tpl /\
    encode (name ++ event_name g ++ isoformat (clock w (ticks w))) = Some bytes /\
    h = SHA256.hexdigest bytes /\
    qr_modules (Json.dumps (verification_data h name (event_name g)
                              (strftime (clock w (S (ticks w)))))) = Some mods /\
    resize (make_image mods) qr_size qr_size = Some qr /\
    cert = fresh (dom (images w)) /\
    w' = rendered w cert
           (paste (stamped tpl g name name_position font_path font_size
                     text_color hash_position h)
                  qr (qr_place g qr_position qr_size))
           2 font_path font_size.
Proof.
  rewrite generate_certificate_run. unfold render.
  destruct (generators w !! self) as [g|] eqn:Hg; [| done].
  destruct (images w !! template g) as [tpl|] eqn:Ht; [| done].
  destruct (encode _) as [bytes|] eqn:He; [| done].
  destruct (qr_modules _) as [mods|] eqn:Hq; [| done].
  destruct (resize _ _ _) as [qr|] eqn:Hr; [| done].
  intros Heq. injection Heq as Hw Hc Hh. subst w' cert h.
  by exists g, tpl, bytes, mods, qr.
Qed.


Lemma fresh_image_None (w : World) : images w !! fresh (dom (images w)) = None.
Proof. apply not_elem_of_dom, is_fresh. Qed.

(** C2: the image [generate_certificate] returns has exactly the width and
    the height of the template (and its mode and a buffer of the same
    length): nothing crops or scales the base image. *)
Theorem generate_certificate_size self name name_position font_path font_size
  text_color hash_position qr_position qr_size w w' cert h :
  generate_certificate self name name_position font_path font_size text_color
    hash_position qr_position qr_size w = (w', inr (cert, h)) ->
  exists g tpl im,
    generators w !! self = Some g /\
    images w !! template g = Some tpl /\
    images w' !! cert = Some im /\
    im_width im = im_width tpl /\ im_height im = im_height tpl /\
    length (im_data im) = length (im_data tpl) /\ im_mode im = im_mode tpl.
Proof.
  intros Hrun.
  apply generate_certificate_inv in Hrun
    as (g & tpl & bytes & mods & qr & Hg & Ht & _ & _ & _ & _ & _ & ->).
  destruct (same_shape_trans _ _ _
              (paste_shape (stamped tpl g name name_position font_path font_size
                              text_color hash_position h)
                           qr (qr_place g qr_position qr_size))
              (stamped_shape tpl g name name_position font_path font_size
                 text_color hash_position h)) as (Hm & Hw & Hh & Hl).
  eexists g, tpl, _. split_and!; [done | done | | done | done | done | done].
  unfold rendered. cbn [images]. apply lookup_insert_eq.
Qed.

(** C3: whatever the input and however the call ends, [generate_certificate]
    leaves every generator object (so [event_name] too) and every image
    object that existed before the call as it was; in particular the
    stored template keeps its pixels and its size.  The drawing is done on
    a new object. *)
Theorem generate_certificate_frame self name name_position font_path font_size
  text_color hash_position qr_position qr_size w :
  generators (generate_certificate self name name_position font_path font_size
                text_color hash_position qr_position qr_size w).1
  = generators w /\
  (forall l im, images w !! l = Some im ->
     images (generate_certificate self name name_position font_path font_size
               text_color hash_position qr_position qr_size w).1 !! l = Some im) /\
  (forall g, generators w !! self = Some g ->
     images (generate_certificate self name name_position font_path font_size
               text_color hash_position qr_position qr_size w).1 !! template g
     = images w !! template g).
Proof.
  rewrite generate_certificate_run.
  assert (forall im n l x, images w !! l = Some x ->
            images (rendered w (fresh (dom (images w))) im n font_path font_size) !! l
            = Some x) as Hkeep.
  { intros im n l x Hl. unfold rendered. cbn [images].
    rewrite lookup_insert_ne; [done |].
    intros <-. by rewrite fresh_image_None in Hl. }
  unfold render.
  destruct (generators w !! self) as [g|] eqn:Hg; [| done].
  destruct (images w !! template g) as [tpl|] eqn:Ht.
  2: { split_and!; [done | done |]. by intros g' [= <-]. }
  destruct (encode _) as [bytes|];
    [destruct (qr_modules _) as [mods|];
       [destruct (resize _ _ _) as [qr|] |] |];
    (split; [reflexivity |]; split; [intros l im; apply Hkeep |];
     intros g' [= <-]; rewrite Ht; by apply Hkeep).
Qed.

End RenderFacts.

Lemma generate_certificate_size_witness :
  exists g tpl im,
    generators Demo.world !! Demo.self = Some g /\
    images Demo.world !! template g = Some tpl /\
    images Demo.good.1 !! Demo.cert_of Demo.good = Some im /\
    im_width im = im_width tpl /\ im_height im = im_height tpl /\
    length (im_data im) = length (im_data tpl) /\ im_mode im = im_mode tpl.
Proof.
  apply (@generate_certificate_size Demo.platform Demo.self (lit "Alice") (1, 1)
           Demo.roboto 60 (0, 0, 0) (Some (0, 5)) (Some (9, 1)) 2 Demo.world
           Demo.good.1 (Demo.cert_of Demo.good) (Demo.hash_of Demo.good)).
  vm_compute. reflexivity.
Defined.

(** ** Timestamps *)

Section ClockFacts.
Local Open Scope N_scope.

Lemma ascii_scalar c : c < 128 -> is_scalar c = true.
Proof.
  intros Hc. unfold is_scalar, is_surrogate.
  apply andb_true_iff. split; [apply N.ltb_lt; lia |].
  apply negb_true_iff, andb_false_iff. left. apply N.leb_gt. lia.
Qed.

Lemma decfix_ascii k n : Forall (fun c => c < 128) (decfix k n).
Proof.
  apply Forall_forall. intros c Hc. apply decfix_digit in Hc. lia.
Qed.

Lemma isoformat_ascii t : Forall (fun c => c < 128) (isoformat t).
Proof.
  unfold isoformat.
  repeat first [ apply decfix_ascii | apply Forall_app; split
               | apply Forall_cons; split | lia ].
  destruct (microsecond t =? 0); [apply Forall_nil_2 |].
  apply Forall_cons. split; [lia | apply decfix_ascii].
Qed.

Lemma strftime_ascii t : Forall (fun c => c < 128) (strftime t).
Proof.
  unfold strftime.
  repeat first [ apply decfix_ascii | apply Forall_app; split
               | apply Forall_cons; split | lia ].
Qed.

Lemma ascii_forallb_scalar s :
  Forall (fun c => c < 128) s -> forallb is_scalar s = true.
Proof.
  induction 1 as [|c s Hc _ IH]; [done |].
  cbn [forallb]. by rewrite ascii_scalar, IH.
Qed.

(** UTF-8 leaves ASCII text as it is. *)
Lemma utf8_ascii s : Forall (fun c => c < 128) s -> flat_map utf8_char s = s.
Proof.
  induction 1 as [|c s Hc _ IH]; [done |].
  cbn [flat_map]. rewrite IH. unfold utf8_char.
  apply N.ltb_lt in Hc. by rewrite Hc.
Qed.

Lemma strftime_length t : length (strftime t) = 19%nat.
Proof.
  unfold strftime.
  repeat first [rewrite length_app | rewrite length_cons | rewrite decfix_length].
  reflexivity.
Qed.

Lemma decfix_mod k n m :
  decfix k n = decfix k m -> n mod 10 ^ N.of_nat k = m mod 10 ^ N.of_nat k.
Proof.
  induction k as [|k IH]; intros Heq.
  - change (10 ^ N.of_nat 0) with 1. by rewrite !N.mod_1_r.
  - cbn [decfix] in Heq. injection Heq as Hd Hrest.
    apply IH in Hrest.
    rewrite Nat2N.inj_succ, N.pow_succ_r', (N.mul_comm 10), !N.Div0.mod_mul_r.
    rewrite Hrest. f_equal. f_equal. lia.
Qed.

Lemma decfix_inj k n m :
  n < 10 ^ N.of_nat k -> m < 10 ^ N.of_nat k -> decfix k n = decfix k m -> n = m.
Proof.
  intros Hn Hm Heq. apply decfix_mod in Heq.
  by rewrite !N.mod_small in Heq.
Qed.

Lemma cons_eq_tail {A} (x y : A) (l k : list A) : x :: l = y :: k -> l = k.
Proof. by intros [= _ ?]. Qed.

(** Two valid datetimes print alike only if they are the same. *)
Lemma isoformat_inj t1 t2 :
  valid_datetime t1 = true -> valid_datetime t2 = true ->
  isoformat t1 = isoformat t2 -> t1 = t2.
Proof.
  destruct t1 as [y1 mo1 d1 h1 mi1 s1 u1], t2 as [y2 mo2 d2 h2 mi2 s2 u2].
  unfold valid_datetime, isoformat. cbn [year month day hour minute second microsecond].
  intros V1 V2 Heq. nbool.
  apply app_inj_1 in Heq as [Hy Heq]; [| by rewrite !decfix_length].
  apply cons_eq_tail in Heq.
  apply app_inj_1 in Heq as [Hmo Heq]; [| by rewrite !decfix_length].
  apply cons_eq_tail in Heq.
  apply app_inj_1 in Heq as [Hd Heq]; [| by rewrite !decfix_length].
  apply cons_eq_tail in Heq.
  apply app_inj_1 in Heq as [Hh Heq]; [| by rewrite !decfix_length].
  apply cons_eq_tail in Heq.
  apply app_inj_1 in Heq as [Hmi Heq]; [| by rewrite !decfix_length].
  apply cons_eq_tail in Heq.
  apply app_inj_1 in Heq as [Hs Heq]; [| by rewrite !decfix_length].
  apply decfix_inj in Hy; [| change (10 ^ N.of_nat 4) with 10000; lia ..].
  apply decfix_inj in Hmo; [| change (10 ^ N.of_nat 2) with 100; lia ..].
  apply decfix_inj in Hd; [| change (10 ^ N.of_nat 2) with 100; lia ..].
  apply decfix_inj in Hh; [| change (10 ^ N.of_nat 2) with 100; lia ..].
  apply decfix_inj in Hmi; [| change (10 ^ N.of_nat 2) with 100; lia ..].
  apply decfix_inj in Hs; [| change (10 ^ N.of_nat 2) with 100; lia ..].
  subst. f_equal.
  destruct (N.eqb_spec u1 0) as [-> | Hu1], (N.eqb_spec u2 0) as [-> | Hu2];
    try done.
  apply cons_eq_tail in Heq.
  apply decfix_inj in Heq; [done | change (10 ^ N.of_nat 6) with 1000000; lia ..].
Qed.

End ClockFacts.

(** ** The hash of a render *)

Lemma encode_hash_text g name t :
  forallb is_scalar (name ++ event_name g) = true ->
  encode (hash_text g name t) = Some (flat_map utf8_char (hash_text g name t)).
Proof.
  intros Hs. unfold encode, hash_text.
  rewrite app_assoc, forallb_app, Hs.
  by rewrite (ascii_forallb_scalar _ (isoformat_ascii t)).
Qed.

Lemma generate_hash_ok self name w g :
  generators w !! self = Some g ->
  forallb is_scalar (name ++ event_name g) = true ->
  generate_hash self name w = (tick w, inr (minted g name (clock w (ticks w)))).
Proof.
  intros Hg Hs. rewrite generate_hash_run, Hg.
  change (name ++ event_name g ++ isoformat (clock w (ticks w)))
    with (hash_text g name (clock w (ticks w))).
  rewrite encode_hash_text by done. reflexivity.
Qed.

(** C4: the hash minted for an attendee is the SHA-256 digest, written as
    64 lowercase hexadecimal digits, of the UTF-8 bytes of the attendee
    name, the event name and the ISO-8601 text of the clock reading taken
    at the call, one after the other; the empty name is hashed like any
    other, and a reading with microseconds is printed with them. *)
Theorem generate_hash_sha256 self name w g :
  generators w !! self = Some g ->
  forallb is_scalar (name ++ event_name g) = true ->
  generate_hash self name w = (tick w, inr (minted g name (clock w (ticks w)))) /\
  minted g name (clock w (ticks w))
  = SHA256.hexdigest
      (flat_map utf8_char (name ++ event_name g ++ isoformat (clock w (ticks w)))) /\
  length (minted g name (clock w (ticks w))) = 64%nat /\
  forallb is_lower_hex (minted g name (clock w (ticks w))) = true /\
  (microsecond (clock w (ticks w)) <> 0%N ->
   exists seconds,
     length seconds = 19%nat /\
     isoformat (clock w (ticks w))
     = seconds ++ 46%N :: decfix 6 (microsecond (clock w (ticks w)))).
Proof.
  intros Hg Hs. split; [| split; [| split; [| split]]].
  - by apply generate_hash_ok.
  - reflexivity.
  - apply hexdigest_length.
  - apply hexdigest_lower.
  - intros Hu. unfold isoformat.
    apply N.eqb_neq in Hu. rewrite Hu.
    exists (decfix 4 (year (clock w (ticks w)))
            ++ 45%N :: decfix 2 (month (clock w (ticks w)))
            ++ 45%N :: decfix 2 (day (clock w (ticks w)))
            ++ 84%N :: decfix 2 (hour (clock w (ticks w)))
            ++ 58%N :: decfix 2 (minute (clock w (ticks w)))
            ++ 58%N :: decfix 2 (second (clock w (ticks w)))).
    split.
    + repeat first [rewrite length_app | rewrite length_cons | rewrite decfix_length].
      reflexivity.
    + repeat (rewrite <- app_assoc; cbn [app]). reflexivity.
Qed.

Lemma generate_hash_sha256_witness :
  generate_hash Demo.self [] Demo.world
  = (tick Demo.world,
     inr (minted (mkGenerator 1 (lit "GDG Basra Event") 12 8) []
                 (clock Demo.world (ticks Demo.world)))) /\
  minted (mkGenerator 1 (lit "GDG Basra Event") 12 8) []
         (clock Demo.world (ticks Demo.world))
  = SHA256.hexdigest
      (flat_map utf8_char
         ([] ++ lit "GDG Basra Event" ++ isoformat (clock Demo.world (ticks Demo.world)))) /\
  length (minted (mkGenerator 1 (lit "GDG Basra Event") 12 8) []
                 (clock Demo.world (ticks Demo.world))) = 64%nat /\
  forallb is_lower_hex
    (minted (mkGenerator 1 (lit "GDG Basra Event") 12 8) []
            (clock Demo.world (ticks Demo.world))) = true /\
  (microsecond (clock Demo.world (ticks Demo.world)) <> 0%N ->
   exists seconds,
     length seconds = 19%nat /\
     isoformat (clock Demo.world (ticks Demo.world))
     = seconds ++ 46%N :: decfix 6 (microsecond (clock Demo.world (ticks Demo.world)))).
Proof.
  apply (generate_hash_sha256 Demo.self [] Demo.world
           (mkGenerator 1 (lit "GDG Basra Event") 12 8)).
  - vm_compute. reflexivity.
  - vm_compute. reflexivity.
Defined.




(** ** The hash stamp, the QR payload and the font fallback *)

Section StampFacts.
Context `{Platform}.

Lemma lower_hex_lt c : is_lower_hex c = true -> (c < 128)%N.
Proof.
  unfold is_lower_hex. intros Hc.
  apply orb_true_iff in Hc as [Hc | Hc]; nbool; lia.
Qed.

Lemma upper_char_hex c : is_lower_hex c = true -> is_upper_hex (upper_char c) = true.
Proof.
  unfold is_lower_hex, is_upper_hex, upper_char. intros Hc.
  apply orb_true_iff in Hc as [Hc | Hc]; nbool.
  - replace ((97 <=? c) && (c <=? 122))%N with false
      by (symmetry; apply andb_false_iff; left; apply N.leb_gt; lia).
    apply orb_true_iff. left. apply andb_true_iff. split; apply N.leb_le; lia.
  - replace ((97 <=? c) && (c <=? 122))%N with true
      by (symmetry; apply andb_true_iff; split; apply N.leb_le; lia).
    apply orb_true_iff. right. apply andb_true_iff. split; apply N.leb_le; lia.
Qed.

Lemma forallb_take {A} (f : A -> bool) n (l : list A) :
  forallb f l = true -> forallb f (take n l) = true.
Proof.
  revert n. induction l as [|x l IH]; intros [|n] Hl; try done.
  cbn [forallb take] in *. apply andb_true_iff in Hl as [-> Hl]. by rewrite IH.
Qed.

Lemma forallb_map_impl {A} (f g : A -> bool) (u : A -> A) (l : list A) :
  (forall x, f x = true -> g (u x) = true) ->
  forallb f l = true -> forallb g (map u l) = true.
Proof.
  intros Hfg. induction l as [|x l IH]; [done |].
  cbn [forallb map]. intros Hl. apply andb_true_iff in Hl as [Hx Hl].
  by rewrite (Hfg _ Hx), IH.
Qed.

Lemma hex_scalar h : forallb is_lower_hex h = true -> forallb is_scalar h = true.
Proof.
  intros Hh. apply ascii_forallb_scalar.
  apply Forall_forall. intros c Hc.
  apply lower_hex_lt.
  rewrite forallb_forall in Hh. apply Hh. by apply list_elem_of_In.
Qed.

Lemma encode_Some s bytes :
  encode s = Some bytes -> forallb is_scalar s = true /\ bytes = flat_map utf8_char s.
Proof. unfold encode. destruct (forallb is_scalar s); [| done]. by intros [= <-]. Qed.


(** C7: in every render that returns, the text given to the QR encoder is
    the JSON object with the four members [hash], [name], [event] and
    [date], in this order: the hash is the one the render returns, made
    from the first reading of the clock; name and event are the inputs as
    they are; the date is the second reading of the clock, printed as
    [YYYY-MM-DD HH:MM:SS].  The symbol made from that text is what is
    pasted on the certificate, and decoding the text gives the four
    members back. *)
Theorem qr_payload self name name_position font_path font_size text_color
  hash_position qr_position qr_size w w' cert h :
  generate_certificate self name name_position font_path font_size text_color
    hash_position qr_position qr_size w = (w', inr (cert, h)) ->
  exists g tpl mods qr,
    generators w !! self = Some g /\
    images w !! template g = Some tpl /\
    h = minted g name (clock w (ticks w)) /\
    qr_modules (Json.dumps [ (lit "hash", h); (lit "name", name);
                             (lit "event", event_name g);
                             (lit "date", strftime (clock w (S (ticks w)))) ])
    = Some mods /\
    resize (make_image mods) qr_size qr_size = Some qr /\
    images w' !! cert
    = Some (paste (stamped tpl g name name_position font_path font_size
                     text_color hash_position h)
                  qr (qr_place g qr_position qr_size)) /\
    Json.loads (Json.dumps [ (lit "hash", h); (lit "name", name);
                             (lit "event", event_name g);
                             (lit "date", strftime (clock w (S (ticks w)))) ])
    = Some [ (lit "hash", h); (lit "name", name); (lit "event", event_name g);
             (lit "date", strftime (clock w (S (ticks w)))) ] /\
    length (strftime (clock w (S (ticks w)))) = 19%nat.
Proof.
  intros Hrun.
  apply generate_certificate_inv in Hrun
    as (g & tpl & bytes & mods & qr & Hg & Ht & He & -> & Hq & Hr & -> & ->).
  apply encode_Some in He as [Hs ->].
  rewrite !forallb_app in Hs.
  apply andb_true_iff in Hs as [Hname Hs]. apply andb_true_iff in Hs as [Hevent _].
  exists g, tpl, mods, qr.
  split; [done |]. split; [done |]. split; [reflexivity |].
  split; [exact Hq |]. split; [done |]. split.
  { unfold rendered. cbn [images]. apply lookup_insert_eq. }
  split; [| apply strftime_length].
  apply loads_dumps. unfold scalar_members. cbn [forallb fst snd].
  rewrite Hname, Hevent, (hex_scalar _ (hexdigest_lower _)).
  rewrite (ascii_forallb_scalar _ (strftime_ascii _)).
  reflexivity.
Qed.


End StampFacts.

Section DemoRenders.
#[local] Existing Instance Demo.platform.



Lemma qr_payload_witness :
  exists g tpl mods qr,
    generators Demo.world !! Demo.self = Some g /\
    images Demo.world !! template g = Some tpl /\
    Demo.hash_of Demo.good = minted g (lit "Alice") (clock Demo.world (ticks Demo.world)) /\
    qr_modules (Json.dumps [ (lit "hash", Demo.hash_of Demo.good);
                             (lit "name", lit "Alice");
                             (lit "event", event_name g);
                             (lit "date", strftime (clock Demo.world (S (ticks Demo.world)))) ])
    = Some mods /\
    resize (make_image mods) 2 2 = Some qr /\
    images Demo.good.1 !! Demo.cert_of Demo.good
    = Some (paste (stamped tpl g (lit "Alice") (1, 1) Demo.roboto 60
                     (0, 0, 0) (Some (0, 5)) (Demo.hash_of Demo.good))
                  qr (qr_place g (Some (9, 1)) 2)) /\
    Json.loads (Json.dumps [ (lit "hash", Demo.hash_of Demo.good);
                             (lit "name", lit "Alice");
                             (lit "event", event_name g);
                             (lit "date", strftime (clock Demo.world (S (ticks Demo.world)))) ])
    = Some [ (lit "hash", Demo.hash_of Demo.good); (lit "name", lit "Alice");
             (lit "event", event_name g);
             (lit "date", strftime (clock Demo.world (S (ticks Demo.world)))) ] /\
    length (strftime (clock Demo.world (S (ticks Demo.world)))) = 19%nat.
Proof.
  apply (qr_payload Demo.self (lit "Alice") (1, 1) Demo.roboto 60 (0, 0, 0)
           (Some (0, 5)) (Some (9, 1)) 2 Demo.world
           Demo.good.1 (Demo.cert_of Demo.good) (Demo.hash_of Demo.good)).
  vm_compute. reflexivity.
Defined.


End DemoRenders.

(** ** Files and directories *)

Lemma fs_grows_refl w : fs_grows w w.
Proof. split; eauto. Qed.

Lemma fs_grows_trans w1 w2 w3 : fs_grows w1 w2 -> fs_grows w2 w3 -> fs_grows w1 w3.
Proof.
  intros [F1 D1] [F2 D2]. split; [| by auto].
  intros p c Hp. destruct (F1 _ _ Hp) as [c' Hc']. eauto.
Qed.

Lemma write_file_inv path content w w' :
  write_file path content w = (w', inr tt) ->
  w' = set_fs (insert (resolve path) (File content)) w /\
  fs w !! resolve path <> Some Dir.
Proof.
  unfold write_file. cbv zeta.
  destruct (resolve path) as [|c p] eqn:Hp; [done |].
  destruct (negb _); [done |].
  destruct (fs w !! (c :: p)) as [[|old]|] eqn:Hl; [done | |];
    intros [= <-]; done.
Qed.

Lemma write_file_grows path content w w' :
  write_file path content w = (w', inr tt) ->
  fs_grows w w' /\ is_file w' path.
Proof.
  intros Hw. apply write_file_inv in Hw as [-> Hnd]. split; [split |].
  - intros p c Hp. cbn [fs set_fs].
    destruct (decide (resolve path = p)) as [<- | Hne].
    + rewrite lookup_insert_eq. eauto.
    + rewrite lookup_insert_ne by done. eauto.
  - intros p Hp. cbn [fs set_fs].
    rewrite lookup_insert_ne; [done |]. by intros <-.
  - exists content. cbn [fs set_fs]. apply lookup_insert_eq.
Qed.

Lemma is_file_grows w w' path : fs_grows w w' -> is_file w path -> is_file w' path.
Proof. intros [F _] [c Hc]. by apply F in Hc. Qed.

Section SaveFacts.
Context `{Platform}.

Lemma image_save_inv image path w w' :
  image_save image path w = (w', inr tt) ->
  images w' = images w /\ generators w' = generators w /\ clock w' = clock w /\
  ticks w' = ticks w /\ fs_grows w w' /\ is_file w' path.
Proof.
  unfold image_save. intros Hrun.
  apply run_bind_inv in Hrun as (im & w1 & Hget & Hw).
  rewrite get_image_run in Hget. injection Hget as <- _.
  pose proof (write_file_grows _ _ _ _ Hw) as [Hg Hf].
  apply write_file_inv in Hw as [-> _]. done.
Qed.

Lemma save_as_pdf_inv self image path w w' :
  save_as_pdf self image path w = (w', inr tt) ->
  images w' = images w /\ generators w' = generators w /\ clock w' = clock w /\
  ticks w' = ticks w /\ fs_grows w w' /\ is_file w' path.
Proof.
  unfold save_as_pdf. intros Hrun.
  apply run_bind_inv in Hrun as (im & w1 & Hget & Hrun).
  rewrite get_image_run in Hget. injection Hget as <- _.
  cbv zeta in Hrun.
  apply run_bind_inv in Hrun as ([] & w2 & Hw1 & Hrun).
  apply run_bind_inv in Hrun as (pdf & w3 & Hpdf & Hw2).
  assert (w3 = w2) as ->.
  { unfold of_option in Hpdf. by destruct (img2pdf_convert _); injection Hpdf as <-. }
  pose proof (write_file_grows _ _ _ _ Hw1) as [Hg1 _].
  pose proof (write_file_grows _ _ _ _ Hw2) as [Hg2 Hf].
  apply write_file_inv in Hw1 as [-> _]. apply write_file_inv in Hw2 as [-> _].
  split_and!; try done. by eapply fs_grows_trans.
Qed.

End SaveFacts.

(** *** [os.makedirs] *)

Lemma mkdirs_frame ps w :
  images (mkdirs ps w).1 = images w /\ generators (mkdirs ps w).1 = generators w /\
  clock (mkdirs ps w).1 = clock w /\ ticks (mkdirs ps w).1 = ticks w /\
  stdout (mkdirs ps w).1 = stdout w /\
  (forall p n, fs w !! p = Some n -> fs (mkdirs ps w).1 !! p = Some n) /\
  (forall p c, fs (mkdirs ps w).1 !! p = Some (File c) -> fs w !! p = Some (File c)).
Proof.
  revert w. induction ps as [|q ps IH]; intros w; cbn [mkdirs]; [done |].
  destruct (fs w !! q) as [[|c]|] eqn:Hq; [apply IH | done |].
  destruct (IH (set_fs (insert q Dir) w)) as (Hi & Hg & Hc & Ht & Ho & Hkeep & Hfile).
  split_and!; try done.
  - intros p n Hp. apply Hkeep. cbn [fs set_fs].
    rewrite lookup_insert_ne; [done |]. intros <-. by rewrite Hq in Hp.
  - intros p c Hp. apply Hfile in Hp. cbn [fs set_fs] in Hp.
    destruct (decide (q = p)) as [<- | Hne].
    + by rewrite lookup_insert_eq in Hp.
    + by rewrite lookup_insert_ne in Hp.
Qed.

Lemma mkdirs_ok ps w :
  Forall (fun p => forall c, fs w !! p <> Some (File c)) ps ->
  (mkdirs ps w).2 = inr tt /\
  Forall (fun p => fs (mkdirs ps w).1 !! p = Some Dir) ps.
Proof.
  revert w. induction ps as [|q ps IH]; intros w Hps; cbn [mkdirs]; [done |].
  apply Forall_cons in Hps as [Hq Hps].
  destruct (fs w !! q) as [[|c]|] eqn:Hl.
  - destruct (IH w Hps) as [Hr Hd]. split; [done |].
    apply Forall_cons. split; [| done].
    by apply (mkdirs_frame ps w).
  - by destruct (Hq c).
  - assert (Forall (fun p => forall c, fs (set_fs (insert q Dir) w) !! p <> Some (File c)) ps)
      as Hps'.
    { eapply Forall_impl; [exact Hps |]. intros p Hp c. cbn [fs set_fs].
      destruct (decide (q = p)) as [<- | Hne].
      - by rewrite lookup_insert_eq.
      - rewrite lookup_insert_ne by done. apply Hp. }
    destruct (IH _ Hps') as [Hr Hd]. split; [done |].
    apply Forall_cons. split; [| done].
    apply (mkdirs_frame ps (set_fs (insert q Dir) w)).
    cbn [fs set_fs]. apply lookup_insert_eq.
Qed.

Lemma ancestors_last pre l : l <> [] -> pre ++ l ∈ ancestors pre l.
Proof.
  revert pre. induction l as [|c l IH]; intros pre Hne; [done |].
  cbn [ancestors]. destruct l as [|d l].
  - apply elem_of_cons. by left.
  - apply elem_of_cons. right.
    replace (pre ++ c :: d :: l) with ((pre ++ [c]) ++ d :: l)
      by (by rewrite <- app_assoc).
    by apply IH.
Qed.

(** ** The batch *)

Section BatchFacts.
Context `{Platform}.

Lemma batch_records_names g clk t output_dir as_pdf attendees :
  map info_name (batch_records g clk t output_dir as_pdf attendees) = attendees.
Proof.
  revert t. induction attendees as [|a l IH]; intros t; [done |].
  cbn [batch_records map info_name]. by rewrite IH.
Qed.

Lemma batch_records_paths g clk t output_dir as_pdf attendees :
  map info_path (batch_records g clk t output_dir as_pdf attendees)
  = map (output_path_of output_dir as_pdf) attendees.
Proof.
  revert t. induction attendees as [|a l IH]; intros t; [done |].
  cbn [batch_records map info_path]. by rewrite IH.
Qed.

Lemma batch_records_hashes g clk t output_dir as_pdf attendees :
  Forall (fun r => length (info_hash r) = 64%nat /\
                   forallb is_lower_hex (info_hash r) = true)
         (batch_records g clk t output_dir as_pdf attendees).
Proof.
  revert t. induction attendees as [|a l IH]; intros t; [by apply Forall_nil |].
  cbn [batch_records]. apply Forall_cons. split; [| apply IH].
  cbn [info_hash]. split; [apply hexdigest_length | apply hexdigest_lower].
Qed.

Lemma save_step_inv self cert output_dir as_pdf attendee w w' output_path :
  save_step self cert output_dir as_pdf attendee w = (w', inr output_path) ->
  output_path = output_path_of output_dir as_pdf attendee /\
  images w' = images w /\ generators w' = generators w /\ clock w' = clock w /\
  ticks w' = ticks w /\ fs_grows w w' /\ is_file w' output_path.
Proof.
  unfold save_step, output_path_of, extension. intros Hsave. destruct as_pdf.
  - apply run_bind_inv in Hsave as ([] & w3 & Hs & Hret).
    injection Hret as <- <-.
    by apply save_as_pdf_inv in Hs as (Hi & Hgn & Hc & Htk & Hgr & Hf).
  - apply run_bind_inv in Hsave as ([] & w3 & Hs & Hret).
    injection Hret as <- <-.
    by apply image_save_inv in Hs as (Hi & Hgn & Hc & Htk & Hgr & Hf).
Qed.

Lemma batch_loop_unfold self attendee rest output_dir name_position font_path
  font_size text_color hash_position qr_position qr_size as_pdf results :
  batch_loop self (attendee :: rest) output_dir name_position font_path font_size
    text_color hash_position qr_position qr_size as_pdf results
  = (r ← generate_certificate self attendee name_position font_path font_size
           text_color hash_position qr_position qr_size;
     output_path ← save_step self r.1 output_dir as_pdf attendee;
     batch_loop self rest output_dir name_position font_path font_size
       text_color hash_position qr_position qr_size as_pdf
       (results ++ [mkCertInfo attendee r.2 output_path])).
Proof. reflexivity. Qed.

(** A batch loop that returns has appended the records of its attendees. *)
Lemma batch_loop_inv self attendees output_dir name_position font_path font_size
  text_color hash_position qr_position qr_size as_pdf g :
  forall results0 w w' results,
  generators w !! self = Some g ->
  batch_loop self attendees output_dir name_position font_path font_size
    text_color hash_position qr_position qr_size as_pdf results0 w
  = (w', inr results) ->
  results = results0 ++ batch_records g (clock w) (ticks w) output_dir as_pdf attendees /\
  generators w' = generators w /\ clock w' = clock w /\
  ticks w' = (2 * length attendees + ticks w)%nat /\
  fs_grows w w' /\
  Forall (fun a => is_file w' (output_path_of output_dir as_pdf a)) attendees.
Proof.
  induction attendees as [|a rest IH]; intros results0 w w' results Hg Hrun.
  - injection Hrun as <- <-. cbn [batch_records length].
    rewrite app_nil_r. split_and!; try done. apply fs_grows_refl.
  - rewrite batch_loop_unfold in Hrun.
    apply run_bind_inv in Hrun as ([cert h] & w1 & Hrender & Hrun).
    apply run_bind_inv in Hrun as (output_path & w2 & Hsave & Hrun).
    cbn [fst snd] in Hsave, Hrun.
    apply generate_certificate_inv in Hrender
      as (g' & tpl & bytes & mods & qr & Hg' & Ht & He & Hh & Hq & Hr & Hc & Hw1).
    rewrite Hg in Hg'. injection Hg' as <-.
    apply encode_Some in He as [_ Hb].
    apply save_step_inv in Hsave as (Hp & _ & Hgen & Hclk & Htk & Hgrow & Hfile).
    assert (generators w1 = generators w /\ clock w1 = clock w /\
            ticks w1 = S (S (ticks w)) /\ fs w1 = fs w) as (Hg1 & Hc1 & Ht1 & Hf1)
      by (by rewrite Hw1).
    apply IH in Hrun as (Hres & Hgen' & Hclk' & Htk' & Hgrow' & Hfiles).
    2: { by rewrite Hgen, Hg1. }
    rewrite Hclk, Hc1, Htk, Ht1 in Hres.
    assert (fs_grows w w2) as Hgrow2.
    { destruct Hgrow as [F D]. split; intros ?; rewrite <- Hf1; eauto. }
    split.
    { rewrite Hres, <- app_assoc. cbn [batch_records app].
      f_equal. f_equal. unfold minted, hash_text. by rewrite Hh, Hb, Hp. }
    split; [by rewrite Hgen', Hgen |].
    split; [by rewrite Hclk', Hclk |].
    split; [rewrite Htk', Htk, Ht1; cbn [length]; lia |].
    split; [by eapply fs_grows_trans |].
    apply Forall_cons. split; [| done].
    eapply is_file_grows; [exact Hgrow' |]. by rewrite <- Hp.
Qed.

Lemma makedirs_frame output_dir w :
  images (makedirs output_dir w).1 = images w /\
  generators (makedirs output_dir w).1 = generators w /\
  clock (makedirs output_dir w).1 = clock w /\
  ticks (makedirs output_dir w).1 = ticks w /\
  stdout (makedirs output_dir w).1 = stdout w /\
  (forall p n, fs w !! p = Some n -> fs (makedirs output_dir w).1 !! p = Some n) /\
  (forall p c, fs (makedirs output_dir w).1 !! p = Some (File c) ->
               fs w !! p = Some (File c)).
Proof.
  unfold makedirs. destruct output_dir as [|c l]; [done |]. apply mkdirs_frame.
Qed.

Lemma batch_generate_run self attendees output_dir name_position font_path
  font_size text_color hash_position qr_position qr_size as_pdf w :
  batch_generate self attendees output_dir name_position font_path font_size
    text_color hash_position qr_position qr_size as_pdf w
  = match (makedirs output_dir w).2 with
    | inl e => ((makedirs output_dir w).1, inl e)
    | inr _ =>
        batch_loop self attendees output_dir name_position font_path font_size
          text_color hash_position qr_position qr_size as_pdf []
          (makedirs output_dir w).1
    end.
Proof.
  unfold batch_generate, mbind, M_bind.
  by destruct (makedirs output_dir w) as [w1 [e | []]].
Qed.

Lemma batch_records_files g clk t output_dir as_pdf attendees (P : list N -> Prop) :
  Forall (fun a => P (output_path_of output_dir as_pdf a)) attendees ->
  Forall (fun r => P (info_path r))
         (batch_records g clk t output_dir as_pdf attendees).
Proof.
  revert t. induction attendees as [|a l IH]; intros t Hl; [by apply Forall_nil |].
  apply Forall_cons in Hl as [Ha Hl]. cbn [batch_records].
  apply Forall_cons. split; [done | by apply IH].
Qed.

Lemma batch_records_lookup g clk t output_dir as_pdf attendees i a :
  attendees !! i = Some a ->
  batch_records g clk t output_dir as_pdf attendees !! i
  = Some (mkCertInfo a (minted g a (clk (2 * i + t)%nat))
                     (output_path_of output_dir as_pdf a)).
Proof.
  revert t i. induction attendees as [|b l IH]; intros t i Hi; [done |].
  destruct i as [|i]; cbn [batch_records].
  - injection Hi as ->. reflexivity.
  - change (l !! i = Some a) in Hi.
    change (batch_records g clk (S (S t)) output_dir as_pdf l !! i
            = Some (mkCertInfo a (minted g a (clk (2 * S i + t)%nat))
                               (output_path_of output_dir as_pdf a))).
    rewrite (IH (S (S t)) i Hi).
    replace (2 * i + S (S t))%nat with (2 * S i + t)%nat by lia. reflexivity.
Qed.

(** What a batch that returns has done. *)
Lemma batch_generate_inv self attendees output_dir name_position font_path
  font_size text_color hash_position qr_position qr_size as_pdf w w' results g :
  generators w !! self = Some g ->
  batch_generate self attendees output_dir name_position font_path font_size
    text_color hash_position qr_position qr_size as_pdf w = (w', inr results) ->
  results = batch_records g (clock w) (ticks w) output_dir as_pdf attendees /\
  Forall (fun r => is_file w' (info_path r)) results /\
  (makedirs output_dir w).2 = inr tt /\
  fs_grows (makedirs output_dir w).1 w'.
Proof.
  intros Hg. rewrite batch_generate_run.
  destruct (makedirs_frame output_dir w) as (_ & Hgen & Hclk & Htk & _).
  destruct (makedirs output_dir w) as [w1 [e | []]]; [done |].
  cbn [fst snd] in *. intros Hrun.
  apply (batch_loop_inv _ _ _ _ _ _ _ _ _ _ _ g) in Hrun
    as (Hres & _ & _ & _ & Hgrow & Hfiles); [| by rewrite Hgen].
  rewrite Hclk, Htk in Hres. cbn [app] in Hres.
  split; [done |]. split; [| done].
  rewrite Hres. by apply batch_records_files.
Qed.

(** C9: a batch that returns gives one record per attendee, in the order
    of the input: the i-th record carries the i-th name as it was given,
    the hash of that attendee's render (the batch takes two readings of
    the clock per attendee) and the path of the file written for it, which
    exists when the batch returns.  For the empty list the batch returns
    the empty list as soon as the output directory can be made, renders
    nothing and writes no file. *)
Theorem batch_generate_results self attendees output_dir name_position font_path
  font_size text_color hash_position qr_position qr_size as_pdf w w' results g :
  generators w !! self = Some g ->
  batch_generate self attendees output_dir name_position font_path font_size
    text_color hash_position qr_position qr_size as_pdf w = (w', inr results) ->
  length results = length attendees /\
  map info_name results = attendees /\
  (forall i a, attendees !! i = Some a ->
     results !! i
     = Some (mkCertInfo a (minted g a (clock w (2 * i + ticks w)%nat))
                        (output_path_of output_dir as_pdf a))) /\
  Forall (fun r => is_file w' (info_path r)) results /\
  (forall w1, makedirs output_dir w = (w1, inr tt) ->
     batch_generate self [] output_dir name_position font_path font_size
       text_color hash_position qr_position qr_size as_pdf w = (w1, inr []) /\
     images w1 = images w /\ ticks w1 = ticks w /\
     (forall p c, fs w1 !! p = Some (File c) <-> fs w !! p = Some (File c))).
Proof.
  intros Hg Hrun.
  apply (batch_generate_inv _ _ _ _ _ _ _ _ _ _ _ _ _ _ g) in Hrun
    as (-> & Hfiles & _ & _); [| done].
  split.
  { rewrite <- (length_map info_name), batch_records_names. reflexivity. }
  split; [apply batch_records_names |].
  split; [intros i a; apply batch_records_lookup |].
  split; [done |].
  intros w1 Hmk. rewrite batch_generate_run, Hmk. cbn [fst snd batch_loop].
  destruct (makedirs_frame output_dir w) as (Hi & _ & _ & Ht & _ & Hkeep & Hfile).
  rewrite Hmk in Hi, Ht, Hkeep, Hfile. cbn [fst] in *.
  split; [done |]. split; [done |]. split; [done |].
  intros p c. split; [apply Hfile | apply Hkeep].
Qed.

(** C1, as the code has it: a batch that returns has written, for each
    attendee, the file whose path is [output_dir] joined with the
    sanitized name and [".pdf"] or [".png"].  Sanitizing keeps the length
    of the name and goes character by character: a character that
    [str.isalnum] accepts (letters and digits of any script, so the
    o-diaeresis of "J(U+00F6)hn/Doe*1" as well), a space, a hyphen and an
    underscore are kept, anything else becomes one underscore.  That name
    gives the stem "J(U+00F6)hn_Doe_1", "Ahmad" gives "Ahmad", and names
    with the same stem get the same path: nothing is made unique. *)
Theorem output_filenames self attendees output_dir name_position font_path
  font_size text_color hash_position qr_position qr_size as_pdf w w' results g :
  generators w !! self = Some g ->
  batch_generate self attendees output_dir name_position font_path font_size
    text_color hash_position qr_position qr_size as_pdf w = (w', inr results) ->
  map info_path results
  = map (fun a => path_join output_dir
                    (safe_name ucd_isalnum a
                     ++ (if as_pdf then lit ".pdf" else lit ".png"))) attendees /\
  Forall (fun r => is_file w' (info_path r)) results /\
  (forall a, length (safe_name ucd_isalnum a) = length a) /\
  (forall a i c, a !! i = Some c ->
     safe_name ucd_isalnum a !! i
     = Some (if isalnum ucd_isalnum c || (c =? 32)%N || (c =? 45)%N || (c =? 95)%N
             then c else 95%N)) /\
  safe_name ucd_isalnum Demo.john
  = [74; 246; 104; 110; 95; 68; 111; 101; 95; 49]%N /\
  safe_name ucd_isalnum (lit "Ahmad") = lit "Ahmad" /\
  (forall a b, safe_name ucd_isalnum a = safe_name ucd_isalnum b ->
     output_path_of output_dir as_pdf a = output_path_of output_dir as_pdf b).
Proof.
  intros Hg Hrun.
  apply (batch_generate_inv _ _ _ _ _ _ _ _ _ _ _ _ _ _ g) in Hrun
    as (-> & Hfiles & _ & _); [| done].
  split; [apply batch_records_paths |].
  split; [done |].
  split; [intros a; apply length_map |].
  split.
  { intros a i c Hi. unfold safe_name. rewrite list_lookup_fmap, Hi. reflexivity. }
  split; [reflexivity |]. split; [reflexivity |].
  intros a b Hab. unfold output_path_of. by rewrite Hab.
Qed.

(** C10: [batch_generate] begins by making the output directory.  When the
    path is a relative path of plain names (no [.] or [..], no empty
    component) and none of the directories it names is a regular file,
    the directory and the directories above it exist afterwards, whether
    they were there before or not, and nothing else of the tree has
    changed; no image has been made and the clock has not been read by
    then.  The loop over the attendees runs in the world so prepared, and
    for the empty list the batch returns there. *)
Theorem batch_generate_makedirs self attendees output_dir name_position font_path
  font_size text_color hash_position qr_position qr_size as_pdf w :
  plain_path output_dir = true ->
  Forall (fun p => forall c, fs w !! p <> Some (File c))
         (ancestors [] (resolve output_dir)) ->
  exists w1,
    makedirs output_dir w = (w1, inr tt) /\
    Forall (fun p => fs w1 !! p = Some Dir) (ancestors [] (resolve output_dir)) /\
    is_dir (fs w1) (resolve output_dir) = true /\
    (forall p n, fs w !! p = Some n -> fs w1 !! p = Some n) /\
    (forall p c, fs w1 !! p = Some (File c) -> fs w !! p = Some (File c)) /\
    images w1 = images w /\ generators w1 = generators w /\ ticks w1 = ticks w /\
    batch_generate self attendees output_dir name_position font_path font_size
      text_color hash_position qr_position qr_size as_pdf w
    = batch_loop self attendees output_dir name_position font_path font_size
        text_color hash_position qr_position qr_size as_pdf [] w1 /\
    batch_generate self [] output_dir name_position font_path font_size
      text_color hash_position qr_position qr_size as_pdf w = (w1, inr []).
Proof.
  intros Hplain Hfree.
  assert (output_dir <> []) as Hne by (intros ->; by vm_compute in Hplain).
  clear Hplain.
  destruct (makedirs_frame output_dir w) as (Hi & Hg & _ & Ht & _ & Hkeep & Hfile).
  assert ((makedirs output_dir w).2 = inr tt /\
          Forall (fun p => fs (makedirs output_dir w).1 !! p = Some Dir)
                 (ancestors [] (resolve output_dir))) as [Hok Hdirs].
  { unfold makedirs. destruct output_dir as [|c l]; [done |]. by apply mkdirs_ok. }
  exists (makedirs output_dir w).1.
  split; [by destruct (makedirs output_dir w) as [w1 [e | []]] |].
  split; [done |].
  split.
  { unfold is_dir. destruct (resolve output_dir) as [|c l] eqn:Hres; [done |].
    rewrite Forall_forall in Hdirs.
    by rewrite (Hdirs (c :: l) (ancestors_last [] (c :: l) ltac:(done))). }
  split; [done |]. split; [done |]. split; [done |]. split; [done |].
  split; [done |].
  split; rewrite batch_generate_run, Hok; reflexivity.
Qed.

End BatchFacts.

Section DemoBatch.
#[local] Existing Instance Demo.platform.

Lemma batch_generate_results_witness :
  length (Demo.results_of (Demo.batch false)) = 3%nat /\
  map info_name (Demo.results_of (Demo.batch false))
  = [lit "Alice"; lit "Bob"; lit "Alice"].
Proof.
  pose proof (batch_generate_results Demo.self [lit "Alice"; lit "Bob"; lit "Alice"]
                (lit "temp/generated") (1, 1) Demo.roboto 60 (0, 0, 0) None None 2
                false Demo.world (Demo.batch false).1 (Demo.results_of (Demo.batch false))
                (mkGenerator 1 (lit "GDG Basra Event") 12 8)) as Hthm.
  destruct Hthm as (Hlen & Hnames & _); [vm_compute; reflexivity .. |].
  split; [exact Hlen | exact Hnames].
Defined.

(** The name "J(U+00F6)hn/Doe*1" does not give the stem "J_hn_Doe_1": the
    o-diaeresis is a letter for [str.isalnum] and is kept. *)
Lemma safe_name_keeps_letters :
  safe_name ucd_isalnum Demo.john = [74; 246; 104; 110; 95; 68; 111; 101; 95; 49]%N /\
  safe_name ucd_isalnum Demo.john <> Demo.john_expected.
Proof. split; [reflexivity | discriminate]. Qed.

Lemma output_filenames_witness :
  map info_path (Demo.results_of (Demo.batch true))
  = [lit "temp/generated/Alice.pdf"; lit "temp/generated/Bob.pdf";
     lit "temp/generated/Alice.pdf"] /\
  Forall (fun r => is_file (Demo.batch true).1 (info_path r))
         (Demo.results_of (Demo.batch true)).
Proof.
  pose proof (output_filenames Demo.self [lit "Alice"; lit "Bob"; lit "Alice"]
                (lit "temp/generated") (1, 1) Demo.roboto 60 (0, 0, 0) None None 2
                true Demo.world (Demo.batch true).1 (Demo.results_of (Demo.batch true))
                (mkGenerator 1 (lit "GDG Basra Event") 12 8)) as Hthm.
  destruct Hthm as (Hpaths & Hfiles & _); [vm_compute; reflexivity .. |].
  split; [exact Hpaths | exact Hfiles].
Defined.

Lemma batch_generate_makedirs_witness :
  exists w1,
    makedirs (lit "temp/generated") Demo.world = (w1, inr tt) /\
    fs w1 !! [lit "temp"] = Some Dir /\
    fs w1 !! [lit "temp"; lit "generated"] = Some Dir /\
    batch_generate Demo.self [] (lit "temp/generated") (1, 1) Demo.roboto 60
      (0, 0, 0) None None 2 false Demo.world = (w1, inr []).
Proof.
  destruct (batch_generate_makedirs Demo.self [] (lit "temp/generated") (1, 1)
              Demo.roboto 60 (0, 0, 0) None None 2 false Demo.world)
    as (w1 & Hmk & Hdirs & _ & _ & _ & _ & _ & _ & _ & Hempty).
  - vm_compute. reflexivity.
  - vm_compute. repeat constructor; intros c; discriminate.
  - exists w1. split; [exact Hmk |].
    change (ancestors [] (resolve (lit "temp/generated")))
      with [[lit "temp"]; [lit "temp"; lit "generated"]] in Hdirs.
    apply Forall_cons in Hdirs as [H1 Hdirs].
    apply Forall_cons in Hdirs as [H2 _].
    split; [exact H1 |]. split; [exact H2 | exact Hempty].
Defined.

(** The batch of "Alice", "Bob", "Alice": three records in this order,
    the two records of "Alice" with different hashes and the same path. *)
Example batch_of_three :
  map info_name (Demo.results_of (Demo.batch false))
  = [lit "Alice"; lit "Bob"; lit "Alice"] /\
  map info_path (Demo.results_of (Demo.batch false))
  = [lit "temp/generated/Alice.png"; lit "temp/generated/Bob.png";
     lit "temp/generated/Alice.png"] /\
  (info_hash <$> Demo.results_of (Demo.batch false) !! 0%nat)
  <> (info_hash <$> Demo.results_of (Demo.batch false) !! 2%nat).
Proof.
  split; [vm_compute; reflexivity |]. split; [vm_compute; reflexivity |].
  vm_compute. discriminate.
Qed.

End DemoBatch.

(** * Further properties of the code *)

(** ** Pixels *)

Lemma in_bounds_spec im x y :
  in_bounds im x y = true <-> 0 <= x < im_width im /\ 0 <= y < im_height im.
Proof.
  unfold in_bounds. rewrite !andb_true_iff, !Z.leb_le, !Z.ltb_lt. lia.
Qed.

Lemma offset_inj im x y x' y' :
  in_bounds im x y = true -> in_bounds im x' y' = true ->
  offset im x y = offset im x' y' -> (x, y) = (x', y').
Proof.
  rewrite !in_bounds_spec. unfold offset. intros Hb Hb' Ho.
  assert (y * im_width im + x = y' * im_width im + x') as Heq by nia.
  assert (y = y') as -> by nia. f_equal. lia.
Qed.

Lemma offset_lt im x y :
  wf_image im -> in_bounds im x y = true -> (offset im x y < length (im_data im))%nat.
Proof.
  intros (Hw & Hh & Hl). rewrite in_bounds_spec. unfold offset. intros Hb.
  rewrite Hl. apply Z2Nat.inj_lt; nia.
Qed.

Lemma wf_image_shape a b : same_shape a b -> wf_image b -> wf_image a.
Proof. unfold same_shape, wf_image. intros (_ & -> & -> & ->). done. Qed.

Lemma in_bounds_shape a b x y : same_shape a b -> in_bounds a x y = in_bounds b x y.
Proof. unfold same_shape, in_bounds. by intros (_ & -> & -> & _). Qed.

(** A write leaves every other pixel as it was. *)
Lemma getpixel_putpixel_ne im x y p x' y' :
  (x, y) <> (x', y') -> getpixel (putpixel im x y p) x' y' = getpixel im x' y'.
Proof.
  intros Hne. unfold putpixel. destruct (in_bounds im x y) eqn:Hb; [| done].
  unfold getpixel.
  change (in_bounds (mkImage _ _ _ _) x' y') with (in_bounds im x' y').
  destruct (in_bounds im x' y') eqn:Hb'; [| done].
  change (offset (mkImage _ _ _ _) x' y') with (offset im x' y').
  cbn [im_data]. rewrite list_lookup_insert_ne; [done |].
  intros Ho. by apply offset_inj in Ho.
Qed.

(** A write inside the image is read back. *)
Lemma getpixel_putpixel_eq im x y p :
  wf_image im -> in_bounds im x y = true -> getpixel (putpixel im x y p) x y = p.
Proof.
  intros Hwf Hb. unfold putpixel. rewrite Hb. unfold getpixel.
  change (in_bounds (mkImage _ _ _ _) x y) with (in_bounds im x y). rewrite Hb.
  change (offset (mkImage _ _ _ _) x y) with (offset im x y).
  cbn [im_data]. rewrite list_lookup_insert_eq; [done |]. by apply offset_lt.
Qed.

Lemma getpixel_fold_out {A} (f : A -> Z * Z * Pixel) (l : list A) im x y :
  (forall a, a ∈ l -> ((f a).1.1, (f a).1.2) <> (x, y)) ->
  getpixel (fold_left (fun im a => putpixel im (f a).1.1 (f a).1.2 (f a).2) l im) x y
  = getpixel im x y.
Proof.
  revert im. induction l as [|a l IH]; intros im Hl; cbn [fold_left]; [done |].
  rewrite IH.
  - apply getpixel_putpixel_ne, Hl. by left.
  - intros b Hb. apply Hl. by right.
Qed.

(** The last write to a pixel is what is read there. *)
Lemma getpixel_fold_in {A} (f : A -> Z * Z * Pixel) (l : list A) im x y v :
  wf_image im -> in_bounds im x y = true ->
  (exists a, a ∈ l /\ ((f a).1.1, (f a).1.2) = (x, y)) ->
  (forall a, a ∈ l -> ((f a).1.1, (f a).1.2) = (x, y) -> (f a).2 = v) ->
  getpixel (fold_left (fun im a => putpixel im (f a).1.1 (f a).1.2 (f a).2) l im) x y
  = v.
Proof.
  intros Hwf Hb. induction l as [|a l IH] using rev_ind; intros (a0 & Ha0 & Hc0) Hv.
  - by apply elem_of_nil in Ha0.
  - rewrite fold_left_app. cbn [fold_left].
    set (im' := fold_left _ l im).
    assert (same_shape im' im) as Hs by apply fold_putpixel_shape.
    destruct (decide (((f a).1.1, (f a).1.2) = (x, y))) as [Heq | Hne].
    + injection Heq as Hx Hy. rewrite Hx, Hy.
      rewrite getpixel_putpixel_eq.
      * apply Hv; [apply elem_of_app; right; by left | by rewrite Hx, Hy].
      * by eapply wf_image_shape.
      * by rewrite (in_bounds_shape _ _ _ _ Hs).
    + rewrite getpixel_putpixel_ne by done. apply IH.
      * exists a0. split; [| done].
        apply elem_of_app in Ha0 as [Ha0 | Ha0]; [done |].
        apply list_elem_of_singleton in Ha0. by subst.
      * intros b Hb'. apply Hv. apply elem_of_app. by left.
Qed.

Lemma elem_of_coords w h x y : (x, y) ∈ coords w h <-> 0 <= x < w /\ 0 <= y < h.
Proof.
  unfold coords. rewrite list_elem_of_In, in_flat_map. split.
  - intros (y0 & Hy0 & Hin). apply in_map_iff in Hin as (x0 & [= <- <-] & Hx0).
    apply list_elem_of_In, elem_of_seqZ in Hy0, Hx0. lia.
  - intros [Hx Hy]. exists y. split.
    + apply list_elem_of_In, elem_of_seqZ. lia.
    + apply in_map_iff. exists x. split; [done |].
      apply list_elem_of_In, elem_of_seqZ. lia.
Qed.

Lemma lookup_flat_map_rows {A B} (row : A -> list B) (n : nat) (ys : list A) k i :
  (forall y, length (row y) = n) -> (i < n)%nat ->
  flat_map row ys !! (k * n + i)%nat = ys !! k ≫= fun y => row y !! i.
Proof.
  intros Hn Hi. revert k. induction ys as [|y ys IH]; intros k; cbn [flat_map].
  - by rewrite !lookup_nil.
  - destruct k as [|k].
    + cbn [Nat.mul Nat.add]. rewrite lookup_app_l by (by rewrite Hn). done.
    + rewrite lookup_app_r by (rewrite Hn; lia).
      rewrite Hn. replace (S k * n + i - n)%nat with (k * n + i)%nat by lia.
      apply IH.
Qed.

Lemma coords_lookup w h x y :
  0 <= x < w -> 0 <= y < h ->
  coords w h !! Z.to_nat (y * w + x) = Some (x, y).
Proof.
  intros Hx Hy. unfold coords.
  replace (Z.to_nat (y * w + x)) with (Z.to_nat y * Z.to_nat w + Z.to_nat x)%nat
    by (rewrite Z2Nat.inj_add, Z2Nat.inj_mul by nia; reflexivity).
  rewrite (lookup_flat_map_rows _ (Z.to_nat w)).
  - rewrite lookup_seqZ_lt by lia. cbn [mbind option_bind].
    change (map ?f ?l) with (f <$> l). rewrite list_lookup_fmap.
    rewrite lookup_seqZ_lt by lia. cbn. do 2 f_equal; lia.
  - intros y0. by rewrite length_map, length_seqZ.
  - lia.
Qed.

Lemma coords_length w h : 0 <= w -> 0 <= h -> length (coords w h) = Z.to_nat (w * h).
Proof.
  intros Hw Hh. unfold coords.
  rewrite (flat_map_constant_length (c := Z.to_nat w)).
  - rewrite length_seqZ, Z2Nat.inj_mul by lia. lia.
  - intros y _. by rewrite length_map, length_seqZ.
Qed.

Lemma new_image_wf mode w h f : 0 <= w -> 0 <= h -> wf_image (new_image mode w h f).
Proof.
  intros Hw Hh. unfold wf_image, new_image. cbn [im_width im_height im_data].
  by rewrite length_map, coords_length.
Qed.

(** An image made from a function shows it. *)
Lemma getpixel_new_image mode w h f x y :
  0 <= x < w -> 0 <= y < h -> getpixel (new_image mode w h f) x y = f x y.
Proof.
  intros Hx Hy. unfold getpixel.
  assert (in_bounds (new_image mode w h f) x y = true) as ->
    by (apply in_bounds_spec; cbn; lia).
  unfold offset, new_image. cbn [im_width im_data].
  change (map ?g ?l) with (g <$> l).
  by rewrite list_lookup_fmap, coords_lookup.
Qed.

Lemma resize_inv src w h r :
  resize src w h = Some r ->
  1 <= w /\ 1 <= h /\ im_width r = w /\ im_height r = h /\ wf_image r /\
  forall x y, 0 <= x < w -> 0 <= y < h ->
    getpixel r x y = getpixel src ((2 * x + 1) * im_width src / (2 * w))
                                  ((2 * y + 1) * im_height src / (2 * h)).
Proof.
  unfold resize. destruct ((w <? 1) || (h <? 1)) eqn:Hwh; [done |].
  apply orb_false_iff in Hwh as [Hw Hh]. apply Z.ltb_ge in Hw, Hh.
  intros [= <-]. split_and!; try done.
  - apply new_image_wf; lia.
  - intros x y Hx Hy. by rewrite getpixel_new_image.
Qed.

Section LayerFacts.
Context `{Platform}.

Lemma getpixel_text_out im xy s font fill x y :
  ~ covers xy (rasterize font s) x y ->
  getpixel (text im xy s font fill) x y = getpixel im x y.
Proof.
  intros Hc. unfold text.
  apply (getpixel_fold_out (fun d => (xy.1 + d.1, xy.2 + d.2, fill))).
  intros d Hd Heq. apply Hc. by exists d.
Qed.

Lemma getpixel_text_in im xy s font fill x y :
  wf_image im -> in_bounds im x y = true -> covers xy (rasterize font s) x y ->
  getpixel (text im xy s font fill) x y = fill.
Proof.
  intros Hwf Hb Hc. unfold text.
  by apply (getpixel_fold_in (fun d => (xy.1 + d.1, xy.2 + d.2, fill))).
Qed.

Lemma getpixel_paste_out dst src pos x y :
  ~ (pos.1 <= x < pos.1 + im_width src /\ pos.2 <= y < pos.2 + im_height src) ->
  getpixel (paste dst src pos) x y = getpixel dst x y.
Proof.
  intros Hout. unfold paste.
  apply (getpixel_fold_out
           (fun ij => (pos.1 + ij.1, pos.2 + ij.2, getpixel src ij.1 ij.2))).
  intros [i j] Hij Heq. apply elem_of_coords in Hij.
  cbn [fst snd] in Heq. injection Heq as <- <-. apply Hout. lia.
Qed.

Lemma getpixel_paste_in dst src pos x y :
  wf_image dst -> in_bounds dst x y = true ->
  pos.1 <= x < pos.1 + im_width src -> pos.2 <= y < pos.2 + im_height src ->
  getpixel (paste dst src pos) x y = getpixel src (x - pos.1) (y - pos.2).
Proof.
  intros Hwf Hb Hx Hy. unfold paste.
  apply (getpixel_fold_in
           (fun ij => (pos.1 + ij.1, pos.2 + ij.2, getpixel src ij.1 ij.2)));
    [done | done | |].
  - exists (x - pos.1, y - pos.2). split.
    + apply elem_of_coords. lia.
    + cbn [fst snd]. f_equal; lia.
  - intros [i j] _ Heq. cbn [fst snd] in *. injection Heq as <- <-.
    f_equal; lia.
Qed.

End LayerFacts.

(** ** The layers of a certificate *)

(** Whether a mask covers a pixel can be decided. *)
Lemma classic_covers xy mask x y : covers xy mask x y \/ ~ covers xy mask x y.
Proof.
  induction mask as [|d mask IH].
  - right. intros (d & Hd & _). by apply elem_of_nil in Hd.
  - destruct (decide ((xy.1 + d.1, xy.2 + d.2) = (x, y))) as [Heq | Hne].
    + left. exists d. split; [by left | done].
    + destruct IH as [(d' & Hd' & Heq') | Hno].
      * left. exists d'. split; [by right | done].
      * right. intros (d' & Hd' & Heq').
        apply elem_of_cons in Hd' as [-> | Hd']; [done |].
        apply Hno. by exists d'.
Qed.

Section CertificateLayers.
Context `{Platform}.

Lemma getpixel_copy im x y : getpixel (copy im) x y = getpixel im x y.
Proof. reflexivity. Qed.

Lemma make_image_pixel mods x y :
  0 <= x < (Z.of_nat (length mods) + 4) * 10 ->
  0 <= y < (Z.of_nat (length mods) + 4) * 10 ->
  getpixel (make_image mods) x y
  = if module_at mods (y / 10 - 2) (x / 10 - 2) then black else white.
Proof.
  intros Hx Hy. unfold make_image. cbv zeta.
  replace ((Z.of_nat (length mods) + 2 * 2) * 10)
    with ((Z.of_nat (length mods) + 4) * 10) by lia.
  by rewrite getpixel_new_image.
Qed.

(** X1: in a certificate that [generate_certificate] returns, every pixel
    that is covered neither by the name, nor by the hash stamp, nor by the
    square of the QR symbol is the pixel of the template at that place. *)
Theorem certificate_background self name name_position font_path font_size
  text_color hash_position qr_position qr_size w w' cert h :
  generate_certificate self name name_position font_path font_size text_color
    hash_position qr_position qr_size w = (w', inr (cert, h)) ->
  exists g tpl im,
    generators w !! self = Some g /\
    images w !! template g = Some tpl /\
    images w' !! cert = Some im /\
    forall x y,
      ~ covers name_position (rasterize (fonts_of font_path font_size).1 name) x y ->
      ~ covers (default (50, template_height g - 100) hash_position)
               (rasterize (fonts_of font_path font_size).2 (hash_display h)) x y ->
      ~ in_box (qr_place g qr_position qr_size) qr_size x y ->
      getpixel im x y = getpixel tpl x y.
Proof.
  intros Hrun.
  apply generate_certificate_inv in Hrun
    as (g & tpl & bytes & mods & qr & Hg & Ht & _ & _ & _ & Hr & -> & ->).
  apply resize_inv in Hr as (_ & _ & Hqw & Hqh & _ & _).
  eexists g, tpl, _. split; [done |]. split; [done |]. split.
  { unfold rendered. cbn [images]. apply lookup_insert_eq. }
  intros x y Hname Hstamp Hbox.
  rewrite getpixel_paste_out by (rewrite Hqw, Hqh; exact Hbox).
  unfold stamped. by rewrite !getpixel_text_out, getpixel_copy.
Qed.

(** X2: the QR symbol is pasted last and hides what is under it.  In a
    certificate that [generate_certificate] returns for a template in
    mode RGB whose pixels are all there, every pixel of the square of side
    [qr_size] at the QR position is black or white, whatever the template
    shows and whatever text, in whatever colour, was drawn there. *)
Theorem certificate_qr_on_top self name name_position font_path font_size
  text_color hash_position qr_position qr_size w w' cert h :
  generate_certificate self name name_position font_path font_size text_color
    hash_position qr_position qr_size w = (w', inr (cert, h)) ->
  exists g tpl im,
    generators w !! self = Some g /\
    images w !! template g = Some tpl /\
    images w' !! cert = Some im /\
    (im_mode tpl = lit "RGB" ->
     wf_image tpl ->
     forall x y,
       in_bounds tpl x y = true ->
       in_box (qr_place g qr_position qr_size) qr_size x y ->
       getpixel im x y = black \/ getpixel im x y = white).
Proof.
  intros Hrun.
  apply generate_certificate_inv in Hrun
    as (g & tpl & bytes & mods & qr & Hg & Ht & _ & _ & Hq & Hr & -> & ->).
  apply resize_inv in Hr as (Hs1 & _ & Hqw & Hqh & _ & Hpix).
  eexists g, tpl, _. split; [done |]. split; [done |]. split.
  { unfold rendered. cbn [images]. apply lookup_insert_eq. }
  intros _ Hwf x y Hb [Hx Hy].
  set (pos := qr_place g qr_position qr_size) in *.
  set (side := (Z.of_nat (length mods) + 4) * 10).
  assert (im_width (make_image mods) = side /\ im_height (make_image mods) = side)
    as [Hmw Hmh] by (unfold make_image, side; cbn; lia).
  assert (0 < side) as Hside by (unfold side; lia).
  rewrite getpixel_paste_in.
  - rewrite Hpix by lia. rewrite Hmw, Hmh.
    rewrite make_image_pixel.
    + destruct (module_at _ _ _); auto.
    + split; [apply Z.div_pos; nia |]. apply Z.div_lt_upper_bound; nia.
    + split; [apply Z.div_pos; nia |]. apply Z.div_lt_upper_bound; nia.
  - eapply wf_image_shape; [apply stamped_shape | done].
  - by rewrite (in_bounds_shape _ tpl) by apply stamped_shape.
  - by rewrite Hqw.
  - by rewrite Hqh.
Qed.

End CertificateLayers.

(** ** The QR symbol and the outcomes of a render *)

Section RenderOutcomes.
Context `{Platform}.

Lemma module_at_outside mods row col :
  row < 0 \/ col < 0 \/ Z.of_nat (length mods) <= row ->
  module_at mods row col = false.
Proof.
  intros Hout. unfold module_at.
  destruct (Z.leb_spec 0 row) as [Hr | Hr]; [| done].
  destruct (Z.leb_spec 0 col) as [Hc | Hc]; [| done].
  cbn [andb]. rewrite (lookup_ge_None_2 mods) by lia. done.
Qed.

(** X4: the image [generate_qr_code] returns is a square of ten pixels per
    module with two more modules on every side; a pixel is black exactly
    where its module is set, and the margin above, left of and below the
    symbol is white (the margin on the right too when no row of the symbol
    is longer than the symbol is high).  The call reads the clock once and
    changes nothing else. *)
Theorem qr_symbol_geometry self name cert_hash w w' img :
  generate_qr_code self name cert_hash w = (w', inr img) ->
  exists g mods,
    generators w !! self = Some g /\
    qr_modules (Json.dumps (verification_data cert_hash name (event_name g)
                              (strftime (clock w (ticks w))))) = Some mods /\
    w' = tick w /\
    im_width img = (Z.of_nat (length mods) + 4) * 10 /\
    im_height img = (Z.of_nat (length mods) + 4) * 10 /\
    (forall x y,
       0 <= x < (Z.of_nat (length mods) + 4) * 10 ->
       0 <= y < (Z.of_nat (length mods) + 4) * 10 ->
       getpixel img x y
       = if module_at mods (y / 10 - 2) (x / 10 - 2) then black else white) /\
    (forall x y,
       0 <= x < (Z.of_nat (length mods) + 4) * 10 ->
       0 <= y < (Z.of_nat (length mods) + 4) * 10 ->
       x < 20 \/ y < 20 \/ (Z.of_nat (length mods) + 2) * 10 <= y ->
       getpixel img x y = white) /\
    (Forall (fun row => (length row <= length mods)%nat) mods ->
     forall x y,
       0 <= x < (Z.of_nat (length mods) + 4) * 10 ->
       0 <= y < (Z.of_nat (length mods) + 4) * 10 ->
       (Z.of_nat (length mods) + 2) * 10 <= x ->
       getpixel img x y = white).
Proof.
  rewrite generate_qr_code_run.
  destruct (generators w !! self) as [g|] eqn:Hg; [| done].
  destruct (qr_modules _) as [mods|] eqn:Hq; [| done].
  intros [= <- <-]. exists g, mods.
  split; [done |]. split; [done |]. split; [done |].
  split; [unfold make_image; cbn; lia |].
  split; [unfold make_image; cbn; lia |].
  split; [intros x y; apply make_image_pixel |].
  split.
  - intros x y Hx Hy Hedge. rewrite make_image_pixel by done.
    rewrite module_at_outside; [done |].
    destruct Hedge as [Hl | [Ht | Hb]].
    + right. left. assert (x / 10 < 2) by (apply Z.div_lt_upper_bound; lia). lia.
    + left. assert (y / 10 < 2) by (apply Z.div_lt_upper_bound; lia). lia.
    + right. right.
      assert (Z.of_nat (length mods) + 2 <= y / 10)
        by (apply Z.div_le_lower_bound; lia). lia.
  - intros Hrows x y Hx Hy Hr. rewrite make_image_pixel by done.
    assert (Z.of_nat (length mods) <= x / 10 - 2) as Hcol.
    { assert (Z.of_nat (length mods) + 2 <= x / 10)
        by (apply Z.div_le_lower_bound; lia). lia. }
    unfold module_at.
    destruct ((0 <=? y / 10 - 2) && (0 <=? x / 10 - 2)); [| done].
    destruct (mods !! Z.to_nat (y / 10 - 2)) as [row|] eqn:Hrow; [| done].
    cbn [default].
    rewrite Forall_forall in Hrows.
    assert (length row <= length mods)%nat as Hlen
      by (apply Hrows; by eapply list_elem_of_lookup_2).
    rewrite (lookup_ge_None_2 row) by lia. done.
Qed.

(** X5: whatever its input and however it ends, [generate_certificate]
    does not touch the file system or the clock's future, reads the clock
    at most twice, prints at most one line, and creates at most one image
    object, the new one. *)
Theorem generate_certificate_effects self name name_position font_path font_size
  text_color hash_position qr_position qr_size w :
  fs (generate_certificate self name name_position font_path font_size text_color
        hash_position qr_position qr_size w).1 = fs w /\
  clock (generate_certificate self name name_position font_path font_size text_color
           hash_position qr_position qr_size w).1 = clock w /\
  (ticks w
   <= ticks (generate_certificate self name name_position font_path font_size
               text_color hash_position qr_position qr_size w).1
   <= 2 + ticks w)%nat /\
  (exists lines,
     stdout (generate_certificate self name name_position font_path font_size
               text_color hash_position qr_position qr_size w).1
     = stdout w ++ lines /\ (length lines <= 1)%nat) /\
  (forall l,
     l ∈ dom (images (generate_certificate self name name_position font_path
                        font_size text_color hash_position qr_position qr_size w).1) ->
     l ∈ dom (images w) \/ l = fresh (dom (images w))).
Proof.
  rewrite generate_certificate_run.
  assert (length (font_warning font_path font_size) <= 1)%nat as Hwarn.
  { unfold font_warning. destruct font_path as [p|]; [| cbn [length]; lia].
    destruct (font_size <=? 0); [cbn [length]; lia |].
    destruct (font_file_ok p); cbn [length]; lia. }
  assert (forall im n, (n <= 2)%nat ->
    let w1 := rendered w (fresh (dom (images w))) im n font_path font_size in
    fs w1 = fs w /\ clock w1 = clock w /\ (ticks w <= ticks w1 <= 2 + ticks w)%nat /\
    (exists lines, stdout w1 = stdout w ++ lines /\ (length lines <= 1)%nat) /\
    (forall l, l ∈ dom (images w1) -> l ∈ dom (images w) \/ l = fresh (dom (images w))))
    as Hrendered.
  { intros im n Hn. cbv zeta. unfold rendered. cbn [fs clock ticks stdout images].
    split; [done |]. split; [done |]. split; [lia |]. split; [eauto |].
    intros l. rewrite dom_insert_L, elem_of_union, elem_of_singleton. tauto. }
  assert (fs w = fs w /\ clock w = clock w /\ (ticks w <= ticks w <= 2 + ticks w)%nat /\
    (exists lines, stdout w = stdout w ++ lines /\ (length lines <= 1)%nat) /\
    (forall l, l ∈ dom (images w) -> l ∈ dom (images w) \/ l = fresh (dom (images w))))
    as Hsame.
  { split; [done |]. split; [done |]. split; [lia |]. split; [| auto].
    exists []. rewrite app_nil_r. split; [done | cbn [length]; lia]. }
  unfold render.
  destruct (generators w !! self) as [g|]; [| exact Hsame].
  destruct (images w !! template g) as [tpl|]; [| exact Hsame].
  destruct (encode _) as [bytes|]; [| apply Hrendered; lia].
  destruct (qr_modules _) as [mods|]; [| apply Hrendered; lia].
  destruct (resize _ _ _) as [qr|]; apply Hrendered; lia.
Qed.

(** X6: what [generate_certificate] never returns.  There is no
    certificate for an attendee or an event name with a lone surrogate,
    none for a payload that fits no QR symbol, and none for a [qr_size]
    below 1: a call that returns has passed these three tests, whatever
    the font, the colour and the positions.  It has then read the clock
    exactly twice, and what it returns is the new object and the hash
    minted at its first reading. *)
Theorem generate_certificate_outcome self name name_position font_path font_size
  text_color hash_position qr_position qr_size w r :
  (generate_certificate self name name_position font_path font_size text_color
     hash_position qr_position qr_size w).2 = inr r ->
  exists g,
    generators w !! self = Some g /\
    forallb is_scalar (name ++ event_name g) = true /\
    qr_modules (Json.dumps
                  (verification_data (minted g name (clock w (ticks w))) name
                     (event_name g) (strftime (clock w (S (ticks w))))))
    <> None /\
    1 <= qr_size /\
    r = (fresh (dom (images w)), minted g name (clock w (ticks w))) /\
    ticks (generate_certificate self name name_position font_path font_size
             text_color hash_position qr_position qr_size w).1
    = S (S (ticks w)).
Proof.
  rewrite generate_certificate_run. unfold render.
  destruct (generators w !! self) as [g|] eqn:Hg; [| done].
  destruct (images w !! template g) as [tpl|] eqn:Ht; [| done].
  unfold encode. rewrite app_assoc, forallb_app.
  rewrite (ascii_forallb_scalar _ (isoformat_ascii _)), andb_true_r.
  destruct (forallb is_scalar (name ++ event_name g)) eqn:Hs; [| done].
  cbv zeta. rewrite <- app_assoc.
  change (SHA256.hexdigest (flat_map utf8_char
            (name ++ event_name g ++ isoformat (clock w (ticks w)))))
    with (minted g name (clock w (ticks w))).
  destruct (qr_modules _) as [mods|] eqn:Hq; [| done].
  destruct (resize _ _ _) as [qr|] eqn:Hr; [| done].
  cbn [fst snd]. intros [= <-]. exists g.
  split; [done |]. split; [done |]. split; [by (try rewrite Hq) |].
  split; [| split; [done | reflexivity]].
  unfold resize in Hr. destruct (Z.ltb_spec qr_size 1) as [Hlt | Hge]; [done | lia].
Qed.

End RenderOutcomes.

(** ** The constructor and the writers *)

Lemma removelast_ne {A} (p : list A) : p <> [] -> removelast p <> p.
Proof.
  intros Hne Heq. apply (f_equal length) in Heq. revert Heq.
  induction p as [|a p IH]; [done |].
  destruct p as [|b p]; [done |].
  change (removelast (a :: b :: p)) with (a :: removelast (b :: p)).
  cbn [length] in *. intros Heq. apply IH; [done | lia].
Qed.

Lemma write_file_run path content w :
  resolve path <> [] ->
  is_dir (fs w) (removelast (resolve path)) = true ->
  fs w !! resolve path <> Some Dir ->
  write_file path content w
  = (set_fs (insert (resolve path) (File content)) w, inr tt).
Proof.
  intros Hne Hdir Hnd. unfold write_file. cbv zeta.
  destruct (resolve path) as [|c p] eqn:Hp; [done |].
  rewrite Hdir. cbn [negb].
  by destruct (fs w !! (c :: p)) as [[|old]|].
Qed.

Lemma write_file_fail path content w e :
  (write_file path content w).2 = inl e -> (write_file path content w).1 = w.
Proof.
  unfold write_file. cbv zeta.
  destruct (resolve path) as [|c p]; [done |].
  destruct (negb _); [done |].
  by destruct (fs w !! (c :: p)) as [[|old]|].
Qed.

(** On a path of plain names [resolve] keeps every component. *)
Lemma split_sep_ne s cur : split_sep s cur <> [].
Proof.
  revert cur. induction s as [|c s IH]; intros cur; cbn [split_sep]; [done |].
  destruct (c =? sep)%N; [done | apply IH].
Qed.

Lemma resolve_names comps acc :
  forallb name_ok comps = true ->
  fold_left (fun acc c =>
               if bool_decide (c = []) || is_dot c then acc
               else if is_dotdot c then removelast acc
               else acc ++ [c]) comps acc
  = acc ++ comps.
Proof.
  revert acc. induction comps as [|c comps IH]; intros acc Hok; cbn [fold_left].
  - by rewrite app_nil_r.
  - cbn [forallb] in Hok. apply andb_true_iff in Hok as [Hc Hok].
    unfold name_ok in Hc. rewrite !andb_true_iff, !negb_true_iff in Hc.
    destruct Hc as [[[[-> ->] ->] _] _]. cbn [orb].
    rewrite IH by done. by rewrite <- app_assoc.
Qed.

Lemma resolve_plain p :
  plain_path p = true -> resolve p = split_sep p [] /\ resolve p <> [].
Proof.
  unfold plain_path. intros [Hok _]%andb_true_iff.
  assert (resolve p = split_sep p []) as Heq
    by (unfold resolve; by rewrite resolve_names).
  split; [done |]. rewrite Heq. apply split_sep_ne.
Qed.

Section WriterFacts.
Context `{Platform}.

(** X7: the constructor on a relative path of plain names.  When the path
    names a regular file that the decoder accepts, the call returns a new
    generator: it has made exactly one image object, the template, and
    the generator records the event name and the width and height of the
    template; nothing else has changed.  When the path names a directory
    the call raises [IsADirectoryError]; when it names nothing and no
    regular file lies on the way, [FileNotFoundError]; the world is then
    as it was. *)
Theorem init_outcome template_path event w :
  plain_path template_path = true ->
  (forall content im,
     fs w !! resolve template_path = Some (File content) ->
     decode_image content = Some im ->
     init template_path event w
     = (set_generators
          (insert (fresh (dom (generators w)))
             (mkGenerator (fresh (dom (images w))) event (im_width im)
                (im_height im)))
          (set_images (insert (fresh (dom (images w))) im) w),
        inr (fresh (dom (generators w)))) /\
     generators w !! fresh (dom (generators w)) = None /\
     images w !! fresh (dom (images w)) = None) /\
  (fs w !! resolve template_path = Some Dir ->
   init template_path event w = (w, inl IsADirectoryError)) /\
  (fs w !! resolve template_path = None ->
   no_file_above w template_path ->
   init template_path event w = (w, inl FileNotFoundError)).
Proof.
  intros Hplain. apply resolve_plain in Hplain as [_ Hne].
  assert (read_file template_path w
          = (w, match resolve template_path with
                | [] => inl IsADirectoryError
                | p => match fs w !! p with
                       | Some (File c) => inr c
                       | Some Dir => inl IsADirectoryError
                       | None => inl FileNotFoundError
                       end
                end)) as Hread.
  { unfold read_file. destruct (resolve template_path) as [|c p]; [done |].
    by destruct (fs w !! (c :: p)) as [[|content]|]. }
  assert (forall e, read_file template_path w = (w, inl e) ->
            init template_path event w = (w, inl e)) as Hfail.
  { intros e He. unfold init, image_open.
    erewrite run_bind_err; [reflexivity |]. by erewrite run_bind_err. }
  destruct (resolve template_path) as [|c p] eqn:Hp; [done |]. clear Hne.
  split; [| split].
  - intros content im Hf Hd. rewrite Hf in Hread.
    split; [| split; [apply not_elem_of_dom, is_fresh | apply fresh_image_None]].
    unfold init, image_open.
    erewrite run_bind_ok.
    2: { erewrite run_bind_ok by exact Hread. rewrite Hd. cbn [of_option].
         erewrite run_bind_ok by reflexivity. reflexivity. }
    erewrite run_bind_ok.
    2: { rewrite get_image_run. cbn [images set_images].
         by rewrite lookup_insert_eq. }
    reflexivity.
  - intros Hf. rewrite Hf in Hread. by apply Hfail.
  - intros Hf _. rewrite Hf in Hread. by apply Hfail.
Qed.

(** X8: for a relative path of plain names: when the certificate object
    exists, the target is not a directory and its directory exists,
    [save_as_pdf] returns, and afterwards the file at the path holds the
    PDF made from the PNG encoding of the image (converted to RGB first
    unless its mode is RGB already), replacing whatever file was there; no
    other path changes and the image object itself is as before. *)
Theorem save_as_pdf_writes self image output_path w im pdf :
  images w !! image = Some im ->
  plain_path output_path = true ->
  is_dir (fs w) (removelast (resolve output_path)) = true ->
  fs w !! resolve output_path <> Some Dir ->
  img2pdf_convert
    (png_encode (if bool_decide (im_mode im ≠ lit "RGB") then convert_rgb im else im))
  = Some pdf ->
  save_as_pdf self image output_path w
  = (set_fs (insert (resolve output_path) (File pdf)) w, inr tt) /\
  images (save_as_pdf self image output_path w).1 = images w /\
  fs (save_as_pdf self image output_path w).1 !! resolve output_path = Some (File pdf) /\
  (forall p, p <> resolve output_path ->
     fs (save_as_pdf self image output_path w).1 !! p = fs w !! p).
Proof.
  intros Him [_ Hne]%resolve_plain Hdir Hnd Hpdf.
  assert (save_as_pdf self image output_path w
          = (set_fs (insert (resolve output_path) (File pdf)) w, inr tt)) as Hrun.
  { unfold save_as_pdf.
    erewrite run_bind_ok by (by rewrite get_image_run, Him). cbv zeta.
    erewrite run_bind_ok by (by apply write_file_run).
    rewrite Hpdf. cbn [of_option].
    erewrite run_bind_ok by reflexivity.
    rewrite write_file_run.
    - unfold set_fs. cbn [images generators clock ticks fs stdout].
      by rewrite insert_insert_eq.
    - done.
    - unfold is_dir in *. cbn [fs set_fs].
      destruct (removelast (resolve output_path)) as [|c q] eqn:Hq; [done |].
      rewrite lookup_insert_ne; [done |].
      intros Heq. apply (removelast_ne (resolve output_path)); [done |].
      by rewrite Hq.
    - cbn [fs set_fs]. by rewrite lookup_insert_eq. }
  rewrite Hrun. cbn [fst images fs set_fs].
  split; [done |]. split; [done |]. split; [apply lookup_insert_eq |].
  intros p Hp. by rewrite lookup_insert_ne.
Qed.

(** X9: [save_as_pdf] opens the file before it converts the image; the
    path is a relative path of plain names.  When the conversion fails
    the call raises and leaves an empty file at the path (an earlier file
    there has lost its content).  When the directory of the path does not
    exist, and no regular file lies on the way to it, the call raises
    [FileNotFoundError] and the world is as before. *)
Theorem save_as_pdf_failures self image output_path w im :
  images w !! image = Some im ->
  plain_path output_path = true ->
  (is_dir (fs w) (removelast (resolve output_path)) = false ->
   no_file_above w output_path ->
   save_as_pdf self image output_path w = (w, inl FileNotFoundError)) /\
  (is_dir (fs w) (removelast (resolve output_path)) = true ->
   fs w !! resolve output_path <> Some Dir ->
   img2pdf_convert
     (png_encode (if bool_decide (im_mode im ≠ lit "RGB") then convert_rgb im else im))
   = None ->
   exists e,
     save_as_pdf self image output_path w
     = (set_fs (insert (resolve output_path) (File [])) w, inl e)).
Proof.
  intros Him [_ Hne]%resolve_plain. split.
  - intros Hdir _. unfold save_as_pdf.
    erewrite run_bind_ok by (by rewrite get_image_run, Him). cbv zeta.
    erewrite run_bind_err; [reflexivity |].
    unfold write_file. cbv zeta.
    destruct (resolve output_path) as [|c p]; [done |]. by rewrite Hdir.
  - intros Hdir Hnd Hpdf. exists ImageOpenError. unfold save_as_pdf.
    erewrite run_bind_ok by (by rewrite get_image_run, Him). cbv zeta.
    erewrite run_bind_ok by (by apply write_file_run).
    rewrite Hpdf. cbn [of_option].
    erewrite run_bind_err; reflexivity.
Qed.

End WriterFacts.

(** ** The batch as a whole *)

Lemma evolves_refl w : evolves w w.
Proof. split_and!; try done. apply fs_grows_refl. Qed.

Lemma evolves_trans w1 w2 w3 : evolves w1 w2 -> evolves w2 w3 -> evolves w1 w3.
Proof.
  intros (G1 & C1 & I1 & F1) (G2 & C2 & I2 & F2).
  split; [congruence |]. split; [congruence |]. split; [by auto |].
  by eapply fs_grows_trans.
Qed.

Lemma evolves_bind {A B} (m : M A) (k : A -> M B) w :
  evolves w (m w).1 -> (forall a w1, evolves w1 (k a w1).1) ->
  evolves w ((m ≫= k) w).1.
Proof.
  intros Hm Hk. unfold mbind, M_bind.
  destruct (m w) as [w1 [e | a]]; [done |].
  eapply evolves_trans; [exact Hm | apply Hk].
Qed.

Lemma write_file_evolves path content w : evolves w (write_file path content w).1.
Proof.
  destruct (write_file path content w) as [w' [e | []]] eqn:Hw.
  - pose proof (write_file_fail path content w e) as Hf. rewrite Hw in Hf.
    cbn [fst snd] in *. rewrite Hf by done. apply evolves_refl.
  - pose proof (write_file_grows _ _ _ _ Hw) as [Hg _].
    apply write_file_inv in Hw as [-> _]. by split_and!.
Qed.

Lemma get_image_evolves {B} l (k : Image -> M B) w :
  (forall im w1, evolves w1 (k im w1).1) -> evolves w ((get_image l ≫= k) w).1.
Proof.
  intros Hk. apply evolves_bind; [| done].
  rewrite get_image_run. apply evolves_refl.
Qed.

Lemma mkdirs_idem ps w :
  Forall (fun p => fs w !! p = Some Dir) ps -> mkdirs ps w = (w, inr tt).
Proof.
  induction 1 as [|p ps Hp _ IH]; cbn [mkdirs]; [done |]. by rewrite Hp.
Qed.

Lemma mkdirs_success ps w :
  (mkdirs ps w).2 = inr tt ->
  Forall (fun p => fs (mkdirs ps w).1 !! p = Some Dir) ps.
Proof.
  revert w. induction ps as [|q ps IH]; intros w; cbn [mkdirs]; [by constructor |].
  destruct (fs w !! q) as [[|c]|] eqn:Hq; [| done |].
  - intros Hok. apply Forall_cons. split; [| by apply IH].
    by apply (mkdirs_frame ps w).
  - intros Hok. apply Forall_cons. split; [| by apply IH].
    apply (mkdirs_frame ps (set_fs (insert q Dir) w)).
    cbn [fs set_fs]. apply lookup_insert_eq.
Qed.

Lemma makedirs_evolves output_dir w : evolves w (makedirs output_dir w).1.
Proof.
  destruct (makedirs_frame output_dir w) as (_ & Hg & Hc & _ & _ & Hkeep & _).
  split; [done |]. split; [done |]. split.
  - destruct (makedirs_frame output_dir w) as (Hi & _). intros l im. by rewrite Hi.
  - split; [intros p c Hp; eauto | intros p Hp; eauto].
Qed.

Section BatchWhole.
Context `{Platform}.

Lemma render_evolves self name name_position font_path font_size text_color
  hash_position qr_position qr_size w :
  evolves w (generate_certificate self name name_position font_path font_size
               text_color hash_position qr_position qr_size w).1.
Proof.
  rewrite generate_certificate_run.
  assert (forall im n, evolves w (rendered w (fresh (dom (images w))) im n
                                    font_path font_size)) as Hr.
  { intros im n. unfold rendered.
    split; [done |]. split; [done |]. split; [| split; cbn [fs]; eauto].
    intros l x Hl. cbn [images]. rewrite lookup_insert_ne; [done |].
    intros <-. by rewrite fresh_image_None in Hl. }
  unfold render.
  destruct (generators w !! self) as [g|]; [| apply evolves_refl].
  destruct (images w !! template g) as [tpl|]; [| apply evolves_refl].
  destruct (encode _) as [bytes|]; [| apply Hr].
  destruct (qr_modules _) as [mods|]; [| apply Hr].
  destruct (resize _ _ _) as [qr|]; apply Hr.
Qed.

Lemma save_as_pdf_evolves self image path w :
  evolves w (save_as_pdf self image path w).1.
Proof.
  unfold save_as_pdf. apply get_image_evolves. intros im w1. cbv zeta.
  apply evolves_bind; [apply write_file_evolves |]. intros _ w2.
  apply evolves_bind.
  - destruct (img2pdf_convert _); apply evolves_refl.
  - intros pdf w3. apply write_file_evolves.
Qed.

Lemma image_save_evolves image path w : evolves w (image_save image path w).1.
Proof.
  unfold image_save. apply get_image_evolves. intros im w1.
  apply write_file_evolves.
Qed.

Lemma save_step_evolves self cert output_dir as_pdf attendee w :
  evolves w (save_step self cert output_dir as_pdf attendee w).1.
Proof.
  unfold save_step. destruct as_pdf.
  - apply evolves_bind; [apply save_as_pdf_evolves |]. intros. apply evolves_refl.
  - apply evolves_bind; [apply image_save_evolves |]. intros. apply evolves_refl.
Qed.

Lemma batch_loop_evolves self attendees output_dir name_position font_path
  font_size text_color hash_position qr_position qr_size as_pdf :
  forall results w,
    evolves w (batch_loop self attendees output_dir name_position font_path
                 font_size text_color hash_position qr_position qr_size as_pdf
                 results w).1.
Proof.
  induction attendees as [|a rest IH]; intros results w.
  - apply evolves_refl.
  - rewrite batch_loop_unfold.
    apply evolves_bind; [apply render_evolves |]. intros r w1.
    apply evolves_bind; [apply save_step_evolves |]. intros p w2. apply IH.
Qed.

(** X10: whatever the attendees and however the batch ends, the generator
    objects, the template among the image objects that existed, and the
    clock are as before; in the file system nothing has been removed: a
    path that named a file names a file, a directory is still a
    directory. *)
Theorem batch_generate_keeps self attendees output_dir name_position font_path
  font_size text_color hash_position qr_position qr_size as_pdf w :
  generators (batch_generate self attendees output_dir name_position font_path
                font_size text_color hash_position qr_position qr_size as_pdf w).1
  = generators w /\
  (forall l im, images w !! l = Some im ->
     images (batch_generate self attendees output_dir name_position font_path
               font_size text_color hash_position qr_position qr_size as_pdf w).1
       !! l = Some im) /\
  (forall p c, fs w !! p = Some (File c) ->
     exists c',
       fs (batch_generate self attendees output_dir name_position font_path
             font_size text_color hash_position qr_position qr_size as_pdf w).1
         !! p = Some (File c')) /\
  (forall p, fs w !! p = Some Dir ->
     fs (batch_generate self attendees output_dir name_position font_path
           font_size text_color hash_position qr_position qr_size as_pdf w).1
       !! p = Some Dir).
Proof.
  assert (evolves w (batch_generate self attendees output_dir name_position
                       font_path font_size text_color hash_position qr_position
                       qr_size as_pdf w).1) as (Hg & _ & Hi & Hf & Hd).
  { unfold batch_generate. apply evolves_bind; [apply makedirs_evolves |].
    intros _ w1. apply batch_loop_evolves. }
  done.
Qed.

Lemma batch_loop_results self attendees output_dir name_position font_path
  font_size text_color hash_position qr_position qr_size as_pdf :
  forall results w,
    batch_loop self attendees output_dir name_position font_path font_size
      text_color hash_position qr_position qr_size as_pdf results w
    = ((batch_loop self attendees output_dir name_position font_path font_size
          text_color hash_position qr_position qr_size as_pdf [] w).1,
       match (batch_loop self attendees output_dir name_position font_path
                font_size text_color hash_position qr_position qr_size as_pdf
                [] w).2 with
       | inl e => inl e
       | inr new => inr (results ++ new)
       end).
Proof.
  induction attendees as [|a rest IH]; intros results w.
  - cbn [batch_loop]. unfold mret, M_ret. cbn [fst snd]. by rewrite app_nil_r.
  - rewrite !batch_loop_unfold. unfold mbind, M_bind.
    destruct (generate_certificate _ _ _ _ _ _ _ _ _ w) as [w1 [e | r]]; [done |].
    destruct (save_step _ _ _ _ _ w1) as [w2 [e | p]]; [done |].
    rewrite (IH (results ++ _)), (IH ([] ++ _)).
    destruct (batch_loop _ _ _ _ _ _ _ _ _ _ _ [] w2) as [w3 [e | new]];
      cbn [fst snd]; [done |].
    by rewrite <- app_assoc.
Qed.

Lemma batch_loop_app self l1 l2 output_dir name_position font_path
  font_size text_color hash_position qr_position qr_size as_pdf :
  forall results w,
    batch_loop self (l1 ++ l2) output_dir name_position font_path font_size
      text_color hash_position qr_position qr_size as_pdf results w
    = match batch_loop self l1 output_dir name_position font_path font_size
              text_color hash_position qr_position qr_size as_pdf results w with
      | (w1, inl e) => (w1, inl e)
      | (w1, inr results1) =>
          batch_loop self l2 output_dir name_position font_path font_size
            text_color hash_position qr_position qr_size as_pdf results1 w1
      end.
Proof.
  induction l1 as [|a l1 IH]; intros results w.
  - reflexivity.
  - cbn [app]. rewrite !batch_loop_unfold. unfold mbind, M_bind.
    destruct (generate_certificate _ _ _ _ _ _ _ _ _ w) as [w1 [e | r]]; [done |].
    destruct (save_step _ _ _ _ _ w1) as [w2 [e | p]]; [done |].
    apply IH.
Qed.

(** What a returning batch leaves: the output directory exists. *)
Lemma batch_generate_loop self attendees output_dir name_position font_path
  font_size text_color hash_position qr_position qr_size as_pdf w w' results :
  batch_generate self attendees output_dir name_position font_path font_size
    text_color hash_position qr_position qr_size as_pdf w = (w', inr results) ->
  (makedirs output_dir w).2 = inr tt /\
  batch_loop self attendees output_dir name_position font_path font_size
    text_color hash_position qr_position qr_size as_pdf []
    (makedirs output_dir w).1 = (w', inr results) /\
  makedirs output_dir w' = (w', inr tt).
Proof.
  rewrite batch_generate_run.
  destruct (makedirs output_dir w) as [wm [e | []]] eqn:Hmk; [done |].
  cbn [fst snd]. intros Hloop. split; [done |]. split; [done |].
  pose proof (batch_loop_evolves self attendees output_dir name_position font_path
                font_size text_color hash_position qr_position qr_size as_pdf [] wm)
    as (_ & _ & _ & _ & Hdirs).
  rewrite Hloop in Hdirs. cbn [fst] in Hdirs.
  unfold makedirs in *. destruct output_dir as [|c l]; [done |].
  apply mkdirs_idem.
  pose proof (mkdirs_success (ancestors [] (resolve (c :: l))) w) as Hs.
  rewrite Hmk in Hs. cbn [fst snd] in Hs.
  eapply Forall_impl; [apply Hs; done |]. intros p Hp. by apply Hdirs.
Qed.

(** X11: a batch can be run in two parts.  When the batch of a first list
    returns and, from the world it leaves, the batch of a second list for
    the same directory returns, then the batch of the two lists in a row
    returns the records of the first followed by the records of the
    second and leaves the same world. *)
Theorem batch_generate_in_parts self l1 l2 output_dir name_position font_path
  font_size text_color hash_position qr_position qr_size as_pdf w w1 w2 r1 r2 :
  batch_generate self l1 output_dir name_position font_path font_size
    text_color hash_position qr_position qr_size as_pdf w = (w1, inr r1) ->
  batch_generate self l2 output_dir name_position font_path font_size
    text_color hash_position qr_position qr_size as_pdf w1 = (w2, inr r2) ->
  batch_generate self (l1 ++ l2) output_dir name_position font_path font_size
    text_color hash_position qr_position qr_size as_pdf w = (w2, inr (r1 ++ r2)).
Proof.
  intros H1 H2.
  apply batch_generate_loop in H1 as (Hmk & Hloop1 & Hmk1).
  rewrite batch_generate_run, Hmk1 in H2. cbn [fst snd] in H2.
  rewrite batch_generate_run, Hmk, batch_loop_app, Hloop1.
  rewrite batch_loop_results, H2. reflexivity.
Qed.

(** X12: the first failure ends the batch.  When the batch of a first list
    returns and the render of the next attendee raises, the batch of the
    whole list raises the same exception and no record is returned; the
    attendees after the failure are not processed, and the files written
    for the first list are still there. *)
Theorem batch_generate_aborts self l1 a l2 output_dir name_position font_path
  font_size text_color hash_position qr_position qr_size as_pdf w w1 r1 e :
  batch_generate self l1 output_dir name_position font_path font_size
    text_color hash_position qr_position qr_size as_pdf w = (w1, inr r1) ->
  (generate_certificate self a name_position font_path font_size text_color
     hash_position qr_position qr_size w1).2 = inl e ->
  batch_generate self (l1 ++ a :: l2) output_dir name_position font_path font_size
    text_color hash_position qr_position qr_size as_pdf w
  = ((generate_certificate self a name_position font_path font_size text_color
        hash_position qr_position qr_size w1).1, inl e) /\
  fs (generate_certificate self a name_position font_path font_size text_color
        hash_position qr_position qr_size w1).1 = fs w1 /\
  Forall (fun r => is_file w1 (info_path r)) r1.
Proof.
  intros H1 Hfail.
  assert (Forall (fun r => is_file w1 (info_path r)) r1) as Hfiles.
  { pose proof H1 as H1'. rewrite batch_generate_run in H1'.
    destruct (makedirs output_dir w) as [wm [e0 | []]]; [done |]. cbn [fst snd] in H1'.
    destruct l1 as [|b l1].
    - injection H1' as <- <-. by constructor.
    - pose proof H1' as Hl. rewrite batch_loop_unfold in Hl.
      apply run_bind_inv in Hl as ([cert h] & w3 & Hr & _).
      apply generate_certificate_inv in Hr as (g & tpl & bytes & mods & qr & Hg & _).
      apply (batch_loop_inv _ _ _ _ _ _ _ _ _ _ _ g) in H1'
        as (-> & _ & _ & _ & _ & Hf); [| done].
      cbn [app]. by apply batch_records_files. }
  apply batch_generate_loop in H1 as (Hmk & Hloop1 & _).
  split; [| split; [| done]].
  - rewrite batch_generate_run, Hmk, batch_loop_app, Hloop1, batch_loop_unfold.
    unfold mbind, M_bind.
    destruct (generate_certificate _ _ _ _ _ _ _ _ _ w1) as [w3 [e0 | r]];
      cbn [fst snd] in *; [by injection Hfail as -> | done].
  - rewrite generate_certificate_run. unfold render.
    destruct (generators w1 !! self) as [g|]; [| done].
    destruct (images w1 !! template g) as [tpl|]; [| done].
    destruct (encode _) as [bytes|]; [| done].
    destruct (qr_modules _) as [mods|]; [| done].
    by destruct (resize _ _ _) as [qr|].
Qed.

End BatchWhole.

(** ** Fetching a font

    *** Paths below a directory *)

Local Open Scope N_scope.

Lemma split_sep_plain b cur : sep ∉ b -> split_sep b cur = [cur ++ b].
Proof.
  revert cur. induction b as [|c b IH]; intros cur Hb; cbn [split_sep].
  - by rewrite app_nil_r.
  - apply not_elem_of_cons in Hb as [Hc Hb].
    destruct (N.eqb_spec c sep) as [-> | _]; [done |].
    rewrite IH by done. by rewrite <- app_assoc.
Qed.

Lemma split_sep_app a b cur :
  split_sep (a ++ sep :: b) cur = split_sep a cur ++ split_sep b [].
Proof.
  revert cur. induction a as [|c a IH]; intros cur; cbn [split_sep app].
  - by rewrite N.eqb_refl.
  - destruct (c =? sep); [by rewrite IH | apply IH].
Qed.

Lemma resolve_child a b : plain b -> resolve (a ++ sep :: b) = resolve a ++ [b].
Proof.
  intros (Hs & Hn & Hd & Hdd). unfold resolve.
  rewrite split_sep_app, (split_sep_plain b []) by done.
  rewrite fold_left_app. cbn [fold_left app]. unfold is_dot, is_dotdot.
  by rewrite !bool_decide_eq_false_2.
Qed.

Lemma resolve_trailing a : resolve (a ++ [sep]) = resolve a.
Proof.
  unfold resolve. rewrite split_sep_app. cbn [split_sep].
  rewrite fold_left_app. cbn [fold_left]. by rewrite bool_decide_eq_true_2.
Qed.

Lemma resolve_join a b : plain b -> resolve (path_join a b) = resolve a ++ [b].
Proof.
  intros Hb. pose proof Hb as (Hs & Hn & _). unfold path_join.
  assert (startswith_sep b = false) as ->.
  { destruct b as [|c b]; [done |]. cbn [startswith_sep].
    apply N.eqb_neq. intros ->. apply Hs. by left. }
  destruct a as [|c a].
  - cbn [orb app]. unfold resolve at 1. rewrite split_sep_plain by done.
    cbn [fold_left app]. destruct Hb as (_ & _ & Hd & Hdd).
    unfold is_dot, is_dotdot. by rewrite !bool_decide_eq_false_2.
  - cbn [orb]. unfold endswith_sep.
    destruct (last (c :: a)) as [d|] eqn:Hl.
    + destruct (N.eqb_spec d sep) as [-> | _]; [| by apply resolve_child].
      apply last_Some in Hl as [a' ->].
      rewrite resolve_trailing.
      replace ((a' ++ [sep]) ++ b) with (a' ++ sep :: b) by (by rewrite <- app_assoc).
      by apply resolve_child.
    + by apply resolve_child.
Qed.

Lemma makedirs_is_dir path w :
  (makedirs path w).2 = inr tt ->
  is_dir (fs (makedirs path w).1) (resolve path) = true.
Proof.
  unfold makedirs. destruct path as [|c l]; [done |].
  intros Hok. apply mkdirs_success in Hok.
  destruct (resolve (c :: l)) as [|d p] eqn:Hp; [done |].
  rewrite Forall_forall in Hok.
  specialize (Hok (d :: p) (ancestors_last [] (d :: p) ltac:(done))).
  unfold is_dir. by rewrite Hok.
Qed.

Lemma font_urls_plain font_name url :
  font_urls !! font_name = Some url -> plain (font_name ++ lit ".ttf").
Proof.
  unfold font_urls. cbn [list_to_map foldr uncurry fst snd].
  rewrite !lookup_insert_Some, lookup_empty.
  intros H.
  repeat (destruct H as [[<- _] | [_ H]]; [by (split_and!; [apply (bool_decide_unpack _); vm_compute | ..]) |]).
  done.
Qed.

Section DownloadFacts.
Context `{Network}.

Lemma path_exists_run path w :
  path_exists path w
  = (w, inr match path with
            | [] => false
            | _ => match resolve path with
                   | [] => true
                   | p => bool_decide (is_Some (fs w !! p))
                   end
            end).
Proof. done. Qed.

(** X13: [download_google_font] raises only what [os.makedirs] raises for
    the font directory; a failed request and a failed write are caught.
    When it returns a path, that is [font_dir/font_name.ttf], the path
    exists afterwards, nothing was printed and no other path changed.
    When it returns [None] the font was not in the directory and the file
    system is as [os.makedirs] left it; for a name outside the table
    nothing is printed, for a name of the table one line that starts with
    "Error downloading font" and the name is. *)
Theorem download_google_font_outcome self font_name font_dir w :
  let font_path := path_join font_dir (font_name ++ lit ".ttf") in
  let w1 := (makedirs font_dir w).1 in
  let r := download_google_font self font_name font_dir w in
  match r.2 with
  | inl e => (makedirs font_dir w).2 = inl e /\ r.1 = w1
  | inr (Some p) =>
      p = font_path /\ (path_exists font_path r.1).2 = inr true /\
      stdout r.1 = stdout w /\
      (forall q, q <> resolve font_path -> fs r.1 !! q = fs w1 !! q)
  | inr None =>
      (path_exists font_path w1).2 = inr false /\ fs r.1 = fs w1 /\
      match font_urls !! font_name with
      | None => stdout r.1 = stdout w
      | Some url =>
          exists text,
            stdout r.1
            = stdout w ++ [lit "Error downloading font " ++ font_name ++ lit ": " ++ text]
      end
  end.
Proof.
  intros font_path w1 r. subst r. unfold download_google_font.
  fold font_path. subst w1.
  destruct (makedirs_frame font_dir w) as (_ & _ & _ & _ & Hout & _).
  destruct (makedirs font_dir w) as [w1 [e | []]] eqn:Hmk.
  { by rewrite (run_bind_err _ _ _ _ _ Hmk). }
  rewrite (run_bind_ok _ _ _ _ _ Hmk). cbn [fst snd] in *.
  destruct (path_exists font_path w1) as [w1' [e | cached]] eqn:Hex; [done |].
  assert (w1' = w1) as -> by (by injection Hex).
  rewrite (run_bind_ok _ _ _ _ _ Hex).
  destruct cached.
  { cbn [mret M_ret fst snd]. by rewrite Hex. }
  cbn [snd].
  destruct (font_urls !! font_name) as [url|] eqn:Hurl; [| by cbn].
  destruct (http_get url) as [text | content] eqn:Hget.
  { erewrite run_bind_ok by reflexivity. cbn [mret M_ret fst snd warn stdout fs].
    split; [done |]. split; [done |]. exists text. by rewrite Hout. }
  unfold try_except.
  destruct (write_file font_path content w1) as [w2 [e | []]] eqn:Hw.
  - rewrite (run_bind_err _ _ _ _ _ Hw).
    pose proof (write_file_fail font_path content w1 e) as Hf.
    rewrite Hw in Hf. cbn [fst snd] in Hf. rewrite Hf by done.
    erewrite run_bind_ok by reflexivity. cbn [mret M_ret fst snd warn stdout fs].
    split; [done |]. split; [done |]. exists (strerror e). by rewrite Hout.
  - rewrite (run_bind_ok _ _ _ _ _ Hw). cbn [mret M_ret fst snd].
    pose proof Hw as Hw'. unfold write_file in Hw'. cbv zeta in Hw'.
    apply write_file_inv in Hw as (-> & _).
    split; [done |]. rewrite path_exists_run. cbn [fs set_fs snd].
    destruct (resolve font_path) as [|d p] eqn:Hp; [done |].
    destruct font_path as [|c l] eqn:Hfp; [done |].
    rewrite lookup_insert_eq.
    split; [by rewrite bool_decide_eq_true_2 |]. split; [done |].
    intros q Hq. by rewrite lookup_insert_ne.
Qed.

End DownloadFacts.

Lemma ancestors_length pre l q :
  q ∈ ancestors pre l -> (length q <= length pre + length l)%nat.
Proof.
  revert pre. induction l as [|c l IH]; intros pre; cbn [ancestors].
  - by intros ?%elem_of_nil.
  - intros [-> | Hq%IH]%elem_of_cons.
    + rewrite length_app. cbn [length]. lia.
    + rewrite length_app in Hq. cbn [length] in *. lia.
Qed.

Lemma mkdirs_other ps w p : p ∉ ps -> fs (mkdirs ps w).1 !! p = fs w !! p.
Proof.
  revert w. induction ps as [|q ps IH]; intros w Hp; cbn [mkdirs]; [done |].
  apply not_elem_of_cons in Hp as [Hne Hp].
  destruct (fs w !! q) as [[|c]|]; [by apply IH | done |].
  rewrite IH by done. cbn [fs set_fs]. by rewrite lookup_insert_ne.
Qed.

Lemma child_not_ancestor l b : l ++ [b] ∉ ancestors [] l.
Proof.
  intros Hin%ancestors_length. rewrite length_app in Hin. cbn [length] in Hin. lia.
Qed.

Lemma makedirs_child path b w :
  fs (makedirs path w).1 !! (resolve path ++ [b]) = fs w !! (resolve path ++ [b]).
Proof.
  unfold makedirs. destruct path as [|c l]; [done |].
  apply mkdirs_other, child_not_ancestor.
Qed.

Lemma makedirs_again path b n w :
  (makedirs path w).2 = inr tt ->
  let w' := set_fs (insert (resolve path ++ [b]) n) (makedirs path w).1 in
  makedirs path w' = (w', inr tt).
Proof.
  intros Hok w'. unfold makedirs in *. destruct path as [|c l]; [done |].
  apply mkdirs_idem. apply mkdirs_success in Hok.
  rewrite Forall_forall in *. intros q Hq. subst w'. cbn [fs set_fs].
  rewrite lookup_insert_ne; [by apply Hok |].
  intros <-. by apply child_not_ancestor in Hq.
Qed.

Lemma path_exists_below path w :
  path <> [] -> resolve path <> [] ->
  path_exists path w = (w, inr (bool_decide (is_Some (fs w !! resolve path)))).
Proof.
  intros Hp Hr. rewrite path_exists_run.
  destruct path as [|c l]; [done |]. by destruct (resolve (c :: l)).
Qed.

(** ** The attendee names of the form *)

Section AttendeeFacts.
Variable ucd : N -> bool.

Lemma lstrip_split s :
  exists pre, s = pre ++ lstrip ucd s /\ forallb (isspace ucd) pre = true.
Proof.
  induction s as [|c s (pre & Hs & Hpre)]; [by exists [] |].
  cbn [lstrip]. destruct (isspace ucd c) eqn:Hc.
  - exists (c :: pre). cbn [app forallb]. rewrite Hc, Hpre. by rewrite <- Hs.
  - by exists [].
Qed.

Lemma lstrip_head s c : head (lstrip ucd s) = Some c -> isspace ucd c = false.
Proof.
  induction s as [|d s IH]; [done |]. cbn [lstrip].
  destruct (isspace ucd d) eqn:Hd; [done |]. by intros [= <-].
Qed.

Lemma lstrip_id s :
  (forall c, head s = Some c -> isspace ucd c = false) -> lstrip ucd s = s.
Proof. destruct s as [|c s]; [done |]. intros Hc. cbn [lstrip]. by rewrite Hc. Qed.

Lemma lstrip_nil s : lstrip ucd s = [] <-> forallb (isspace ucd) s = true.
Proof.
  induction s as [|c s IH]; [done |]. cbn [lstrip forallb].
  destruct (isspace ucd c); [done |]. by split.
Qed.

Lemma rstrip_split s :
  exists post, s = rstrip ucd s ++ post /\ forallb (isspace ucd) post = true.
Proof.
  destruct (lstrip_split (rev s)) as (pre & Hs & Hpre).
  exists (rev pre). split.
  - unfold rstrip. rewrite <- rev_app_distr, <- Hs. by rewrite rev_involutive.
  - rewrite forallb_forall in *. intros c Hc. apply Hpre. by apply in_rev.
Qed.

Lemma head_rev {A} (s : list A) : head (rev s) = last s.
Proof. rewrite rev_alt. apply head_reverse. Qed.

Lemma last_rev {A} (s : list A) : last (rev s) = head s.
Proof. rewrite rev_alt. apply last_reverse. Qed.

Lemma rstrip_last s c : last (rstrip ucd s) = Some c -> isspace ucd c = false.
Proof. unfold rstrip. rewrite last_rev. apply lstrip_head. Qed.

Lemma rstrip_id s :
  (forall c, last s = Some c -> isspace ucd c = false) -> rstrip ucd s = s.
Proof.
  intros Hc. unfold rstrip. rewrite lstrip_id; [apply rev_involutive |].
  intros c. rewrite head_rev. apply Hc.
Qed.

Lemma rstrip_nil s : rstrip ucd s = [] <-> forallb (isspace ucd) s = true.
Proof.
  unfold rstrip. split.
  - intros Hr. apply (f_equal (@rev N)) in Hr. rewrite rev_involutive in Hr.
    cbn [rev] in Hr. apply lstrip_nil in Hr.
    rewrite forallb_forall in *. intros c Hc. apply Hr. by apply in_rev in Hc.
  - intros Hs. assert (lstrip ucd (rev s) = []) as ->; [| done].
    apply lstrip_nil. rewrite forallb_forall in *. intros c Hc. apply Hs.
    by apply in_rev.
Qed.

(** [strip] cuts white space off both ends and nothing else. *)
Lemma strip_split s :
  exists pre post, s = pre ++ strip ucd s ++ post /\
    forallb (isspace ucd) pre = true /\ forallb (isspace ucd) post = true.
Proof.
  destruct (lstrip_split s) as (pre & Hs & Hpre).
  destruct (rstrip_split (lstrip ucd s)) as (post & Ht & Hpost).
  exists pre, post. unfold strip. by rewrite <- Ht.
Qed.

Lemma strip_nil s : strip ucd s = [] <-> forallb (isspace ucd) s = true.
Proof.
  split.
  - intros Hs. destruct (strip_split s) as (pre & post & Heq & Hpre & Hpost).
    rewrite Heq, Hs, !forallb_app, Hpre, Hpost. done.
  - intros Hs. unfold strip. apply rstrip_nil.
    destruct (lstrip_split s) as (pre & Heq & _).
    rewrite Heq, forallb_app in Hs. by apply andb_true_iff in Hs as [_ ?].
Qed.

Lemma strip_head s c : head (strip ucd s) = Some c -> isspace ucd c = false.
Proof.
  unfold strip. intros Hh.
  destruct (rstrip_split (lstrip ucd s)) as (post & Ht & _).
  apply (lstrip_head s). rewrite Ht, head_app, Hh. done.
Qed.

Lemma strip_last s c : last (strip ucd s) = Some c -> isspace ucd c = false.
Proof. apply rstrip_last. Qed.

Lemma strip_id s :
  (forall c, head s = Some c -> isspace ucd c = false) ->
  (forall c, last s = Some c -> isspace ucd c = false) -> strip ucd s = s.
Proof. intros Hh Hl. unfold strip. rewrite lstrip_id by done. by apply rstrip_id. Qed.

Lemma split_lines_pieces s cur :
  (10 ∉ cur) -> Forall (fun piece => 10 ∉ piece) (split_lines s cur).
Proof.
  revert cur. induction s as [|c s IH]; intros cur Hcur; cbn [split_lines].
  - by repeat constructor.
  - destruct (N.eqb_spec c 10) as [-> | Hc].
    + constructor; [done |]. apply IH. by intros ?%elem_of_nil.
    + apply IH. rewrite elem_of_app, list_elem_of_singleton. intros [? | ?]; [done | congruence].
Qed.

Lemma split_lines_cur s cur :
  split_lines s cur
  = match split_lines s [] with
    | first :: rest => (cur ++ first) :: rest
    | [] => []
    end.
Proof.
  revert cur. induction s as [|c s IH]; intros cur; cbn [split_lines].
  - by rewrite app_nil_r.
  - destruct (c =? 10); [by rewrite app_nil_r |].
    rewrite (IH (cur ++ [c])), (IH ([] ++ [c])).
    destruct (split_lines s []); [done |]. by rewrite <- app_assoc.
Qed.

Lemma split_lines_line name s cur :
  (10 ∉ name) -> split_lines (name ++ 10 :: s) cur = (cur ++ name) :: split_lines s [].
Proof.
  revert cur. induction name as [|c name IH]; intros cur Hn; cbn [split_lines app].
  - by rewrite app_nil_r.
  - apply not_elem_of_cons in Hn as [Hc Hn].
    destruct (N.eqb_spec c 10) as [-> | _]; [done |].
    rewrite IH by done. by rewrite <- app_assoc.
Qed.

Lemma split_lines_last name cur : (10 ∉ name) -> split_lines name cur = [cur ++ name].
Proof.
  revert cur. induction name as [|c name IH]; intros cur Hn; cbn [split_lines app].
  - by rewrite app_nil_r.
  - apply not_elem_of_cons in Hn as [Hc Hn].
    destruct (N.eqb_spec c 10) as [-> | _]; [done |].
    rewrite IH by done. by rewrite <- app_assoc.
Qed.

Lemma split_join names :
  names <> [] -> Forall (fun name => 10 ∉ name) names ->
  split_lines (join_lines names) [] = names.
Proof.
  destruct names as [|first rest]; [done |]. intros _ Hall. cbn [join_lines].
  revert first Hall. induction rest as [|second rest IH]; intros first Hall.
  - cbn [flat_map]. rewrite app_nil_r. apply split_lines_last.
    by apply Forall_cons in Hall as [? _].
  - cbn [flat_map]. apply Forall_cons in Hall as [Hf Hall].
    rewrite <- app_comm_cons, split_lines_line by done.
    f_equal. by apply IH.
Qed.

Lemma strip_sub s c : c ∈ strip ucd s -> c ∈ s.
Proof.
  intros Hc. destruct (strip_split s) as (pre & post & Heq & _).
  rewrite Heq, !elem_of_app. auto.
Qed.

Lemma split_lines_covers s cur c :
  c ∈ cur ++ s -> c <> 10 -> exists piece, piece ∈ split_lines s cur /\ c ∈ piece.
Proof.
  revert cur. induction s as [|d s IH]; intros cur Hc Hne; cbn [split_lines].
  - exists cur. rewrite app_nil_r in Hc. split; [by left | done].
  - destruct (N.eqb_spec d 10) as [-> | Hd].
    + apply elem_of_app in Hc as [Hc | Hc].
      * exists cur. split; [by left | done].
      * apply elem_of_cons in Hc as [-> | Hc]; [done |].
        destruct (IH [] Hc Hne) as (piece & Hp & Hin).
        exists piece. split; [by right | done].
    + apply IH; [| done]. by rewrite <- app_assoc.
Qed.


(** X16: names that are not empty, hold no line break and have no white
    space at either end, typed one per line, are loaded as they are: the
    same names in the same order, repeated names included. *)
Theorem load_attendees_join names :
  names <> [] -> Forall (clean_name ucd) names ->
  load_attendees ucd (join_lines names) = Some names.
Proof.
  intros Hne Hall. unfold load_attendees.
  rewrite split_join; [| done | by eapply Forall_impl; [exact Hall |]; intros ? (_ & ? & _)].
  assert (filter (fun name => strip ucd name <> []) names = names) as ->.
  { clear Hne. induction Hall as [|name names (Hn & _ & Hh & Hl) _ IH]; [done |].
    rewrite filter_cons_True by (by rewrite strip_id). by rewrite IH. }
  assert (map (strip ucd) names = names) as ->.
  { clear Hne. induction Hall as [|name names (Hn & _ & Hh & Hl) _ IH]; [done |].
    cbn [map]. rewrite IH. by rewrite strip_id. }
  destruct (strip ucd (join_lines names)) eqn:Hs; [| done].
  apply strip_nil in Hs. destruct names as [|first rest]; [done |].
  apply Forall_cons in Hall as [(Hn & _ & Hh & _) _].
  destruct first as [|c first]; [done |].
  cbn [join_lines app forallb] in Hs. rewrite (Hh c) in Hs; done.
Qed.

End AttendeeFacts.
(** ** Where a batch writes *)

Lemma same_outside_refl S w : same_outside S w w.
Proof. by intros q _. Qed.

Lemma same_outside_trans S w1 w2 w3 :
  same_outside S w1 w2 -> same_outside S w2 w3 -> same_outside S w1 w3.
Proof. intros H1 H2 q Hq. by rewrite H2, H1. Qed.

Lemma same_outside_bind {A B} S (m : M A) (k : A -> M B) w :
  same_outside S w (m w).1 -> (forall a w1, same_outside S w1 (k a w1).1) ->
  same_outside S w ((m ≫= k) w).1.
Proof.
  intros Hm Hk. unfold mbind, M_bind.
  destruct (m w) as [w1 [e | a]]; [done |].
  eapply same_outside_trans; [exact Hm | apply Hk].
Qed.

Lemma write_file_outside (S : list (list N) -> Prop) path content w :
  S (resolve path) -> same_outside S w (write_file path content w).1.
Proof.
  intros HS. destruct (write_file path content w) as [w' [e | []]] eqn:Hw.
  - pose proof (write_file_fail path content w e) as Hf. rewrite Hw in Hf.
    cbn [fst snd] in *. rewrite Hf by done. apply same_outside_refl.
  - apply write_file_inv in Hw as [-> _]. intros q Hq. cbn [fst fs set_fs].
    rewrite lookup_insert_ne; [done |]. by intros <-.
Qed.

Lemma safe_char_sep ucd c : safe_char ucd c <> sep.
Proof.
  unfold safe_char. destruct (N.eqb_spec c sep) as [-> | Hc]; [done |].
  by destruct (_ || _).
Qed.

Lemma safe_name_plain ucd attendee as_pdf :
  plain (safe_name ucd attendee ++ extension as_pdf).
Proof.
  assert (sep ∉ safe_name ucd attendee) as Hs.
  { unfold safe_name. intros Hin. apply list_elem_of_In, in_map_iff in Hin as (c & Hc & _).
    by apply (safe_char_sep ucd c). }
  assert (sep ∉ extension as_pdf) as He
    by (destruct as_pdf; apply (bool_decide_unpack _); vm_compute; done).
  assert (4 <= length (safe_name ucd attendee ++ extension as_pdf))%nat as Hlen.
  { rewrite length_app. destruct as_pdf; cbn [extension lit length]; cbn; lia. }
  split_and!.
  - rewrite elem_of_app. tauto.
  - intros Heq. rewrite Heq in Hlen. cbn in Hlen. lia.
  - intros Heq. rewrite Heq in Hlen. cbn in Hlen. lia.
  - intros Heq. rewrite Heq in Hlen. cbn in Hlen. lia.
Qed.

Section Confined.
Context `{Platform}.

Lemma render_outside S self name name_position font_path font_size text_color
  hash_position qr_position qr_size w :
  same_outside S w (generate_certificate self name name_position font_path font_size
                      text_color hash_position qr_position qr_size w).1.
Proof.
  rewrite generate_certificate_run. unfold render.
  destruct (generators w !! self) as [g|]; [| apply same_outside_refl].
  destruct (images w !! template g) as [tpl|]; [| apply same_outside_refl].
  destruct (encode _) as [bytes|]; [| done].
  destruct (qr_modules _) as [mods|]; [| done].
  by destruct (resize _ _ _) as [qr|].
Qed.

Lemma save_step_outside (S : list (list N) -> Prop) self cert output_dir as_pdf
  attendee w :
  S (resolve output_dir ++ [safe_name ucd_isalnum attendee ++ extension as_pdf]) ->
  same_outside S w (save_step self cert output_dir as_pdf attendee w).1.
Proof.
  intros HS. rewrite <- (resolve_join output_dir) in HS by apply safe_name_plain.
  unfold save_step. destruct as_pdf; cbn [extension] in HS.
  - apply same_outside_bind; [| intros; apply same_outside_refl].
    unfold save_as_pdf. apply same_outside_bind.
    { rewrite get_image_run. apply same_outside_refl. }
    intros im w1. cbv zeta.
    apply same_outside_bind; [by apply write_file_outside |]. intros _ w2.
    apply same_outside_bind.
    + destruct (img2pdf_convert _); apply same_outside_refl.
    + intros pdf w3. by apply write_file_outside.
  - apply same_outside_bind; [| intros; apply same_outside_refl].
    unfold image_save. apply same_outside_bind.
    { rewrite get_image_run. apply same_outside_refl. }
    intros im w1. by apply write_file_outside.
Qed.

Lemma batch_loop_outside self attendees output_dir name_position font_path
  font_size text_color hash_position qr_position qr_size as_pdf
  (S : list (list N) -> Prop) :
  (forall a, a ∈ attendees ->
     S (resolve output_dir ++ [safe_name ucd_isalnum a ++ extension as_pdf])) ->
  forall results w,
    same_outside S w (batch_loop self attendees output_dir name_position font_path
                        font_size text_color hash_position qr_position qr_size as_pdf
                        results w).1.
Proof.
  induction attendees as [|a rest IH]; intros HS results w.
  - apply same_outside_refl.
  - rewrite batch_loop_unfold.
    apply same_outside_bind; [apply render_outside |]. intros r w1.
    apply same_outside_bind.
    + apply save_step_outside, HS. by left.
    + intros p w2. apply IH. intros b Hb. apply HS. by right.
Qed.

(** X17: a batch stays inside its output directory, whatever the attendee
    names (a name with [/] or [..] in it included) and however the batch
    ends, when the output directory itself is given as a relative path of
    plain names.  A path whose entry differs after the call is one of the
    directories on the way down to [output_dir], or the file of one of
    the attendees directly inside [output_dir]. *)
Theorem batch_generate_confined self attendees output_dir name_position font_path
  font_size text_color hash_position qr_position qr_size as_pdf w q :
  plain_path output_dir = true ->
  fs (batch_generate self attendees output_dir name_position font_path font_size
        text_color hash_position qr_position qr_size as_pdf w).1 !! q <> fs w !! q ->
  q ∈ ancestors [] (resolve output_dir) \/
  exists a, a ∈ attendees /\
    q = resolve output_dir ++ [safe_name ucd_isalnum a ++ extension as_pdf].
Proof.
  intros _ Hq.
  destruct (decide (q ∈ ancestors [] (resolve output_dir))) as [| Hanc]; [by left |].
  right.
  destruct (decide (Exists (fun a => q = resolve output_dir
                      ++ [safe_name ucd_isalnum a ++ extension as_pdf]) attendees))
    as [Hex | Hno].
  { apply Exists_exists in Hex as (a & Ha & ->). by exists a. }
  exfalso. apply Hq.
  assert (same_outside
            (fun p => p ∈ ancestors [] (resolve output_dir) \/
                      exists a, a ∈ attendees /\
                        p = resolve output_dir
                            ++ [safe_name ucd_isalnum a ++ extension as_pdf]) w
            (batch_generate self attendees output_dir name_position font_path
               font_size text_color hash_position qr_position qr_size as_pdf w).1)
    as Hsame.
  { unfold batch_generate. apply same_outside_bind.
    - intros p Hp. unfold makedirs. destruct output_dir as [|c l]; [done |].
      apply mkdirs_other. intros Hin. apply Hp. by left.
    - intros _ w1. apply batch_loop_outside. intros a Ha. right. by exists a. }
  apply Hsame. intros [? | (a & Ha & ->)]; [done |].
  apply Hno, Exists_exists. by exists a.
Qed.

End Confined.

(** ** Two attendees, one file *)

Section LastWins.
Context `{Platform}.

Lemma save_step_content self cert output_dir as_pdf attendee w w' path :
  save_step self cert output_dir as_pdf attendee w = (w', inr path) ->
  exists im content,
    images w !! cert = Some im /\ file_bytes as_pdf im = Some content /\
    fs w' !! (resolve output_dir ++ [safe_name ucd_isalnum attendee ++ extension as_pdf])
    = Some (File content).
Proof.
  rewrite <- (resolve_join output_dir) by apply safe_name_plain.
  unfold save_step, file_bytes. intros Hsave. destruct as_pdf; cbn [extension].
  - apply run_bind_inv in Hsave as ([] & w3 & Hs & Hret).
    injection Hret as <- _. unfold save_as_pdf in Hs.
    apply run_bind_inv in Hs as (im & w1 & Hget & Hs).
    rewrite get_image_run in Hget.
    destruct (images w !! cert) as [im'|] eqn:Him; [| done].
    injection Hget as <- <-. cbv zeta in Hs.
    apply run_bind_inv in Hs as ([] & w2 & _ & Hs).
    apply run_bind_inv in Hs as (pdf & w4 & Hpdf & Hw).
    exists im'. exists pdf. split; [done |].
    unfold of_option in Hpdf.
    destruct (img2pdf_convert _) as [pdf'|]; [| done].
    injection Hpdf as _ <-. split; [done |].
    apply write_file_inv in Hw as [-> _]. cbn [fs set_fs]. apply lookup_insert_eq.
  - apply run_bind_inv in Hsave as ([] & w3 & Hs & Hret).
    injection Hret as <- _. unfold image_save in Hs.
    apply run_bind_inv in Hs as (im & w1 & Hget & Hw).
    rewrite get_image_run in Hget.
    destruct (images w !! cert) as [im'|] eqn:Him; [| done].
    injection Hget as <- <-.
    exists im', (png_encode im'). split; [done |]. split; [done |].
    apply write_file_inv in Hw as [-> _]. cbn [fs set_fs]. apply lookup_insert_eq.
Qed.

(** X18: the last attendee of a safe name owns the file.  In a batch that
    returns, take an attendee after whom no attendee of the same safe
    name comes.  The file of that name in the output directory holds, at
    the end of the batch, the encoding (PNG, or the PDF made from it) of
    the very image [generate_certificate] returned for this attendee, and
    the attendee's record carries the hash of that render; certificates
    written earlier under the same name are gone. *)
Theorem batch_generate_last_wins self l1 a l2 output_dir name_position font_path
  font_size text_color hash_position qr_position qr_size as_pdf w w0 r0 wr cert h w2 r :
  batch_generate self l1 output_dir name_position font_path font_size
    text_color hash_position qr_position qr_size as_pdf w = (w0, inr r0) ->
  generate_certificate self a name_position font_path font_size text_color
    hash_position qr_position qr_size w0 = (wr, inr (cert, h)) ->
  batch_generate self (l1 ++ a :: l2) output_dir name_position font_path font_size
    text_color hash_position qr_position qr_size as_pdf w = (w2, inr r) ->
  (forall b, b ∈ l2 -> safe_name ucd_isalnum b <> safe_name ucd_isalnum a) ->
  exists im content rest,
    images wr !! cert = Some im /\
    file_bytes as_pdf im = Some content /\
    fs w2 !! (resolve output_dir ++ [safe_name ucd_isalnum a ++ extension as_pdf])
    = Some (File content) /\
    r = r0 ++ mkCertInfo a h (output_path_of output_dir as_pdf a) :: rest.
Proof.
  intros H1 H2 H3 Hl2.
  apply batch_generate_loop in H1 as (_ & Hloop1 & _).
  rewrite batch_generate_run in H3.
  destruct (makedirs output_dir w) as [wm [e | []]] eqn:Hmk; [done |].
  cbn [fst snd] in *.
  rewrite batch_loop_app, Hloop1, batch_loop_unfold in H3.
  rewrite (run_bind_ok _ _ _ _ _ H2) in H3. cbn [fst snd] in H3.
  destruct (save_step self cert output_dir as_pdf a wr) as [ws [e | path]] eqn:Hsave.
  { by rewrite (run_bind_err _ _ _ _ _ Hsave) in H3. }
  rewrite (run_bind_ok _ _ _ _ _ Hsave) in H3.
  pose proof Hsave as Hpath. apply save_step_inv in Hpath as (-> & _).
  apply save_step_content in Hsave as (im & content & Him & Hbytes & Hfile).
  rewrite batch_loop_results in H3.
  pose proof (batch_loop_outside self l2 output_dir name_position font_path font_size
                text_color hash_position qr_position qr_size as_pdf
                (fun q => exists b, b ∈ l2 /\
                   q = resolve output_dir
                       ++ [safe_name ucd_isalnum b ++ extension as_pdf])
                (fun b Hb => ex_intro _ b (conj Hb eq_refl)) [] ws) as Hout.
  destruct (batch_loop self l2 _ _ _ _ _ _ _ _ _ [] ws) as [w3 [e | new]];
    cbn [fst snd] in *; [done |].
  injection H3 as <- <-.
  exists im, content, new. split; [done |]. split; [done |]. split.
  - rewrite Hout; [done |]. intros (b & Hb & Heq).
    apply app_inj_tail in Heq as [_ Heq]. apply app_inv_tail in Heq.
    by apply (Hl2 b).
  - by rewrite <- app_assoc.
Qed.

End LastWins.

(** ** The sample run *)

Section DemoFurther.
#[local] Existing Instance Demo.platform.
Local Open Scope Z_scope.

Lemma certificate_background_witness :
  exists g tpl im,
    generators Demo.world !! Demo.self = Some g /\
    images Demo.world !! template g = Some tpl /\
    images Demo.good.1 !! Demo.cert_of Demo.good = Some im /\
    forall x y,
      ~ covers (1, 1) (rasterize (fonts_of Demo.roboto 60).1 (lit "Alice")) x y ->
      ~ covers (default (50, template_height g - 100) (Some (0, 5)))
               (rasterize (fonts_of Demo.roboto 60).2
                          (hash_display (Demo.hash_of Demo.good))) x y ->
      ~ in_box (qr_place g (Some (9, 1)) 2) 2 x y ->
      getpixel im x y = getpixel tpl x y.
Proof.
  apply (certificate_background Demo.self (lit "Alice") (1, 1) Demo.roboto 60
           (0, 0, 0) (Some (0, 5)) (Some (9, 1)) 2 Demo.world
           Demo.good.1 (Demo.cert_of Demo.good) (Demo.hash_of Demo.good)).
  vm_compute. reflexivity.
Defined.

Lemma certificate_qr_on_top_witness :
  exists g tpl im,
    generators Demo.world !! Demo.self = Some g /\
    images Demo.world !! template g = Some tpl /\
    images Demo.good.1 !! Demo.cert_of Demo.good = Some im /\
    (im_mode tpl = lit "RGB" ->
     wf_image tpl ->
     forall x y,
       in_bounds tpl x y = true ->
       in_box (qr_place g (Some (9, 1)) 2) 2 x y ->
       getpixel im x y = black \/ getpixel im x y = white).
Proof.
  apply (certificate_qr_on_top Demo.self (lit "Alice") (1, 1) Demo.roboto 60
           (0, 0, 0) (Some (0, 5)) (Some (9, 1)) 2 Demo.world
           Demo.good.1 (Demo.cert_of Demo.good) (Demo.hash_of Demo.good)).
  vm_compute. reflexivity.
Defined.

(** The symbol of two modules a side: sixty pixels a side, white in its
    corner, black at its first module. *)
Lemma qr_symbol_geometry_witness :
  exists w' img,
    generate_qr_code Demo.self (lit "Alice") (Demo.hash_of Demo.good) Demo.world
    = (w', inr img) /\
    w' = tick Demo.world /\ im_width img = 60 /\ im_height img = 60 /\
    getpixel img 0 0 = white /\ getpixel img 25 25 = black.
Proof.
  destruct (generate_qr_code Demo.self (lit "Alice") (Demo.hash_of Demo.good)
              Demo.world) as [w' [e | img]] eqn:Hrun;
    [by vm_compute in Hrun |].
  destruct (qr_symbol_geometry Demo.self (lit "Alice") (Demo.hash_of Demo.good)
              Demo.world w' img Hrun)
    as (g & mods & Hg & Hq & Hw & Hwd & Hht & Hpix & _).
  assert (g = mkGenerator 1 (lit "GDG Basra Event") 12 8) as ->
    by (vm_compute in Hg; injection Hg as <-; vm_compute; reflexivity).
  assert (mods = [[true; false]; [false; true]]) as ->
    by (vm_compute in Hq; injection Hq as <-; reflexivity).
  exists w', img. split; [reflexivity |]. split; [exact Hw |].
  split; [exact Hwd |]. split; [exact Hht |].
  split; [apply (Hpix 0 0); cbn; lia | apply (Hpix 25 25); cbn; lia].
Defined.

Lemma generate_certificate_outcome_witness :
  exists g,
    generators Demo.world !! Demo.self = Some g /\
    forallb is_scalar (lit "Alice" ++ event_name g) = true /\
    qr_modules (Json.dumps
                  (verification_data
                     (minted g (lit "Alice") (clock Demo.world (ticks Demo.world)))
                     (lit "Alice") (event_name g)
                     (strftime (clock Demo.world (S (ticks Demo.world))))))
    <> None /\
    1 <= 2 /\
    (Demo.cert_of Demo.good, Demo.hash_of Demo.good)
    = (fresh (dom (images Demo.world)),
       minted g (lit "Alice") (clock Demo.world (ticks Demo.world))) /\
    ticks Demo.good.1 = S (S (ticks Demo.world)).
Proof.
  apply (generate_certificate_outcome Demo.self (lit "Alice") (1, 1) Demo.roboto 60
           (0, 0, 0) (Some (0, 5)) (Some (9, 1)) 2 Demo.world
           (Demo.cert_of Demo.good, Demo.hash_of Demo.good)).
  vm_compute. reflexivity.
Defined.

(** The certificate of "Alice" saved as [alice.pdf] in the working
    directory. *)
Lemma save_as_pdf_writes_witness :
  exists pdf,
    save_as_pdf Demo.self (Demo.cert_of Demo.good) (lit "alice.pdf") Demo.good.1
    = (set_fs (insert [lit "alice.pdf"] (File pdf)) Demo.good.1, inr tt) /\
    fs (save_as_pdf Demo.self (Demo.cert_of Demo.good) (lit "alice.pdf") Demo.good.1).1
      !! [lit "template.png"] = fs Demo.good.1 !! [lit "template.png"].
Proof.
  destruct (images Demo.good.1 !! Demo.cert_of Demo.good) as [im|] eqn:Him;
    [| by vm_compute in Him].
  destruct (save_as_pdf_writes Demo.self (Demo.cert_of Demo.good) (lit "alice.pdf")
              Demo.good.1 im
              (lit "%PDF" ++ png_encode (if bool_decide (im_mode im ≠ lit "RGB")
                                         then convert_rgb im else im)) Him)
    as (Hrun & _ & _ & Hrest).
  - vm_compute. reflexivity.
  - vm_compute. reflexivity.
  - vm_compute. discriminate.
  - reflexivity.
  - eexists. split; [exact Hrun |]. apply Hrest. vm_compute. congruence.
Defined.

(** The same call for a directory that is not there. *)
Lemma save_as_pdf_failures_witness :
  save_as_pdf Demo.self (Demo.cert_of Demo.good) (lit "nowhere/alice.pdf") Demo.good.1
  = (Demo.good.1, inl FileNotFoundError).
Proof.
  destruct (images Demo.good.1 !! Demo.cert_of Demo.good) as [im|] eqn:Him;
    [| by vm_compute in Him].
  destruct (save_as_pdf_failures Demo.self (Demo.cert_of Demo.good)
              (lit "nowhere/alice.pdf") Demo.good.1 im Him) as [Hmissing _].
  - vm_compute. reflexivity.
  - apply Hmissing; [vm_compute; reflexivity |].
    unfold no_file_above. vm_compute. repeat constructor; intros c; discriminate.
Defined.

(** The constructor on the template of the sample run, on a directory and
    on a path that names nothing. *)
Lemma init_outcome_witness :
  (init (lit "template.png") (lit "GDG Basra Event") Demo.boot).2 = inr 1%positive /\
  init (lit "nowhere/template.png") (lit "GDG Basra Event") Demo.boot
  = (Demo.boot, inl FileNotFoundError).
Proof.
  split.
  - destruct (init_outcome (lit "template.png") (lit "GDG Basra Event") Demo.boot)
      as (Hopen & _); [vm_compute; reflexivity |].
    destruct (Hopen [12; 8]%N
                (new_image (lit "RGB") 12 8 (fun _ _ => (200, 200, 200))))
      as (Hrun & _); [vm_compute; reflexivity | vm_compute; reflexivity |].
    rewrite Hrun. vm_compute. reflexivity.
  - destruct (init_outcome (lit "nowhere/template.png") (lit "GDG Basra Event")
                Demo.boot) as (_ & _ & Hmissing); [vm_compute; reflexivity |].
    apply Hmissing; [vm_compute; reflexivity |].
    unfold no_file_above. vm_compute. repeat constructor; intros c; discriminate.
Defined.

Lemma batch_generate_in_parts_witness :
  batch_generate Demo.self ([lit "Alice"] ++ [lit "Bob"; lit "Alice"])
    (lit "temp/generated") (1, 1) Demo.roboto 60 (0, 0, 0) None None 2 true Demo.world
  = ((batch_generate Demo.self [lit "Bob"; lit "Alice"]
        (lit "temp/generated") (1, 1) Demo.roboto 60 (0, 0, 0) None None 2 true
        (batch_generate Demo.self [lit "Alice"]
           (lit "temp/generated") (1, 1) Demo.roboto 60 (0, 0, 0) None None 2 true
           Demo.world).1).1,
     inr (Demo.results_of
            (batch_generate Demo.self [lit "Alice"]
               (lit "temp/generated") (1, 1) Demo.roboto 60 (0, 0, 0) None None 2 true
               Demo.world)
          ++ Demo.results_of
               (batch_generate Demo.self [lit "Bob"; lit "Alice"]
                  (lit "temp/generated") (1, 1) Demo.roboto 60 (0, 0, 0) None None 2
                  true
                  (batch_generate Demo.self [lit "Alice"]
                     (lit "temp/generated") (1, 1) Demo.roboto 60 (0, 0, 0) None None 2
                     true Demo.world).1))).
Proof.
  apply (batch_generate_in_parts Demo.self [lit "Alice"] [lit "Bob"; lit "Alice"]
           (lit "temp/generated") (1, 1) Demo.roboto 60 (0, 0, 0) None None 2 true
           Demo.world
           (batch_generate Demo.self [lit "Alice"]
              (lit "temp/generated") (1, 1) Demo.roboto 60 (0, 0, 0) None None 2 true
              Demo.world).1);
    vm_compute; reflexivity.
Defined.

(** A batch whose second attendee has a lone surrogate in the name: the
    certificate of "Alice" is on disk, "Bob" is never reached. *)
Lemma batch_generate_aborts_witness :
  (batch_generate Demo.self ([lit "Alice"] ++ [55296%N] :: [lit "Bob"])
     (lit "temp/generated") (1, 1) Demo.roboto 60 (0, 0, 0) None None 2 true
     Demo.world).2 = inl UnicodeEncodeError /\
  is_file (batch_generate Demo.self [lit "Alice"]
             (lit "temp/generated") (1, 1) Demo.roboto 60 (0, 0, 0) None None 2 true
             Demo.world).1
          (lit "temp/generated/Alice.pdf").
Proof.
  destruct (batch_generate_aborts Demo.self [lit "Alice"] [55296%N] [lit "Bob"]
              (lit "temp/generated") (1, 1) Demo.roboto 60 (0, 0, 0) None None 2 true
              Demo.world
              (batch_generate Demo.self [lit "Alice"]
                 (lit "temp/generated") (1, 1) Demo.roboto 60 (0, 0, 0) None None 2 true
                 Demo.world).1
              (Demo.results_of
                 (batch_generate Demo.self [lit "Alice"]
                    (lit "temp/generated") (1, 1) Demo.roboto 60 (0, 0, 0) None None 2
                    true Demo.world))
              UnicodeEncodeError) as (Hrun & _ & Hfiles).
  - vm_compute. reflexivity.
  - vm_compute. reflexivity.
  - split; [by rewrite Hrun |].
    assert (Demo.results_of
              (batch_generate Demo.self [lit "Alice"]
                 (lit "temp/generated") (1, 1) Demo.roboto 60 (0, 0, 0) None None 2
                 true Demo.world)
            = [mkCertInfo (lit "Alice") (Demo.hash_of (Demo.render_of Demo.roboto
                 (makedirs (lit "temp/generated") Demo.world).1))
                 (lit "temp/generated/Alice.pdf")]) as Hres.
    { vm_compute. reflexivity. }
    rewrite Hres in Hfiles. apply Forall_cons in Hfiles as [Hfile _]. exact Hfile.
Defined.


Lemma load_attendees_join_witness :
  load_attendees (fun _ => false)
    (join_lines [lit "John Doe"; lit "Jane Smith"; lit "John Doe"])
  = Some [lit "John Doe"; lit "Jane Smith"; lit "John Doe"].
Proof.
  apply (load_attendees_join (fun _ => false)
           [lit "John Doe"; lit "Jane Smith"; lit "John Doe"]); [done |].
  repeat constructor; try done;
    try (apply (bool_decide_unpack _); vm_compute; exact I);
    intros c [= <-]; reflexivity.
Defined.

(** The file of "Alice" is new after the batch: it lies in the output
    directory under the attendee's safe name. *)
Lemma batch_generate_confined_witness :
  [lit "temp"; lit "generated"; lit "Alice.pdf"]
    ∈ ancestors [] (resolve (lit "temp/generated")) \/
  exists a, a ∈ [lit "Alice"; lit "Bob"; lit "Alice"] /\
    [lit "temp"; lit "generated"; lit "Alice.pdf"]
    = resolve (lit "temp/generated") ++ [safe_name ucd_isalnum a ++ extension true].
Proof.
  apply (batch_generate_confined Demo.self [lit "Alice"; lit "Bob"; lit "Alice"]
           (lit "temp/generated") (1, 1) Demo.roboto 60 (0, 0, 0) None None 2 true
           Demo.world [lit "temp"; lit "generated"; lit "Alice.pdf"]).
  - vm_compute. reflexivity.
  - vm_compute. discriminate.
Defined.

(** In the batch of "Alice", "Bob", "Alice" the file [Alice.pdf] is the
    certificate of the second "Alice". *)
Lemma batch_generate_last_wins_witness :
  exists im content rest,
    images (generate_certificate Demo.self (lit "Alice") (1, 1) Demo.roboto 60
              (0, 0, 0) None None 2
              (batch_generate Demo.self [lit "Alice"; lit "Bob"]
                 (lit "temp/generated") (1, 1) Demo.roboto 60 (0, 0, 0) None None 2
                 true Demo.world).1).1
      !! Demo.cert_of
           (generate_certificate Demo.self (lit "Alice") (1, 1) Demo.roboto 60
              (0, 0, 0) None None 2
              (batch_generate Demo.self [lit "Alice"; lit "Bob"]
                 (lit "temp/generated") (1, 1) Demo.roboto 60 (0, 0, 0) None None 2
                 true Demo.world).1)
    = Some im /\
    file_bytes true im = Some content /\
    fs (Demo.batch true).1
      !! (resolve (lit "temp/generated")
          ++ [safe_name ucd_isalnum (lit "Alice") ++ extension true])
    = Some (File content) /\
    Demo.results_of (Demo.batch true)
    = Demo.results_of (batch_generate Demo.self [lit "Alice"; lit "Bob"]
                         (lit "temp/generated") (1, 1) Demo.roboto 60 (0, 0, 0)
                         None None 2 true Demo.world)
      ++ mkCertInfo (lit "Alice")
           (Demo.hash_of (generate_certificate Demo.self (lit "Alice") (1, 1)
                            Demo.roboto 60 (0, 0, 0) None None 2
                            (batch_generate Demo.self [lit "Alice"; lit "Bob"]
                               (lit "temp/generated") (1, 1) Demo.roboto 60 (0, 0, 0)
                               None None 2 true Demo.world).1))
           (output_path_of (lit "temp/generated") true (lit "Alice")) :: rest.
Proof.
  apply (batch_generate_last_wins Demo.self [lit "Alice"; lit "Bob"] (lit "Alice") []
           (lit "temp/generated") (1, 1) Demo.roboto 60 (0, 0, 0) None None 2 true
           Demo.world
           (batch_generate Demo.self [lit "Alice"; lit "Bob"]
              (lit "temp/generated") (1, 1) Demo.roboto 60 (0, 0, 0) None None 2
              true Demo.world).1
           (Demo.results_of (batch_generate Demo.self [lit "Alice"; lit "Bob"]
                         (lit "temp/generated") (1, 1) Demo.roboto 60 (0, 0, 0)
                         None None 2 true Demo.world))).
  - vm_compute. reflexivity.
  - vm_compute. reflexivity.
  - vm_compute. reflexivity.
  - intros b Hb. by apply elem_of_nil in Hb.
Defined.

End DemoFurther.
